(** * Music-catalog ETL scripts: canonical keys, deduplication and merges

    A shallow embedding of the cleaning scripts under [ETL/]:
    text normalisation and MD5 song identifiers
    ([ETL_charts/charts_cleaning_1.py], [ETL_charts/charts_cleaning_2.py],
    [ETL_tracks/tracks_cleaning_2.py]), the line filter of
    [ETL_charts/charts_cleaning_3.py], the artist splitting of
    [ETL_artists/artists_cleaning_1.py], the left join of
    [ETL_artists/artists_cleaning_2.py] and the append merge of
    [Comprehensive tracks dataset/merge_tracks_and_popularity.py].

    Python [str] values are lists of Unicode code points, CSV cells are
    the scalar [value]s pandas hands to the scripts, with the column
    types pandas gives them, and a function that can raise returns an
    [option]. *)

From Stdlib Require Import String Ascii ZArith List Bool Lia.
From Stdlib Require Import Numbers.DecimalString.
Import ListNotations.

Open Scope Z_scope.

(* ================================================================== *)
(** ** Python strings *)

(** A Python [str]: the sequence of its code points. *)
Definition str := list Z.

(** An ASCII literal of the source as a [str]. *)
Definition lit (s : string) : str :=
  map (fun a => Z.of_N (N_of_ascii a)) (list_ascii_of_string s).

Module Py.

(** [str.isspace] on one character, which is also what [str.split()],
    [str.strip()] and the regular-expression class [\s] test
    (CPython's [Py_UNICODE_ISSPACE]); the list is the complete set. *)
Definition isspace (c : Z) : bool :=
  ((0x09 <=? c) && (c <=? 0x0D)) || ((0x1C <=? c) && (c <=? 0x20))
  || (c =? 0x85) || (c =? 0xA0) || (c =? 0x1680)
  || ((0x2000 <=? c) && (c <=? 0x200A))
  || (c =? 0x2028) || (c =? 0x2029) || (c =? 0x202F) || (c =? 0x205F)
  || (c =? 0x3000).

(** A character range of a regular-expression class, as [a-z]. *)
Definition in_range (lo hi c : Z) : bool := (lo <=? c) && (c <=? hi).

(** [s.split()]: the maximal runs of non-whitespace characters.
    [tok] is the run being scanned, most recent character first. *)
Fixpoint split_from (tok : str) (s : str) : list str :=
  match s with
  | [] => match tok with [] => [] | _ => [rev tok] end
  | c :: s' =>
      if isspace c then
        match tok with
        | [] => split_from [] s'
        | _ => rev tok :: split_from [] s'
        end
      else split_from (c :: tok) s'
  end.

Definition split (s : str) : list str := split_from [] s.

(** [sep.join(parts)]. *)
Fixpoint join (sep : str) (parts : list str) : str :=
  match parts with
  | [] => []
  | [w] => w
  | w :: rest => w ++ sep ++ join sep rest
  end.

Fixpoint dropwhile (p : Z -> bool) (s : str) : str :=
  match s with
  | [] => []
  | c :: s' => if p c then dropwhile p s' else s
  end.

(** [s.lstrip(chars)], [s.rstrip(chars)] with the character set given
    as a predicate, and [s.strip()]. *)
Definition lstrip_by (p : Z -> bool) (s : str) : str := dropwhile p s.
Definition rstrip_by (p : Z -> bool) (s : str) : str :=
  rev (dropwhile p (rev s)).
Definition strip (s : str) : str := rstrip_by isspace (lstrip_by isspace s).

(** [s.split(sep)] for a one-character separator, as every call of
    the scripts has it: one piece more than there are separators,
    empty pieces included. *)
Fixpoint split_on_from (sep : Z) (tok : str) (s : str) : list str :=
  match s with
  | [] => [rev tok]
  | c :: s' =>
      if c =? sep then rev tok :: split_on_from sep [] s'
      else split_on_from sep (c :: tok) s'
  end.

Definition split_on (sep : Z) (s : str) : list str := split_on_from sep [] s.

Fixpoint str_eqb (a b : str) : bool :=
  match a, b with
  | [], [] => true
  | x :: a', y :: b' => (x =? y) && str_eqb a' b'
  | _, _ => false
  end.

(** [s.endswith(suffix)]. *)
Definition endswith (s suffix : str) : bool :=
  str_eqb (skipn (length s - length suffix) s) suffix
  && (length suffix <=? length s)%nat.

(** [s[:-n]] for [n > 0]. *)
Definition drop_last (n : nat) (s : str) : str :=
  firstn (length s - n) s.

(** [s[:n]]. *)
Definition take (n : nat) (s : str) : str := firstn n s.

(** [str(n)] for a Python [int]. *)
Definition str_of_int (z : Z) : str :=
  lit (NilZero.string_of_int (Z.to_int z)).

(** [s.encode('utf-8')]: the bytes of one code point; lone surrogates
    and values that are no code points raise [UnicodeEncodeError]. *)
Definition utf8_char (c : Z) : option (list Z) :=
  if c <? 0 then None
  else if c <? 0x80 then Some [c]
  else if c <? 0x800 then
    Some [Z.lor 0xC0 (Z.shiftr c 6); Z.lor 0x80 (Z.land c 0x3F)]
  else if c <? 0x10000 then
    if (0xD800 <=? c) && (c <=? 0xDFFF) then None
    else Some [Z.lor 0xE0 (Z.shiftr c 12);
               Z.lor 0x80 (Z.land (Z.shiftr c 6) 0x3F);
               Z.lor 0x80 (Z.land c 0x3F)]
  else if c <? 0x110000 then
    Some [Z.lor 0xF0 (Z.shiftr c 18);
          Z.lor 0x80 (Z.land (Z.shiftr c 12) 0x3F);
          Z.lor 0x80 (Z.land (Z.shiftr c 6) 0x3F);
          Z.lor 0x80 (Z.land c 0x3F)]
  else None.

Fixpoint encode_utf8 (s : str) : option (list Z) :=
  match s with
  | [] => Some []
  | c :: s' =>
      match utf8_char c, encode_utf8 s' with
      | Some bs, Some rest => Some (bs ++ rest)
      | _, _ => None
      end
  end.

(** [s.startswith(prefix)]. *)
Definition startswith (s prefix : str) : bool :=
  str_eqb (firstn (length prefix) s) prefix.

(** [s.replace(c, '')] for a one-character [c]. *)
Definition remove_char (c : Z) (s : str) : str :=
  filter (fun x => negb (x =? c)) s.

(** [s.strip(chars)], the character set given as a predicate. *)
Definition strip_by (p : Z -> bool) (s : str) : str :=
  rstrip_by p (lstrip_by p s).

End Py.

(* ================================================================== *)
(** ** Python floats *)

Module Float.

(** A finite [float] (IEEE 754 binary64): [man * 2^exp], negated when
    [neg]; [man] is odd, or zero with [exp = 0].  Infinities are not
    modelled. *)
Record t := mk { neg : bool; man : Z; exp : Z }.

(** [p * 2^e] with an odd mantissa. *)
Fixpoint reduce (p : positive) (e : Z) : Z * Z :=
  match p with
  | xO p' => reduce p' (e + 1)
  | _ => (Zpos p, e)
  end.

(** [float(z)] for an integer: rounded to 53 bits, ties to even. *)
Definition of_int (z : Z) : t :=
  let n := Z.abs z in
  let s := Z.max 0 (Z.log2 n + 1 - 53) in
  let q := Z.shiftr n s in
  let r := n - Z.shiftl q s in
  let half := Z.shiftl 1 (s - 1) in
  let up := (0 <? s) && ((half <? r) || ((r =? half) && Z.odd q)) in
  match (if up then q + 1 else q) with
  | Zpos p => let '(m, e) := reduce p s in mk (z <? 0) m e
  | _ => mk false 0 0
  end.

(** The order of [d * 10^p] and [n * 2^t]. *)
Definition compare_scaled (d p n t : Z) : comparison :=
  (d * 10 ^ Z.max p 0 * 2 ^ Z.max (- t) 0
   ?= n * 2 ^ Z.max t 0 * 10 ^ Z.max (- p) 0).

Definition le_scaled (d p n t : Z) : bool :=
  match compare_scaled d p n t with Gt => false | _ => true end.
Definition lt_scaled (d p n t : Z) : bool :=
  match compare_scaled d p n t with Lt => true | _ => false end.

(** The least [D] from [g] on with [n * 2^t < 10^D]. *)
Fixpoint decimal_point (fuel : nat) (g n t : Z) : Z :=
  match fuel with
  | O => g
  | S fuel' =>
      if le_scaled 1 g n t then decimal_point fuel' (g + 1) n t else g
  end.

(** The shortest decimal [c * 10^p] that reads back as the float
    [m * 2^e], the closest one when there are several: the search of
    [repr] over the number of digits. *)
Fixpoint shortest (k : nat) (D x lo hi t : Z) (closed : bool) : Z * Z :=
  let digits := 17 - Z.of_nat k in
  let p := D - digits in
  let d := (x * 2 ^ Z.max t 0 * 10 ^ Z.max (- p) 0)
           / (2 ^ Z.max (- t) 0 * 10 ^ Z.max p 0) in
  let inside c :=
    if closed then
      negb (lt_scaled c p (x - lo) t) && le_scaled c p (x + hi) t
    else
      negb (le_scaled c p (x - lo) t) && lt_scaled c p (x + hi) t in
  let nearest :=
    match compare_scaled (2 * d + 1) p (2 * x) t with
    | Gt => (d, p)
    | Lt => (d + 1, p)
    | Eq => (if Z.even d then d else d + 1, p)
    end in
  match k with
  | O => nearest
  | S k' =>
      match inside d, inside (d + 1) with
      | true, true => nearest
      | true, false => (d, p)
      | false, true => (d + 1, p)
      | false, false => shortest k' D x lo hi t closed
      end
  end.

Definition eqb (f g : t) : bool :=
  Bool.eqb (neg f) (neg g) && (man f =? man g) && (exp f =? exp g).

Definition zeros (n : Z) : str := repeat 0x30 (Z.to_nat n).

(** [repr(x)], which is also [str(x)], of a float. *)
Definition to_str (f : t) : str :=
  let sign := if neg f then lit "-" else [] in
  if man f =? 0 then sign ++ lit "0.0"
  else
    let m := man f in
    let e := exp f in
    let E := Z.log2 m + e in
    let ulp := Z.max (E - 52) (-1074) in
    let t := ulp - 2 in
    let x := m * 2 ^ (e - t) in
    let lo := if (m =? 1) && (-1022 <? E) then 1 else 2 in
    let closed := ulp <? e in
    let g := (E * 30103) / 100000 - 1 in
    let D := decimal_point 4 g x t in
    let '(c, p) := shortest 16 D x lo 2 t closed in
    let all := Py.str_of_int c in
    let digits := Py.rstrip_by (fun a => a =? 0x30) all in
    let n := Z.of_nat (length digits) in
    let decpt := Z.of_nat (length all) + p in
    if (decpt <=? -4) || (16 <? decpt) then
      let mantissa :=
        match digits with
        | [d1] => [d1]
        | d1 :: rest => d1 :: 0x2E :: rest
        | [] => []
        end in
      let ex := decpt - 1 in
      let exs := Py.str_of_int (Z.abs ex) in
      sign ++ mantissa ++ lit "e" ++ (if ex <? 0 then lit "-" else lit "+")
           ++ (if Z.abs ex <? 10 then 0x30 :: exs else exs)
    else if decpt <=? 0 then
      sign ++ lit "0." ++ zeros (- decpt) ++ digits
    else if n <=? decpt then
      sign ++ digits ++ zeros (decpt - n) ++ lit ".0"
    else
      sign ++ firstn (Z.to_nat decpt) digits ++ lit "."
           ++ skipn (Z.to_nat decpt) digits.

End Float.

(* ================================================================== *)
(** ** The Unicode character database

    [str.lower], [unicodedata.normalize('NFD', _)],
    [unicodedata.category] and [str.isalnum] read tables of the Python
    runtime that are not part of the repository.  The scripts are
    modelled over any such tables; [latin1_db] below gives them for the
    strings over U+0000..U+00FF. *)

Class UnicodeDB := {
  (** [s.lower()] *)
  lower : str -> str;
  (** [unicodedata.normalize('NFD', s)] *)
  nfd : str -> str;
  (** [unicodedata.category(c) == 'Mn'] *)
  is_Mn : Z -> bool;
  (** [c.isalnum()] *)
  isalnum : Z -> bool
}.

(** The class [\w] of [re] on a [str] pattern: alphanumeric or underscore. *)
Definition is_word `{UnicodeDB} (c : Z) : bool := isalnum c || (c =? 0x5F).

Module Latin1.

Definition in_range := Py.in_range.

(** Lowercase mapping of one character of U+0000..U+00FF. *)
Definition lower_char (c : Z) : Z :=
  if in_range 0x41 0x5A c then c + 32
  else if in_range 0xC0 0xDE c && negb (c =? 0xD7) then c + 32
  else c.

(** The combining mark of a decomposable lowercase or uppercase
    letter of U+00C0..U+00FF, by its offset in the block of 32. *)
Definition mark_of (off : Z) : Z :=
  if (off =? 0) || (off =? 8) || (off =? 12) || (off =? 18) || (off =? 25)
  then 0x300
  else if (off =? 1) || (off =? 9) || (off =? 13) || (off =? 19)
          || (off =? 26) || (off =? 29)
  then 0x301
  else if (off =? 2) || (off =? 10) || (off =? 14) || (off =? 20)
          || (off =? 27)
  then 0x302
  else if (off =? 3) || (off =? 17) || (off =? 21) then 0x303
  else if (off =? 5) then 0x30A
  else if (off =? 7) then 0x327
  else 0x308.

(** The base letter, as an uppercase ASCII letter. *)
Definition base_of (off : Z) : Z :=
  if off <=? 5 then 0x41
  else if off =? 7 then 0x43
  else if off <=? 11 then 0x45
  else if off <=? 15 then 0x49
  else if off =? 17 then 0x4E
  else if off <=? 22 then 0x4F
  else if off <=? 28 then 0x55
  else 0x59.

(** Canonical decomposition of one character of U+0000..U+00FF. *)
Definition decompose (c : Z) : str :=
  if in_range 0xC0 0xFF c then
    let off := Z.land c 0x1F in
    let upper := c <? 0xE0 in
    if (off =? 6) || (off =? 16) || (off =? 23) || (off =? 24)
       || (off =? 30) || ((off =? 31) && upper)
    then [c]
    else if (off =? 31) then [0x79; 0x308]
    else [ (if upper then base_of off else base_of off + 32); mark_of off ]
  else [c].

Definition alnum (c : Z) : bool :=
  in_range 0x30 0x39 c || in_range 0x41 0x5A c || in_range 0x61 0x7A c
  || (c =? 0xAA) || (c =? 0xB2) || (c =? 0xB3) || (c =? 0xB5)
  || (c =? 0xB9) || (c =? 0xBA) || in_range 0xBC 0xBE c
  || (in_range 0xC0 0xFF c && negb (c =? 0xD7) && negb (c =? 0xF7)).

End Latin1.

(** The tables on U+0000..U+00FF, where they agree with CPython's
    (Unicode 14): lowercasing and decomposition act character by
    character there, and the combining marks U+0300..U+036F, which
    decomposition produces, are the characters of category Mn. *)
Definition latin1_db : UnicodeDB := {|
  lower := map Latin1.lower_char;
  nfd := flat_map Latin1.decompose;
  is_Mn := Latin1.in_range 0x300 0x36F;
  isalnum := Latin1.alnum
|}.

(* ================================================================== *)
(** ** MD5 ([hashlib.md5], RFC 1321) *)

Module MD5.

Definition mask32 (x : Z) : Z := Z.land x 0xFFFFFFFF.

Definition rotl32 (x : Z) (n : Z) : Z :=
  mask32 (Z.lor (Z.shiftl x n) (Z.shiftr (mask32 x) (32 - n))).

Definition not32 (x : Z) : Z := Z.lxor (mask32 x) 0xFFFFFFFF.

Definition shifts : list Z :=
  [7; 12; 17; 22; 7; 12; 17; 22; 7; 12; 17; 22; 7; 12; 17; 22;
   5; 9; 14; 20; 5; 9; 14; 20; 5; 9; 14; 20; 5; 9; 14; 20;
   4; 11; 16; 23; 4; 11; 16; 23; 4; 11; 16; 23; 4; 11; 16; 23;
   6; 10; 15; 21; 6; 10; 15; 21; 6; 10; 15; 21; 6; 10; 15; 21].

Definition sines : list Z :=
  [0xd76aa478; 0xe8c7b756; 0x242070db; 0xc1bdceee;
   0xf57c0faf; 0x4787c62a; 0xa8304613; 0xfd469501;
   0x698098d8; 0x8b44f7af; 0xffff5bb1; 0x895cd7be;
   0x6b901122; 0xfd987193; 0xa679438e; 0x49b40821;
   0xf61e2562; 0xc040b340; 0x265e5a51; 0xe9b6c7aa;
   0xd62f105d; 0x02441453; 0xd8a1e681; 0xe7d3fbc8;
   0x21e1cde6; 0xc33707d6; 0xf4d50d87; 0x455a14ed;
   0xa9e3e905; 0xfcefa3f8; 0x676f02d9; 0x8d2a4c8a;
   0xfffa3942; 0x8771f681; 0x6d9d6122; 0xfde5380c;
   0xa4beea44; 0x4bdecfa9; 0xf6bb4b60; 0xbebfbc70;
   0x289b7ec6; 0xeaa127fa; 0xd4ef3085; 0x04881d05;
   0xd9d4d039; 0xe6db99e5; 0x1fa27cf8; 0xc4ac5665;
   0xf4292244; 0x432aff97; 0xab9423a7; 0xfc93a039;
   0x655b59c3; 0x8f0ccc92; 0xffeff47d; 0x85845dd1;
   0x6fa87e4f; 0xfe2ce6e0; 0xa3014314; 0x4e0811a1;
   0xf7537e82; 0xbd3af235; 0x2ad7d2bb; 0xeb86d391].

(** The four chaining words A, B, C, D. *)
Definition state := (Z * Z * Z * Z)%type.

Definition init : state := (0x67452301, 0xefcdab89, 0x98badcfe, 0x10325476).

(** Little-endian bytes of a word, and back. *)
Fixpoint le_bytes (n : nat) (x : Z) : list Z :=
  match n with
  | O => []
  | S n' => Z.land x 0xFF :: le_bytes n' (Z.shiftr x 8)
  end.

Fixpoint le_word (bs : list Z) : Z :=
  match bs with
  | [] => 0
  | b :: bs' => Z.lor b (Z.shiftl (le_word bs') 8)
  end.

(** The sixteen words of a 64-byte block. *)
Fixpoint words (n : nat) (block : list Z) : list Z :=
  match n with
  | O => []
  | S n' => le_word (firstn 4 block) :: words n' (skipn 4 block)
  end.

(** One of the 64 operations on a block. *)
Definition step (M : list Z) (st : state) (i : Z) : state :=
  let '(A, B, C, D) := st in
  let '(F, g) :=
    if i <? 16 then (Z.lor (Z.land B C) (Z.land (not32 B) D), i)
    else if i <? 32 then
      (Z.lor (Z.land D B) (Z.land (not32 D) C), (5 * i + 1) mod 16)
    else if i <? 48 then (Z.lxor B (Z.lxor C D), (3 * i + 5) mod 16)
    else (Z.lxor C (Z.lor B (not32 D)), (7 * i) mod 16) in
  let F' := mask32 (F + A + nth (Z.to_nat i) sines 0
                    + nth (Z.to_nat g) M 0) in
  (D, mask32 (B + rotl32 F' (nth (Z.to_nat i) shifts 0)), B, C).

Definition rounds : list Z := map Z.of_nat (seq 0 64).

Definition compress (st : state) (block : list Z) : state :=
  let M := words 16 block in
  let '(A, B, C, D) := fold_left (step M) rounds st in
  let '(a0, b0, c0, d0) := st in
  (mask32 (a0 + A), mask32 (b0 + B), mask32 (c0 + C), mask32 (d0 + D)).

(** Padding: a one bit, zeros up to 56 modulo 64, the bit length. *)
Definition pad (msg : list Z) : list Z :=
  let len := Z.of_nat (length msg) in
  let zeros := Z.to_nat ((55 - len) mod 64) in
  msg ++ [0x80] ++ repeat 0 zeros ++ le_bytes 8 (Z.land (8 * len) (2 ^ 64 - 1)).

Fixpoint blocks (n : nat) (st : state) (bs : list Z) : state :=
  match n with
  | O => st
  | S n' => blocks n' (compress st (firstn 64 bs)) (skipn 64 bs)
  end.

Definition digest (msg : list Z) : list Z :=
  let padded := pad msg in
  let '(A, B, C, D) := blocks (length padded / 64) init padded in
  le_bytes 4 A ++ le_bytes 4 B ++ le_bytes 4 C ++ le_bytes 4 D.

Definition hex_digit (d : Z) : Z := if d <? 10 then 0x30 + d else 0x57 + d.

(** [hashlib.md5(msg).hexdigest()]: 32 lowercase hexadecimal digits. *)
Definition hexdigest (msg : list Z) : str :=
  flat_map (fun b => [hex_digit (Z.shiftr b 4); hex_digit (Z.land b 0xF)])
           (digest msg).

End MD5.

(* ================================================================== *)
(** ** CSV cells *)

(** A scalar read by [pandas.read_csv]: a missing value ([NaN]), a
    text, an integer or a float.  A column read from a file holds
    integers only, or floats and missing values, or texts and missing
    values; Boolean and date cells are not modelled. *)
Inductive value :=
| VNaN
| VStr (s : str)
| VInt (z : Z)
| VFloat (f : Float.t).

(** [pd.isna(v)]. *)
Definition isna (v : value) : bool :=
  match v with VNaN => true | _ => false end.

(** [str(v)]. *)
Definition to_str (v : value) : str :=
  match v with
  | VNaN => lit "nan"
  | VStr s => s
  | VInt z => Py.str_of_int z
  | VFloat f => Float.to_str f
  end.

Definition value_eqb (a b : value) : bool :=
  match a, b with
  | VNaN, VNaN => true
  | VStr s, VStr t => Py.str_eqb s t
  | VInt x, VInt y => x =? y
  | VFloat f, VFloat g => Float.eqb f g
  | _, _ => false
  end.

(** [hashlib.md5(s.encode('utf-8')).hexdigest()]; [None] when the
    encoding raises. *)
Definition md5_hex (s : str) : option str :=
  option_map MD5.hexdigest (Py.encode_utf8 s).

(* ================================================================== *)
(** ** ETL_charts/charts_cleaning_2.py *)

Module Charts2.
Section WithUnicode.
Context `{UnicodeDB}.

(** The characters [re.sub(r'[^a-z0-9\s]', '', text)] keeps. *)
Definition kept_char (c : Z) : bool :=
  Py.in_range 0x61 0x7A c || Py.in_range 0x30 0x39 c || Py.isspace c.

Definition normalize_text (text : value) : str :=
  if isna text then []
  else
    let text := lower (to_str text) in
    let text := filter kept_char text in
    Py.join (lit " ") (Py.split text).

Definition generate_song_id (song artist : value) : option str :=
  let normalized_song := normalize_text song in
  let normalized_artist := normalize_text artist in
  let combined := normalized_song ++ lit "|" ++ normalized_artist in
  md5_hex combined.

Definition extract_main_artist (artist : value) : str :=
  if isna artist then []
  else
    let artist_str := to_str artist in
    Py.strip (hd [] (Py.split_on 0x2D artist_str)).

End WithUnicode.
End Charts2.

(* ================================================================== *)
(** ** ETL_tracks/tracks_cleaning_2.py *)

Module Tracks2.
Section WithUnicode.
Context `{UnicodeDB}.

Definition normalize_text (text : value) : str :=
  if isna text then []
  else
    let text := lower (to_str text) in
    let text := nfd text in
    let text := filter (fun char => negb (is_Mn char)) text in
    (* re.sub(r'[^\w\s]', '', text) *)
    let text := filter (fun c => is_word c || Py.isspace c) text in
    let text := Py.join (lit " ") (Py.split text) in
    Py.strip text.

Definition generate_song_id (song artist : value) : option str :=
  let normalized_song := normalize_text song in
  let normalized_artist := normalize_text artist in
  let combined := normalized_song ++ lit "|" ++ normalized_artist in
  md5_hex combined.

End WithUnicode.
End Tracks2.

(* ================================================================== *)
(** ** ETL_charts/charts_cleaning_1.py: the song identifier *)

Module Charts1Key.
Section WithUnicode.
Context `{UnicodeDB}.

(** The result is a cell of the new column: [VNaN] stands for the
    [None] the function returns on a missing field; the outer [None]
    is an exception. *)
Definition generate_song_id (song artist : value) : option value :=
  if isna song || isna artist then Some VNaN
  else
    let normalized :=
      Py.strip (lower (to_str song)) ++ lit "_"
      ++ Py.strip (lower (to_str artist)) in
    option_map (fun h => VStr (Py.take 10 h)) (md5_hex normalized).

End WithUnicode.
End Charts1Key.

(* ================================================================== *)
(** ** ETL_artists/artists_cleaning_1.py *)

Module Artists1.
Section WithUnicode.
Context `{UnicodeDB}.

(** [[artist.strip() for artist in str(artists_str).split(',')]],
    the comprehension that splits a cell of collaborating artists. *)
Definition split_artists (artists_str : value) : list str :=
  map Py.strip (Py.split_on 0x2C (to_str artists_str)).

Definition generate_artist_id (artist_name : str) : option str :=
  let normalized_name := lower (Py.strip artist_name) in
  md5_hex normalized_name.

(** The dictionary [artist_to_id], in insertion order. *)
Definition dict := list (str * str).

Fixpoint dict_get (d : dict) (k : str) : option str :=
  match d with
  | [] => None
  | (k', v) :: d' => if Py.str_eqb k' k then Some v else dict_get d' k
  end.

Definition get_artist_ids (artist_to_id : dict) (artists_str : value)
  : value :=
  if isna artists_str then VNaN
  else
    let artists := split_artists artists_str in
    let ids :=
      flat_map (fun artist =>
                  match dict_get artist_to_id artist with
                  | Some id => [id]
                  | None => []
                  end) artists in
    match ids with
    | [] => VNaN
    | _ => VStr (Py.join (lit ",") ids)
    end.

End WithUnicode.
End Artists1.

(* ================================================================== *)
(** ** ETL_charts/charts_cleaning_3.py *)

Module Charts3.

(** Reading in text mode translates every line ending to a line feed. *)
Fixpoint translate_newlines (s : str) : str :=
  match s with
  | [] => []
  | c :: s' =>
      if c =? 0x0D then
        match s' with
        | d :: s'' => if d =? 0x0A then 0x0A :: translate_newlines s''
                      else 0x0A :: translate_newlines s'
        | [] => [0x0A]
        end
      else c :: translate_newlines s'
  end.

(** [file.readlines()]: the lines, each with its line feed; the last
    one has none when the file does not end with one. *)
Fixpoint readlines_from (cur : str) (s : str) : list str :=
  match s with
  | [] => match cur with [] => [] | _ => [rev cur] end
  | c :: s' =>
      if c =? 0x0A then rev (c :: cur) :: readlines_from [] s'
      else readlines_from (c :: cur) s'
  end.

Definition readlines (content : str) : list str :=
  readlines_from [] (translate_newlines content).

(** The characters of [rstrip('\n\r')]. *)
Definition newline_char (c : Z) : bool := (c =? 0x0A) || (c =? 0x0D).

(** The body of the loop, for the line at index [i]. *)
Definition process_line (i : nat) (line : str) : str :=
  match i with
  | O => line
  | _ =>
      let line := Py.rstrip_by newline_char line in
      let line :=
        if Py.endswith line (lit ".0") then Py.drop_last 2 line else line in
      line ++ [0x0A]
  end.

Fixpoint enumerate_from {A} (i : nat) (l : list A) : list (nat * A) :=
  match l with
  | [] => []
  | x :: l' => (i, x) :: enumerate_from (S i) l'
  end.

Definition processed_lines (lines : list str) : list str :=
  map (fun '(i, line) => process_line i line) (enumerate_from 0 lines).

(** The script, from the text of [charts_processed.csv] to the text
    of [final_charts.csv]. *)
Definition run (content : str) : str :=
  concat (processed_lines (readlines content)).

End Charts3.

(* ================================================================== *)
(** ** Tables *)

(** A row, as the [Series] that [iterrows] and [apply(axis=1)] hand to
    the scripts: the column labels with their values, in column order. *)
Definition row := list (string * value).

(** A [DataFrame]: its column labels and its rows. *)
Record DataFrame := {
  columns : list string;
  rows : list row
}.

(** Every row carries exactly the frame's columns, which are distinct
    (as [read_csv] makes them). *)
Definition wf (df : DataFrame) : Prop :=
  NoDup (columns df) /\ Forall (fun r => map fst r = columns df) (rows df).

(** What a script leaves behind: the table written to the output file,
    if any, and the table returned to the caller ([None] for the
    Python [None]). *)
Record outcome := {
  written : option DataFrame;
  returned : option DataFrame
}.

Definition failed : outcome := {| written := None; returned := None |}.

Definition bind {A B} (x : option A) (k : A -> option B) : option B :=
  match x with Some a => k a | None => None end.

Notation "x <- e ;; k" := (bind e (fun x => k))
  (at level 61, e at next level, right associativity).

Module DF.

Definition mem (c : string) (cs : list string) : bool :=
  existsb (String.eqb c) cs.

(** [r[c]]; [None] is a [KeyError]. *)
Fixpoint get (r : row) (c : string) : option value :=
  match r with
  | [] => None
  | (k, v) :: r' => if String.eqb k c then Some v else get r' c
  end.

(** [r[c] = v]: overwrite the label, or add it at the end. *)
Fixpoint set (r : row) (c : string) (v : value) : row :=
  match r with
  | [] => [(c, v)]
  | (k, w) :: r' =>
      if String.eqb k c then (k, v) :: r' else (k, w) :: set r' c v
  end.

Definition del (c : string) (r : row) : row :=
  filter (fun kv => negb (String.eqb (fst kv) c)) r.

Fixpoint traverse {A B} (f : A -> option B) (l : list A)
  : option (list B) :=
  match l with
  | [] => Some []
  | x :: l' => y <- f x ;; ys <- traverse f l' ;; Some (y :: ys)
  end.

(** [r[cs]] for a list of labels. *)
Definition select (cs : list string) (r : row) : option row :=
  traverse (fun c => v <- get r c ;; Some (c, v)) cs.

Definition has_col (df : DataFrame) (c : string) : bool :=
  mem c (columns df).

(** [df.drop(c, axis=1)] for a column that exists. *)
Definition drop (df : DataFrame) (c : string) : DataFrame :=
  {| columns := filter (fun k => negb (String.eqb k c)) (columns df);
     rows := map (del c) (rows df) |}.

(** [df[c]], the values of a column. *)
Definition column (df : DataFrame) (c : string) : option (list value) :=
  if has_col df c then traverse (fun r => get r c) (rows df) else None.

(** [df[c] = vals], one value per row. *)
Definition assign (df : DataFrame) (c : string) (vals : list value)
  : DataFrame :=
  {| columns := if has_col df c then columns df else columns df ++ [c];
     rows := map (fun rv => set (fst rv) c (snd rv))
                 (combine (rows df) vals) |}.

(** [df[cs]] for a list of labels. *)
Definition reindex (df : DataFrame) (cs : list string)
  : option DataFrame :=
  if forallb (has_col df) cs then
    rs <- traverse (select cs) (rows df) ;;
    Some {| columns := cs; rows := rs |}
  else None.

Fixpoint key_eqb (a b : list value) : bool :=
  match a, b with
  | [], [] => true
  | x :: a', y :: b' => value_eqb x y && key_eqb a' b'
  | _, _ => false
  end.

(** The mask of [duplicated(keep='first')] over the rows' keys:
    [true] for a key already seen. *)
Fixpoint duplicated_from (seen : list (list value))
         (keys : list (list value)) : list bool :=
  match keys with
  | [] => []
  | k :: ks =>
      if existsb (key_eqb k) seen then true :: duplicated_from seen ks
      else false :: duplicated_from (k :: seen) ks
  end.

(** [df.duplicated(subset=subset, keep='first')]. *)
Definition duplicated (df : DataFrame) (subset : list string)
  : option (list bool) :=
  if forallb (has_col df) subset then
    keys <- traverse (fun r => traverse (get r) subset) (rows df) ;;
    Some (duplicated_from [] keys)
  else None.

(** [l[mask]]: the elements where the mask holds. *)
Fixpoint where_ {A} (mask : list bool) (l : list A) : list A :=
  match mask, l with
  | b :: mask', x :: l' =>
      if b then x :: where_ mask' l' else where_ mask' l'
  | _, _ => []
  end.

(** [df[mask]]. *)
Definition filter_rows (df : DataFrame) (mask : list bool) : DataFrame :=
  {| columns := columns df; rows := where_ mask (rows df) |}.

(** [r.reindex(cs)]: the labels [cs], [NaN] where [r] has none. *)
Definition reindex_fill (cs : list string) (r : row) : row :=
  map (fun c => (c, match get r c with Some v => v | None => VNaN end)) cs.

(** The type of a column. *)
Inductive dtype := Int64 | Float64 | Object.

Definition is_text (v : value) : bool :=
  match v with VStr _ => true | _ => false end.

Definition is_int (v : value) : bool :=
  match v with VInt _ => true | _ => false end.

(** The type pandas infers for these cells: [object] with a text (and
    without any cell), [int64] for integers only, [float64] for
    numbers with a float or a missing value among them. *)
Definition dtype_of (cells : list value) : dtype :=
  match cells with
  | [] => Object
  | _ =>
      if existsb is_text cells then Object
      else if forallb is_int cells then Int64
      else Float64
  end.

(** A cell cast to [float64]. *)
Definition as_float (v : value) : value :=
  match v with
  | VInt z => VFloat (Float.of_int z)
  | _ => v
  end.

(** The common type of the columns of a frame read from a file. *)
Definition common_dtype (df : DataFrame) : dtype :=
  dtype_of (flat_map (map snd) (rows df)).

(** A row as [iterrows] and [apply(axis=1)] hand it over: a [Series]
    of the common type of the columns, so that in a frame of numbers
    with a float column the integers arrive as floats. *)
Definition row_values (df : DataFrame) (r : row) : row :=
  match common_dtype df with
  | Float64 => map (fun kv => (fst kv, as_float (snd kv))) r
  | _ => r
  end.

(** The cells of a label in a list of rows. *)
Definition cells_of (rs : list row) (c : string) : list value :=
  map (fun r => match get r c with Some v => v | None => VNaN end) rs.

(** Rows put together as the columns of a frame: every column gets
    the type inferred for its cells, which casts the integers of a
    column to floats when the column also holds a float or a missing
    value, and no text. *)
Definition infer (rs : list row) : list row :=
  map (fun r =>
         map (fun kv =>
                (fst kv,
                 match dtype_of (cells_of rs (fst kv)) with
                 | Float64 => as_float (snd kv)
                 | _ => snd kv
                 end)) r) rs.

(** [pd.concat([a, b], ignore_index=True)]: the union of the columns
    in order of appearance, the rows of [a] and then of [b], every
    column in the common type of its two parts. *)
Definition concat (a b : DataFrame) : DataFrame :=
  let cs := columns a
            ++ filter (fun c => negb (mem c (columns a))) (columns b) in
  {| columns := cs;
     rows := infer (map (reindex_fill cs) (rows a ++ rows b)) |}.


(** [cols.remove(c)]: without the first occurrence of [c]. *)
Fixpoint remove_first (c : string) (cs : list string) : list string :=
  match cs with
  | [] => []
  | k :: cs' => if String.eqb k c then cs' else k :: remove_first c cs'
  end.

(** [df.drop(columns=cs)] for columns that exist. *)
Definition drop_columns (df : DataFrame) (cs : list string) : DataFrame :=
  {| columns := filter (fun k => negb (mem k cs)) (columns df);
     rows := map (filter (fun kv => negb (mem (fst kv) cs))) (rows df) |}.

End DF.

(* ================================================================== *)
(** ** ETL_tracks/tracks_cleaning_2.py: deduplication *)

Module Tracks2Dedup.
Section WithUnicode.
Context `{UnicodeDB}.

(** [remove_duplicates_and_generate_ids], after the file was read
    into [df].  A caught exception ends in [failed]. *)
Definition remove_duplicates_and_generate_ids
           (df : DataFrame) (song_column artist_column : string)
  : outcome :=
  let original_count := length (rows df) in
  if negb (DF.has_col df song_column) then failed
  else if negb (DF.has_col df artist_column) then failed
  else
    let result :=
      (* df.apply(lambda row: ..., axis=1) *)
      song_ids <- DF.traverse
                    (fun r => let row := DF.row_values df r in
                              song <- DF.get row song_column ;;
                              artist <- DF.get row artist_column ;;
                              id <- Tracks2.generate_song_id song artist ;;
                              Some (VStr id)) (rows df) ;;
      let df := DF.assign df "song_id" song_ids in
      songs <- DF.column df song_column ;;
      let df :=
        DF.assign df "normalized_song"
                  (map (fun v => VStr (Tracks2.normalize_text v)) songs) in
      artists <- DF.column df artist_column ;;
      let df :=
        DF.assign df "normalized_artist"
                  (map (fun v => VStr (Tracks2.normalize_text v)) artists) in
      duplicate_mask <-
        DF.duplicated df ["normalized_song"; "normalized_artist"]%string ;;
      let df_deduplicated := DF.filter_rows df (map negb duplicate_mask) in
      let df_deduplicated :=
        DF.drop (DF.drop df_deduplicated "normalized_song")
                "normalized_artist" in
      let cols :=
        "song_id"%string
        :: filter (fun col => negb (String.eqb col "song_id"))
                  (columns df_deduplicated) in
      df_deduplicated <- DF.reindex df_deduplicated cols ;;
      (* removed_count / original_count: ZeroDivisionError *)
      if (original_count =? 0)%nat then None else Some df_deduplicated in
    match result with
    | None => failed
    | Some out =>
        {| written := Some out;
           (* df_deduplicated[artist_column] in the final report *)
           returned := if DF.has_col out artist_column then Some out
                       else None |}
    end.

End WithUnicode.
End Tracks2Dedup.

(* ================================================================== *)
(** ** ETL_charts/charts_cleaning_2.py: the table transformation *)

Module Charts2Process.
Section WithUnicode.
Context `{UnicodeDB}.

Definition required_columns : list string := ["song"; "artist"]%string.

Definition process_charts_csv (df : DataFrame) : outcome :=
  let df := if DF.has_col df "song_id" then DF.drop df "song_id" else df in
  let missing_columns :=
    filter (fun col => negb (DF.has_col df col)) required_columns in
  match missing_columns with
  | _ :: _ => failed (* raise ValueError *)
  | [] =>
      let result :=
        artists <- DF.column df "artist" ;;
        let df :=
          DF.assign df "artist"
                    (map (fun a => VStr (Charts2.extract_main_artist a))
                         artists) in
        song_ids <- DF.traverse
                      (fun r => song <- DF.get r "song"%string ;;
                                artist <- DF.get r "artist"%string ;;
                                id <- Charts2.generate_song_id song artist ;;
                                Some (VStr id)) (rows df) ;;
        let df := DF.assign df "song_id" song_ids in
        let cols :=
          "song_id"%string
          :: filter (fun col => negb (String.eqb col "song_id"))
                    (columns df) in
        DF.reindex df cols in
      match result with
      | None => failed
      | Some out => {| written := Some out; returned := Some out |}
      end
  end.

End WithUnicode.
End Charts2Process.

(* ================================================================== *)
(** ** ETL_charts/charts_cleaning_1.py: the table transformation *)

Module Charts1Process.
Section WithUnicode.
Context `{UnicodeDB}.

(** The cell-wise rewriting of the artist column (a cascade of
    regular-expression substitutions), on which the handling of
    missing columns does not depend. *)
Variable clean_artist_name : value -> value.

Definition process_charts_csv (df : DataFrame) : outcome :=
  (* 1. Remove last-week column *)
  let df :=
    if DF.has_col df "last-week" then DF.drop df "last-week" else df in
  let result :=
    (* 2. Format artist column *)
    df <- (if DF.has_col df "artist" then
             artists <- DF.column df "artist" ;;
             Some (DF.assign df "artist" (map clean_artist_name artists))
           else Some df (* Warning: 'artist' column not found *)) ;;
    (* 3. Add song_id column *)
    df <- (if DF.has_col df "song" && DF.has_col df "artist" then
             song_ids <- DF.traverse
                           (fun r => song <- DF.get r "song"%string ;;
                                     artist <- DF.get r "artist"%string ;;
                                     Charts1Key.generate_song_id song artist)
                           (rows df) ;;
             Some (DF.assign df "song_id" song_ids)
           else Some df (* Warning: cannot generate song_id *)) ;;
    (* Reorder columns to put song_id at the beginning *)
    if DF.has_col df "song_id" then
      DF.reindex df ("song_id"%string
                     :: DF.remove_first "song_id" (columns df))
    else Some df in
  match result with
  | None => failed
  | Some out =>
      {| written := Some out;
         (* df[['song', 'artist', 'song_id']] in the final report *)
         returned :=
           if DF.has_col out "song_id"
              && negb (DF.has_col out "song" && DF.has_col out "artist")
           then None else Some out |}
  end.

End WithUnicode.
End Charts1Process.

(* ================================================================== *)
(** ** Comprehensive tracks dataset/merge_tracks_and_popularity.py *)

Module MergePopularity.


(** [new_row[track_col] = v] on the series [new_row], which is of
    type [float64] until a text is stored in it and of type [object]
    from then on (pandas 2): a [float64] series stores an integer as a
    float. *)
Definition store (new_row : row * bool) (track_col : string) (v : value)
  : row * bool :=
  let '(cells, is_object) := new_row in
  if is_object || DF.is_text v then (DF.set cells track_col v, true)
  else (DF.set cells track_col (DF.as_float v), false).



End MergePopularity.

(* ================================================================== *)
(** ** ETL_artists/artists_cleaning_2.py *)

Module Artists2.
Section WithUnicode.
Context `{UnicodeDB}.

(** The columns of artist.csv that [merge_artists] reads; the file is
    taken to have them, and none of the three columns that the join
    adds. *)
Record base_row := {
  b_artist_id : value;
  b_artist_name : value
}.


(** A row of the merged file, in the order of [ordered_cols]. *)
Record merged_row := {
  artist_id : value;
  artist_name : value;
  artist_genre : value;
  artist_img : value;
  country : value
}.


(** [df["artist_name"].str.strip().str.lower()] on one cell of a text
    column: the string methods give [NaN] for what is no string.  On a
    column without string methods the key is not built at all, see
    [merge_artists]. *)
Definition key (name : value) : option str :=
  match name with
  | VStr s => Some (lower (Py.strip s))
  | _ => None
  end.

(** Equality of index labels in a join; missing labels match each
    other. *)
Definition key_eqb (a b : option str) : bool :=
  match a, b with
  | Some x, Some y => Py.str_eqb x y
  | None, None => true
  | _, _ => false
  end.





(** The columns of a merged row that come from artist.csv. *)
Definition base_of (m : merged_row) : base_row :=
  {| b_artist_id := artist_id m; b_artist_name := artist_name m |}.






End WithUnicode.
End Artists2.

(* ================================================================== *)
(** ** Vocabulary of the properties *)

(** A lowercase ASCII letter, a digit or the space: the characters a
    canonical text may hold. *)
Definition canonical_char (c : Z) : bool :=
  Py.in_range 0x61 0x7A c || Py.in_range 0x30 0x39 c || (c =? 0x20).

(** Alphanumeric characters are code points that UTF-8 can encode
    (no lone surrogate is alphanumeric). *)
Definition alnum_encodable `{UnicodeDB} : Prop :=
  forall c, isalnum c = true -> Py.utf8_char c <> None.

(** The value of a row in a column it has. *)
Definition cell (r : row) (c : string) : value :=
  match DF.get r c with Some v => v | None => VNaN end.

(** The columns the deduplication creates. *)
Definition reserved (c : string) : bool :=
  DF.mem c ["song_id"; "normalized_song"; "normalized_artist"]%string.

(** The canonical pair of a row: normalised song, normalised artist. *)
Definition song_key `{UnicodeDB} (song_column artist_column : string)
           (r : row) : str * str :=
  (Tracks2.normalize_text (cell r song_column),
   Tracks2.normalize_text (cell r artist_column)).

(** A row as the deduplication writes it: the identifier first,
    generated from the row as [apply(axis=1)] hands it over, then the
    row's own columns. *)
Definition with_song_id `{UnicodeDB} (df : DataFrame)
           (song_column artist_column : string) (r : row) : row :=
  let row := DF.row_values df r in
  ("song_id"%string,
   match Tracks2.generate_song_id (cell row song_column)
                                  (cell row artist_column) with
   | Some id => VStr id
   | None => VNaN
   end)
  :: filter (fun kv => negb (reserved (fst kv))) r.

(** [retained key rs kept]: [kept] is what a single pass over [rs] in
    order retains when it keeps a row exactly if no earlier row has
    its key. *)
Inductive retained {K} (key : row -> K) : list row -> list row -> Prop :=
| retained_nil : retained key [] []
| retained_first pre kept r :
    retained key pre kept ->
    (forall e, In e pre -> key e <> key r) ->
    retained key (pre ++ [r]) (kept ++ [r])
| retained_later pre kept r :
    retained key pre kept ->
    (exists e, In e pre /\ key e = key r) ->
    retained key (pre ++ [r]) kept.

(** Example table of the deduplication: rows A, B and A', where A'
    differs from A in case and spacing only. *)
Definition songs_example : DataFrame :=
  {| columns := ["name"; "artists"; "year"]%string;
     rows := [ [("name", VStr (lit "Song A")); ("artists", VStr (lit "X"));
                ("year", VInt 2001)]%string;
               [("name", VStr (lit "Song B")); ("artists", VStr (lit "Y"));
                ("year", VInt 2002)]%string;
               [("name", VStr (lit " song  a ")); ("artists", VStr (lit "x"));
                ("year", VInt 2003)]%string ] |}.

(** Example table of the charts scripts without its artist column. *)
Definition charts_without_artist : DataFrame :=
  {| columns := ["date"; "rank"; "song"]%string;
     rows := [ [("date", VStr (lit "2021-11-06")); ("rank", VInt 1);
                ("song", VStr (lit "Easy On Me"))]%string ] |}.

(** A chart without its artist column that still has the columns the
    first charts script removes or moves. *)
Definition charts_with_old_ids : DataFrame :=
  {| columns := ["rank"; "last-week"; "song"; "song_id"]%string;
     rows := [ [("rank", VInt 1); ("last-week", VInt 2);
                ("song", VStr (lit "Easy On Me"));
                ("song_id", VStr (lit "0a1b2c3d4e"))]%string ] |}.







(** The three spellings of the insensitivity property; the third is
    "éd shëeran" with U+00E9 and U+00EB. *)
Definition ed_sheeran : value := VStr (lit "Ed Sheeran").
Definition ed_sheeran_spaced : value := VStr (lit "  ED   SHEERAN  ").
Definition ed_sheeran_accented : value :=
  VStr ([0xE9] ++ lit "d sh" ++ [0xEB] ++ lit "eran").

(* ================================================================== *)
(** ** Vocabulary of further properties *)

(** A lowercase hexadecimal digit. *)
Definition hex_char (c : Z) : bool :=
  Py.in_range 0x30 0x39 c || Py.in_range 0x61 0x66 c.

(** No two whitespace characters follow each other. *)
Fixpoint single_spaced (s : str) : bool :=
  match s with
  | a :: (b :: _) as s' =>
      negb (Py.isspace a && Py.isspace b) && single_spaced s'
  | _ => true
  end.

(** A run of non-whitespace characters, as [split] returns them. *)
Definition token (w : str) : Prop :=
  w <> [] /\ Forall (fun c => Py.isspace c = false) w.

(** Lowercasing leaves lowercase ASCII letters, digits and spaces
    alone. *)
Definition lower_fixes_canonical `{UnicodeDB} : Prop :=
  forall s, forallb canonical_char s = true -> lower s = s.

(** Example chart table, with an old identifier column. *)
Definition charts_example : DataFrame :=
  {| columns := ["song_id"; "rank"; "song"; "artist"]%string;
     rows := [ [("song_id", VInt 17); ("rank", VInt 1);
                ("song", VStr (lit "Easy On Me"));
                ("artist", VStr (lit "Adele"))]%string;
               [("song_id", VInt 18); ("rank", VInt 2);
                ("song", VStr (lit "Cold Heart"));
                ("artist", VStr (lit "Elton John - Dua Lipa"))]%string ] |}.

(** The lines of a text file as [readlines] gives them: each holds one
    line feed, at its end; only the last line may have none, and is
    then not empty. *)
Inductive file_lines : list str -> Prop :=
| file_lines_nil : file_lines []
| file_lines_last l : l <> [] -> ~ In 0x0A l -> file_lines [l]
| file_lines_cons b ls :
    ~ In 0x0A b -> file_lines ls -> file_lines ((b ++ [0x0A]) :: ls).

(* ================================================================== *)
(** ** ETL_artists/artists_cleaning_3.py *)

Module Artists3.

(** [main], after the file was read: the table written. *)
Definition main (df : DataFrame) : DataFrame :=
  (* Silently ignore if the column is already missing *)
  if DF.has_col df "artist_img" then DF.drop df "artist_img" else df.

End Artists3.

(* ================================================================== *)
(** ** ETL_tracks/tracks_cleaning_4.py *)

Module Tracks4.

(** [remove_release_date_column], after the file was read: the table
    written, if any, and the value returned. *)
Definition remove_release_date_column (df : DataFrame)
  : option DataFrame * bool :=
  if negb (DF.has_col df "release_date") then (None, false)
  else
    let df_cleaned := DF.drop df "release_date" in
    (Some df_cleaned, true).

End Tracks4.

(* ================================================================== *)
(** ** ETL_tracks/tracks_cleaning_1.py *)

Module Tracks1.

(** An item of a list literal: a text, or something on which
    [.strip()] raises [AttributeError] (byte strings are not
    modelled). *)
Inductive literal :=
| LStr (s : str)
| LOther.

(** What [ast.literal_eval] does with a text that starts with a
    bracket: it gives a list, raises an error that the function
    catches ([ValueError], [SyntaxError]) or one that it does not
    ([TypeError], [MemoryError], [RecursionError]). *)
Inductive eval_outcome :=
| EvalList (items : list literal)
| EvalCaught
| EvalUncaught.

Section WithParser.

(** The parser of Python literals, which is not part of the
    repository. *)
Variable literal_eval : str -> eval_outcome.

Definition bracket (c : Z) : bool := (c =? 0x5B) || (c =? 0x5D).

(** The result is the new cell ([VNaN] for [None]); the outer [None]
    is an exception that leaves the function. *)
Definition extract_main_artist (artists_str : value) : option value :=
  if isna artists_str then Some VNaN
  else
    match artists_str with
    | VStr s =>
        if negb (Py.startswith s (lit "[")) then Some (VStr (Py.strip s))
        else
          match literal_eval s with
          | EvalList [] => Some VNaN
          | EvalList (LStr first :: _) => Some (VStr (Py.strip first))
          | EvalList (LOther :: _) => None
          | EvalUncaught => None
          | EvalCaught =>
              (* Fallback: try to extract manually *)
              if existsb (Z.eqb 0x5B) s then
                let cleaned :=
                  Py.remove_char 0x22
                    (Py.remove_char 0x27 (Py.strip_by bracket s)) in
                let first_artist :=
                  Py.strip (hd [] (Py.split_on 0x2C cleaned)) in
                match first_artist with
                | [] => Some VNaN
                | _ => Some (VStr first_artist)
                end
              else Some (VStr s)
          end
    | _ => Some (VStr (to_str artists_str))
    end.

Definition columns_to_remove : list string :=
  ["id"; "album_id"; "artist_ids"; "track_number"; "disc_number"]%string.

(** [process_music_csv], after the file was read. *)
Definition process_music_csv (df : DataFrame) : outcome :=
  let existing_columns_to_remove :=
    filter (DF.has_col df) columns_to_remove in
  let df :=
    match existing_columns_to_remove with
    | [] => df
    | _ => DF.drop_columns df existing_columns_to_remove
    end in
  let result :=
    if DF.has_col df "artists" then
      artists <- DF.column df "artists" ;;
      main_artists <- DF.traverse extract_main_artist artists ;;
      Some (DF.assign df "artists" main_artists)
    else Some df in
  match result with
  | None => failed
  | Some out => {| written := Some out; returned := Some out |}
  end.

End WithParser.
End Tracks1.

(** Example tracks table of the first tracks script. *)
Definition music_example : DataFrame :=
  {| columns := ["id"; "name"; "artists"; "track_number"]%string;
     rows := [ [("id", VStr (lit "t1")); ("name", VStr (lit "Hello"));
                ("artists", VStr (lit " Adele ")); ("track_number", VInt 1)
               ]%string;
               [("id", VStr (lit "t2")); ("name", VStr (lit "Intro"));
                ("artists", VNaN); ("track_number", VInt 2)]%string ] |}.

(* ================================================================== *)
(** ** ETL_artists/artists_cleaning_1.py: the tables *)

Module Artists1Process.
Section WithUnicode.
Context `{UnicodeDB}.

(** [a < b] on [str]: the order of the code points. *)
Fixpoint str_ltb (a b : str) : bool :=
  match a, b with
  | _, [] => false
  | [], _ :: _ => true
  | x :: a', y :: b' => (x <? y) || ((x =? y) && str_ltb a' b')
  end.

(** A [set] of texts, kept as a list without repetition. *)
Definition set_add (x : str) (s : list str) : list str :=
  if existsb (Py.str_eqb x) s then s else s ++ [x].

(** [s.update(xs)], which is also [s.union(xs)]. *)
Definition set_update (s : list str) (xs : list str) : list str :=
  fold_left (fun acc x => set_add x acc) xs s.

(** [sorted(xs)]. *)
Fixpoint insert (x : str) (l : list str) : list str :=
  match l with
  | [] => [x]
  | y :: l' => if str_ltb y x then y :: insert x l' else x :: l
  end.

Definition sorted (xs : list str) : list str := fold_right insert [] xs.

(** The loop over the cells of an artist column that are not
    missing. *)
Definition collect_artists (cells : list value) : list str :=
  fold_left
    (fun acc artists_str =>
       if isna artists_str then acc
       else set_update acc (Artists1.split_artists artists_str))
    cells [].

(** [process_csv_files], after both files were read: the tracks table,
    the charts table and the artists table it writes; [None] is an
    exception. *)
Definition process_csv_files (tracks_df charts_df : DataFrame)
  : option (DataFrame * DataFrame * DataFrame) :=
  tracks_cells <- DF.column tracks_df "artists" ;;
  charts_cells <- DF.column charts_df "artist" ;;
  let tracks_artists := collect_artists tracks_cells in
  let charts_artists := collect_artists charts_cells in
  let all_artists := sorted (set_update tracks_artists charts_artists) in
  ids <- DF.traverse Artists1.generate_artist_id all_artists ;;
  let artist_to_id := combine all_artists ids in
  let artists_df :=
    {| columns := ["artist_id"; "artist_name"]%string;
       rows := map (fun kv => [("artist_id"%string, VStr (snd kv));
                               ("artist_name"%string, VStr (fst kv))])
                   artist_to_id |} in
  let tracks_df :=
    DF.assign tracks_df "artist_id"
              (map (Artists1.get_artist_ids artist_to_id) tracks_cells) in
  let charts_df :=
    DF.assign charts_df "artist_id"
              (map (Artists1.get_artist_ids artist_to_id) charts_cells) in
  Some (tracks_df, charts_df, artists_df).

End WithUnicode.
End Artists1Process.

(** The artists named in the cells of a column. *)
Definition named_artists (cells : list value) : list str :=
  flat_map (fun v => if isna v then [] else Artists1.split_artists v) cells.

(** No later text is smaller than the one before it. *)
Fixpoint ascending (l : list str) : bool :=
  match l with
  | a :: (b :: _) as t => negb (Artists1Process.str_ltb b a) && ascending t
  | _ => true
  end.

(** Example tables of the artist identifiers. *)
Definition artists_tracks_example : DataFrame :=
  {| columns := ["name"; "artists"]%string;
     rows := [ [("name", VStr (lit "Cold Heart"));
                ("artists", VStr (lit "Elton John, Dua Lipa"))]%string;
               [("name", VStr (lit "Untitled")); ("artists", VNaN)]%string
             ] |}.

Definition artists_charts_example : DataFrame :=
  {| columns := ["song"; "artist"]%string;
     rows := [ [("song", VStr (lit "Hello"));
                ("artist", VStr (lit "Adele"))]%string ] |}.

(** The rows of [df'] are the rows of [df], each with an identifier
    cell computed from its cell [col]: missing where that cell is
    missing, and otherwise the identifiers of the artists named in it,
    one for each and in their order, joined by commas. *)
Definition ids_aligned `{UnicodeDB} (col : string) (df df' : DataFrame)
  : Prop :=
  length (rows df') = length (rows df)
  /\ forall i r,
       nth_error (rows df) i = Some r ->
       exists r',
         nth_error (rows df') i = Some r'
         /\ (forall c, c <> "artist_id"%string -> cell r' c = cell r c)
         /\ (if isna (cell r col) then cell r' "artist_id" = VNaN
             else exists ids,
                 cell r' "artist_id" = VStr (Py.join (lit ",") ids)
                 /\ map Artists1.generate_artist_id
                        (Artists1.split_artists (cell r col))
                    = map Some ids
                 /\ Py.split_on 0x2C (Py.join (lit ",") ids) = ids).

(* ================================================================== *)
(** ** Regular expressions, as the scripts use them

    Every pattern of the scripts is a sequence of one-character items,
    each with a quantifier, and matches no empty text. *)

Module Re.

Inductive quantifier := One | Opt | Star | Plus.

Definition item := ((Z -> bool) * quantifier)%type.
Definition pattern := list item.

(** A character that stands for itself. *)
Definition char (c : Z) : Z -> bool := fun d => d =? c.

(** A lowercase ASCII letter of a pattern under [re.IGNORECASE]: the
    letter in either case, and for [i] also U+0130 and U+0131. *)
Definition letter (c : Z) : Z -> bool :=
  fun d => (d =? c) || (d =? c - 32)
           || ((c =? 0x69) && ((d =? 0x130) || (d =? 0x131))).

(** A starred item followed by the rest of the pattern [k]: it takes
    as many characters as it can and gives them back one at a time
    while the rest of the pattern fails. *)
Fixpoint star (cls : Z -> bool) (k : str -> option str) (s : str)
  : option str :=
  match s with
  | c :: s' =>
      if cls c then
        match star cls k s' with
        | Some rest => Some rest
        | None => k s
        end
      else k s
  | [] => k s
  end.

(** The match of a pattern at the start of a text, as the backtracking
    matcher finds it.  The result is the text after the match. *)
Fixpoint match_here (p : pattern) : str -> option str :=
  match p with
  | [] => fun s => Some s
  | (cls, q) :: p' =>
      let k := match_here p' in
      match q with
      | One => fun s =>
          match s with
          | c :: s' => if cls c then k s' else None
          | [] => None
          end
      | Opt => fun s =>
          match s with
          | c :: s' =>
              if cls c then
                match k s' with
                | Some rest => Some rest
                | None => k s
                end
              else k s
          | [] => k s
          end
      | Star => star cls k
      | Plus => fun s =>
          match s with
          | c :: s' => if cls c then star cls k s' else None
          | [] => None
          end
      end
  end.

(** [re.sub(p, repl, s)]: the leftmost match is replaced and the
    search goes on after it.  A search visits each position at most
    once, so a budget of the length of the text is never used up. *)
Fixpoint sub_within (budget : nat) (p : pattern) (repl s : str) : str :=
  match budget with
  | O => s
  | S budget' =>
      match s with
      | [] => []
      | c :: s' =>
          match match_here p s with
          | Some rest => repl ++ sub_within budget' p repl rest
          | None => c :: sub_within budget' p repl s'
          end
      end
  end.

Definition sub (p : pattern) (repl s : str) : str :=
  sub_within (length s) p repl s.

End Re.

(* ================================================================== *)
(** ** ETL_charts/charts_cleaning_1.py: the artist names *)

Module Charts1Clean.

Definition spaces : Re.item := (Py.isspace, Re.Plus).

Definition letters (s : string) : Re.pattern :=
  map (fun c => (Re.letter c, Re.One)) (lit s).

(** The separators between collaborating artists. *)
Definition patterns : list Re.pattern :=
  [ (* \s+x\s+ *)
    spaces :: letters "x" ++ [spaces];
    (* \s+feat\.?\s+ *)
    spaces :: letters "feat" ++ [(Re.char 0x2E, Re.Opt); spaces];
    (* \s+featuring\s+ *)
    spaces :: letters "featuring" ++ [spaces];
    (* \s+&\s+ *)
    [spaces; (Re.char 0x26, Re.One); spaces];
    (* \s*,\s* *)
    [(Py.isspace, Re.Star); (Re.char 0x2C, Re.One); (Py.isspace, Re.Star)]
  ].

Definition clean_artist_name (artist : value) : value :=
  if isna artist then artist
  else
    (* Remove quotes *)
    let artist := Py.remove_char 0x27 (Py.remove_char 0x22 (to_str artist)) in
    (* Replace all patterns with " - " *)
    let artist :=
      fold_left (fun artist pattern => Re.sub pattern (lit " - ") artist)
                patterns artist in
    (* Clean up any multiple spaces and strip *)
    VStr (Py.strip (Re.sub [spaces] (lit " ") artist)).

End Charts1Clean.

(** The least number of characters a match takes. *)
Definition min_len (p : Re.pattern) : nat :=
  length (filter (fun i => match snd i with
                           | Re.One | Re.Plus => true
                           | _ => false
                           end) p).

(** A text that does not begin with whitespace. *)
Definition starts_clean (s : str) : Prop :=
  match s with [] => True | c :: _ => Py.isspace c = false end.

(** The tables on ASCII: decomposition leaves ASCII text alone, no
    ASCII character is a combining mark, and the alphanumeric ASCII
    characters are the digits and the letters. *)
Definition ascii_tables `{UnicodeDB} : Prop :=
  (forall s, Forall (fun c => 0 <= c < 0x80) s -> nfd s = s)
  /\ (forall c, 0 <= c < 0x80 -> is_Mn c = false)
  /\ (forall c, 0 <= c < 0x80 ->
                isalnum c = Py.in_range 0x30 0x39 c
                            || Py.in_range 0x41 0x5A c
                            || Py.in_range 0x61 0x7A c).

(** An ASCII character that is no uppercase letter and no underscore. *)
Definition plain_ascii (c : Z) : bool :=
  Py.in_range 0 0x7F c && negb (Py.in_range 0x41 0x5A c) && negb (c =? 0x5F).

(* ================================================================== *)
(** ** ETL_tracks/count_song.py *)

Module CountSong.

(** [Counter(xs)]: the number of occurrences of every text, in the
    order of first occurrence. *)
Fixpoint count_one (k : str) (d : list (str * Z)) : list (str * Z) :=
  match d with
  | [] => [(k, 1)]
  | (k', n) :: d' =>
      if Py.str_eqb k' k then (k', n + 1) :: d'
      else (k', n) :: count_one k d'
  end.

Definition Counter (xs : list str) : list (str * Z) :=
  fold_left (fun d k => count_one k d) xs [].

(** [series.unique()]: the distinct texts, in the order of first
    occurrence; [series.nunique()] is their number. *)
Definition unique (xs : list str) : list str :=
  fold_left (fun seen x =>
               if existsb (Py.str_eqb x) seen then seen else seen ++ [x])
            xs [].

(** The dictionary [analyze_song_ids] returns, without the three
    percentages (floating-point quotients of the counts). *)
Record results := {
  total_rows : Z;
  non_null_count : Z;
  null_count : Z;
  unique_count : Z;
  duplicate_count : Z;
  duplicated_ids : list (str * Z)
}.

(** [analyze_song_ids], after the file was read into [df]. *)
Definition analyze_song_ids (df : DataFrame) : option results :=
  if negb (DF.has_col df "song_id") then None
  else
    song_ids <- DF.column df "song_id" ;;
    let non_null_song_ids := filter (fun v => negb (isna v)) song_ids in
    let null_count :=
      Z.of_nat (length song_ids) - Z.of_nat (length non_null_song_ids) in
    let song_ids_str := map to_str non_null_song_ids in
    let total_song_ids := Z.of_nat (length song_ids) in
    let total_non_null := Z.of_nat (length non_null_song_ids) in
    let unique_song_ids := Z.of_nat (length (unique song_ids_str)) in
    let duplicate_count := total_non_null - unique_song_ids in
    let id_counts := Counter song_ids_str in
    let duplicated_ids := filter (fun kv => 1 <? snd kv) id_counts in
    Some {| total_rows := total_song_ids;
            non_null_count := total_non_null;
            null_count := null_count;
            unique_count := unique_song_ids;
            duplicate_count := duplicate_count;
            duplicated_ids :=
              if 0 <? duplicate_count then duplicated_ids else [] |}.

End CountSong.

(** The occurrences beyond the first, summed over the entries of a
    counter. *)
Definition surplus (d : list (str * Z)) : Z :=
  fold_right Z.add 0 (map (fun kv => snd kv - 1) d).

(** The number of occurrences of a text. *)
Definition occurrences (xs : list str) (k : str) : Z :=
  Z.of_nat (count_occ (list_eq_dec Z.eq_dec) xs k).

(** The identifiers [analyze_song_ids] counts: the cells of the
    song_id column that are not missing, as texts. *)
Definition counted_ids (df : DataFrame) : list str :=
  map to_str
      (filter (fun v => negb (isna v))
              (map (fun r => cell r "song_id") (rows df))).

(** Example table with a repeated identifier and a missing one. *)
Definition ids_example : DataFrame :=
  {| columns := ["song_id"; "name"]%string;
     rows := [ [("song_id", VStr (lit "a1")); ("name", VStr (lit "x"))]%string;
               [("song_id", VStr (lit "b2")); ("name", VStr (lit "y"))]%string;
               [("song_id", VNaN); ("name", VStr (lit "z"))]%string;
               [("song_id", VStr (lit "a1")); ("name", VStr (lit "x"))]%string;
               [("song_id", VStr (lit "a1")); ("name", VStr (lit "w"))]%string
             ] |}.

(** Example tables in which one artist is spelled in two ways. *)
Definition spelled_tracks_example : DataFrame :=
  {| columns := ["name"; "artists"]%string;
     rows := [ [("name", VStr (lit "Hello"));
                ("artists", VStr (lit "Adele"))]%string ] |}.

Definition spelled_charts_example : DataFrame :=
  {| columns := ["song"; "artist"]%string;
     rows := [ [("song", VStr (lit "Hello"));
                ("artist", VStr (lit "ADELE"))]%string ] |}.

(** A merged artists table, with its image column. *)
Definition artists_final_example : DataFrame :=
  {| columns := ["artist_id"; "artist_name"; "artist_genre"; "artist_img";
                 "country"]%string;
     rows := [ [("artist_id", VStr (lit "a1"));
                ("artist_name", VStr (lit "Adele"));
                ("artist_genre", VStr (lit "soul"));
                ("artist_img", VStr (lit "https://img.example/adele.jpg"));
                ("country", VStr (lit "UK"))]%string;
               [("artist_id", VStr (lit "a2"));
                ("artist_name", VStr (lit "Dua Lipa"));
                ("artist_genre", VStr (lit "pop"));
                ("artist_img", VNaN);
                ("country", VStr (lit "UK"))]%string ] |}.

(** A text without its accents: its canonical decomposition without
    the combining marks. *)
Definition unaccent `{UnicodeDB} (s : str) : str :=
  filter (fun char => negb (is_Mn char)) (nfd s).

Definition nonempty (w : str) : bool :=
  match w with
  | [] => false
  | _ => true
  end.

(** Lowercasing acts word by word. *)
Definition lower_word_wise `{UnicodeDB} : Prop :=
  forall s, Py.split (lower s) = map lower (Py.split s).

(** The removal of accents acts word by word; a word of combining
    marks only disappears. *)
Definition unaccent_word_wise `{UnicodeDB} : Prop :=
  forall s,
    Py.split (unaccent s) = filter nonempty (map unaccent (Py.split s)).

(** Lowercasing and the removal of accents commute. *)
Definition unaccent_lower `{UnicodeDB} : Prop :=
  forall s, unaccent (lower s) = lower (unaccent s).

(** The decomposition of a lowercased text holds no character that
    lowercasing changes. *)
Definition lower_stable `{UnicodeDB} : Prop :=
  forall s c, In c (nfd (lower s)) -> lower [c] = [c].

(** Two texts that the tracks key does not tell apart, as a song or as
    an artist, and the same for the charts key. *)
Definition same_tracks_key `{UnicodeDB} (s t : str) : Prop :=
  forall other,
    Tracks2.generate_song_id (VStr s) other
    = Tracks2.generate_song_id (VStr t) other
    /\ Tracks2.generate_song_id other (VStr s)
       = Tracks2.generate_song_id other (VStr t).

Definition same_charts_key `{UnicodeDB} (s t : str) : Prop :=
  forall other,
    Charts2.generate_song_id (VStr s) other
    = Charts2.generate_song_id (VStr t) other
    /\ Charts2.generate_song_id other (VStr s)
       = Charts2.generate_song_id other (VStr t).

(** The facts on one character from which the tables of [latin1_db]
    have these laws: whitespace is left alone and nothing else becomes
    whitespace, lowercasing commutes with the removal of accents, and
    the decomposition of a lowercased character is in lowercase. *)
Definition latin1_char_laws (c : Z) : bool :=
  let low := Latin1.lower_char c in
  let plain d :=
    filter (fun char => negb (Latin1.in_range 0x300 0x36F char))
           (Latin1.decompose d) in
  (if Py.isspace c then (low =? c) && Py.str_eqb (plain c) [c]
   else negb (Py.isspace low)
        && forallb (fun d => negb (Py.isspace d)) (plain c))
  && Py.str_eqb (plain low) (map Latin1.lower_char (plain c))
  && forallb (fun d => Latin1.lower_char d =? d) (Latin1.decompose low).

(* ================================================================== *)
(** ** Checks of the model against the runtime *)

Example md5_empty :
  MD5.hexdigest [] = lit "d41d8cd98f00b204e9800998ecf8427e".
Proof. vm_compute. reflexivity. Qed.

Example md5_abc :
  MD5.hexdigest (lit "abc") = lit "900150983cd24fb0d6963f7d28e17f72".
Proof. vm_compute. reflexivity. Qed.

Example md5_two_blocks :
  MD5.hexdigest (repeat 0x61 120) = lit "5f61c0ccad4cac44c75ff505e1f1e537".
Proof. vm_compute. reflexivity. Qed.

Example md5_56 :
  MD5.hexdigest (repeat 0x61 56) = lit "3b0c8ac703f828b04c6c197006d17218".
Proof. vm_compute. reflexivity. Qed.

(* ================================================================== *)
(** ** Characters of split, joined and stripped strings *)

Lemma split_from_chars (s tok w : str) (c : Z) :
  In w (Py.split_from tok s) -> In c w ->
  In c tok \/ (In c s /\ Py.isspace c = false).
Proof.
  revert tok. induction s as [|d s IH]; intros tok Hw Hc; simpl in Hw.
  - destruct tok; [contradiction|].
    destruct Hw as [<-|[]]. left. now apply in_rev.
  - destruct (Py.isspace d) eqn:Hd.
    + destruct tok as [|t tok].
      * destruct (IH [] Hw Hc) as [[]|[? ?]]. right. split; [now right|easy].
      * destruct Hw as [<-|Hw].
        -- left. now apply in_rev.
        -- destruct (IH [] Hw Hc) as [[]|[? ?]].
           right. split; [now right|easy].
    + destruct (IH (d :: tok) Hw Hc) as [[->|Ht]|[? ?]].
      * right. split; [now left|easy].
      * now left.
      * right. split; [now right|easy].
Qed.

Lemma split_chars (s w : str) (c : Z) :
  In w (Py.split s) -> In c w -> In c s /\ Py.isspace c = false.
Proof.
  intros Hw Hc. destruct (split_from_chars s [] w c Hw Hc) as [[]|?]; easy.
Qed.

Lemma join_chars (sep : str) (parts : list str) (c : Z) :
  In c (Py.join sep parts) ->
  In c sep \/ exists w, In w parts /\ In c w.
Proof.
  induction parts as [|w rest IH]; simpl; [easy|].
  destruct rest as [|w' rest'].
  - intros Hc. right. exists w. split; [now left|easy].
  - intros Hc. apply in_app_or in Hc. destruct Hc as [Hc|Hc].
    + right. exists w. split; [now left|easy].
    + apply in_app_or in Hc. destruct Hc as [Hc|Hc]; [now left|].
      destruct (IH Hc) as [?|[x [Hx Hcx]]]; [now left|].
      right. exists x. split; [now right|easy].
Qed.

Lemma dropwhile_incl (p : Z -> bool) (s : str) (c : Z) :
  In c (Py.dropwhile p s) -> In c s.
Proof.
  induction s as [|d s IH]; simpl; [easy|].
  destruct (p d); [intros; right; auto | easy].
Qed.

Lemma rstrip_by_incl (p : Z -> bool) (s : str) (c : Z) :
  In c (Py.rstrip_by p s) -> In c s.
Proof.
  unfold Py.rstrip_by. intros Hc. apply in_rev in Hc.
  apply dropwhile_incl in Hc. now apply in_rev.
Qed.

Lemma strip_incl (s : str) (c : Z) : In c (Py.strip s) -> In c s.
Proof.
  unfold Py.strip, Py.lstrip_by. intros Hc.
  apply rstrip_by_incl in Hc. now apply dropwhile_incl in Hc.
Qed.

(** ** Encoding *)

Lemma encode_utf8_total (s : str) :
  Forall (fun c => Py.utf8_char c <> None) s ->
  exists bs, Py.encode_utf8 s = Some bs.
Proof.
  induction 1 as [|c s Hc _ [bs IH]]; simpl; [now eexists|].
  destruct (Py.utf8_char c); [|easy]. rewrite IH. now eexists.
Qed.

Lemma md5_hex_total (s : str) :
  Forall (fun c => Py.utf8_char c <> None) s ->
  exists k, md5_hex s = Some k.
Proof.
  intros Hs. destruct (encode_utf8_total s Hs) as [bs Hbs].
  unfold md5_hex. rewrite Hbs. now eexists.
Qed.

Lemma canonical_char_encodable (c : Z) :
  canonical_char c = true -> Py.utf8_char c <> None.
Proof.
  unfold canonical_char, Py.in_range, Py.utf8_char. intros Hc.
  assert (0 <= c < 0x80) as [H0 H1] by lia.
  apply Z.ltb_ge in H0. apply Z.ltb_lt in H1. now rewrite H0, H1.
Qed.

Lemma latin1_alnum_encodable : @alnum_encodable latin1_db.
Proof.
  intros c. simpl. unfold Latin1.alnum, Latin1.in_range, Py.in_range,
    Py.utf8_char.
  intros Hc. assert (0 <= c < 0x800) as [H0 H1] by lia.
  apply Z.ltb_ge in H0. apply Z.ltb_lt in H1. rewrite H0, H1.
  destruct (c <? 128); easy.
Qed.

(** ** Characters of the normalised texts *)

Lemma charts2_normalize_canonical `{UnicodeDB} (text : value) (c : Z) :
  In c (Charts2.normalize_text text) -> canonical_char c = true.
Proof.
  unfold Charts2.normalize_text. destruct (isna text); [easy|].
  intros Hc. apply join_chars in Hc. destruct Hc as [Hc|[w [Hw Hc]]].
  - destruct Hc as [<-|[]]. reflexivity.
  - destruct (split_chars _ _ _ Hw Hc) as [Hin Hsp].
    apply filter_In in Hin. destruct Hin as [_ Hk].
    unfold Charts2.kept_char in Hk. rewrite Hsp in Hk.
    unfold canonical_char.
    now rewrite orb_false_r in Hk; rewrite Hk.
Qed.

Lemma tracks2_normalize_chars `{UnicodeDB} (text : value) (c : Z) :
  In c (Tracks2.normalize_text text) ->
  c = 0x20 \/ (is_word c = true /\ is_Mn c = false /\ Py.isspace c = false).
Proof.
  unfold Tracks2.normalize_text. destruct (isna text); [easy|].
  intros Hc. apply strip_incl in Hc. apply join_chars in Hc.
  destruct Hc as [Hc|[w [Hw Hc]]].
  - destruct Hc as [<-|[]]. now left.
  - right. destruct (split_chars _ _ _ Hw Hc) as [Hin Hsp].
    apply filter_In in Hin. destruct Hin as [Hin Hk].
    apply filter_In in Hin. destruct Hin as [_ Hm].
    rewrite Hsp, orb_false_r in Hk. apply negb_true_iff in Hm. easy.
Qed.

(* ================================================================== *)
(** ** Canonical keys *)

(** C3 — Key derivation is a congruence for normalisation, in both
    key generators: song identifiers are the MD5 digest of the
    normalised song and the normalised artist joined by '|', so fields
    that normalise alike at each position give the same identifier; in
    particular the identifier is a function of its fields. *)
Theorem generate_song_id_congruence `{UnicodeDB}
        (song1 artist1 song2 artist2 : value) :
  (Charts2.normalize_text song1 = Charts2.normalize_text song2 ->
   Charts2.normalize_text artist1 = Charts2.normalize_text artist2 ->
   Charts2.generate_song_id song1 artist1
   = Charts2.generate_song_id song2 artist2)
  /\ (Tracks2.normalize_text song1 = Tracks2.normalize_text song2 ->
      Tracks2.normalize_text artist1 = Tracks2.normalize_text artist2 ->
      Tracks2.generate_song_id song1 artist1
      = Tracks2.generate_song_id song2 artist2)
  /\ Charts2.generate_song_id song1 artist1
     = md5_hex (Py.join (lit "|") [Charts2.normalize_text song1;
                                   Charts2.normalize_text artist1])
  /\ Tracks2.generate_song_id song1 artist1
     = md5_hex (Py.join (lit "|") [Tracks2.normalize_text song1;
                                   Tracks2.normalize_text artist1]).
Proof.
  repeat split.
  - intros Hs Ha. unfold Charts2.generate_song_id. now rewrite Hs, Ha.
  - intros Hs Ha. unfold Tracks2.generate_song_id. now rewrite Hs, Ha.
Qed.

Lemma generate_song_id_congruence_witness :
  Charts2.generate_song_id (H := latin1_db) ed_sheeran (VStr (lit "X"))
  = Charts2.generate_song_id (H := latin1_db) ed_sheeran_spaced
                             (VStr (lit "x"))
  /\ Tracks2.generate_song_id (H := latin1_db) ed_sheeran (VStr (lit "X"))
     = Tracks2.generate_song_id (H := latin1_db) ed_sheeran_accented
                                (VStr (lit "x")).
Proof.
  split.
  - apply (proj1 (generate_song_id_congruence (H := latin1_db)
                    ed_sheeran (VStr (lit "X"))
                    ed_sheeran_spaced (VStr (lit "x")))); reflexivity.
  - apply (proj1 (proj2 (generate_song_id_congruence (H := latin1_db)
                    ed_sheeran (VStr (lit "X"))
                    ed_sheeran_accented (VStr (lit "x"))))); reflexivity.
Defined.

(** C4, as stated, fails for the tracks normalisation: the underscore
    of "a_b" and the letter U+00F8 survive it. *)
Lemma tracks2_normalize_not_canonical :
  forallb canonical_char
          (Tracks2.normalize_text (H := latin1_db) (VStr (lit "a_b"))) = false
  /\ Tracks2.normalize_text (H := latin1_db) (VStr (lit "a_b")) = lit "a_b"
  /\ Tracks2.normalize_text (H := latin1_db) (VStr [0xF8]) = [0xF8]
  /\ canonical_char 0xF8 = false.
Proof. repeat split. Qed.

(** C5, as stated, fails for the charts key: the accented spelling
    gets another identifier than the plain one. *)
Lemma charts2_key_accent_sensitive :
  Charts2.generate_song_id (H := latin1_db) ed_sheeran_accented VNaN
  <> Charts2.generate_song_id (H := latin1_db) ed_sheeran VNaN.
Proof. vm_compute. discriminate. Qed.

(** C7, as stated, fails for the first charts script: with a missing
    song the identifier is the null value, not a key. *)
Lemma charts1_null_song_id :
  Charts1Key.generate_song_id (H := latin1_db) VNaN (VStr (lit "Adele"))
  = Some VNaN
  /\ ~ (exists k, Charts1Key.generate_song_id (H := latin1_db)
                    VNaN (VStr (lit "Adele")) = Some (VStr k)).
Proof. split; [reflexivity|]. intros [k Hk]. discriminate Hk. Qed.

Lemma combined_encodable (a b : str) :
  Forall (fun c => Py.utf8_char c <> None) a ->
  Forall (fun c => Py.utf8_char c <> None) b ->
  Forall (fun c => Py.utf8_char c <> None) (a ++ lit "|" ++ b).
Proof.
  intros Ha Hb. apply Forall_app. split; [easy|].
  apply Forall_app. split; [|easy].
  constructor; [discriminate|constructor].
Qed.

Lemma charts2_generate_song_id_total `{UnicodeDB} (song artist : value) :
  exists k, Charts2.generate_song_id song artist = Some k.
Proof.
  apply md5_hex_total.
  apply combined_encodable; apply Forall_forall; intros c Hc;
    apply canonical_char_encodable;
    now apply charts2_normalize_canonical in Hc.
Qed.

Lemma tracks2_normalize_encodable `{UnicodeDB} (text : value) :
  alnum_encodable ->
  Forall (fun c => Py.utf8_char c <> None) (Tracks2.normalize_text text).
Proof.
  intros Henc. apply Forall_forall. intros c Hc.
  apply tracks2_normalize_chars in Hc.
  destruct Hc as [->|[Hw _]]; [discriminate|].
  unfold is_word in Hw. apply orb_true_iff in Hw.
  destruct Hw as [Hw|Hw]; [now apply Henc|].
  apply Z.eqb_eq in Hw. subst c. discriminate.
Qed.

Lemma tracks2_generate_song_id_total `{UnicodeDB} (song artist : value) :
  alnum_encodable ->
  exists k, Tracks2.generate_song_id song artist = Some k.
Proof.
  intros Henc. apply md5_hex_total.
  apply combined_encodable; now apply tracks2_normalize_encodable.
Qed.

(** C7, amended — In the second charts script and in the tracks
    script a missing field normalises to the empty string and the
    identifier is still produced: it is the digest of the joined text
    with nothing at the place of the missing field, and generation
    yields an identifier for all fields (in the tracks script because
    alphanumeric characters can be encoded).  The first charts script
    instead returns the null value as soon as the song or the artist
    is missing. *)
Theorem missing_field_key `{UnicodeDB} (song artist : value) :
  alnum_encodable ->
  (Charts2.normalize_text VNaN = [] /\ Tracks2.normalize_text VNaN = [])
  /\ (exists k, Charts2.generate_song_id song artist = Some k)
  /\ (exists k, Tracks2.generate_song_id song artist = Some k)
  /\ Charts2.generate_song_id VNaN artist
     = md5_hex (lit "|" ++ Charts2.normalize_text artist)
  /\ Charts2.generate_song_id song VNaN
     = md5_hex (Charts2.normalize_text song ++ lit "|")
  /\ Tracks2.generate_song_id VNaN artist
     = md5_hex (lit "|" ++ Tracks2.normalize_text artist)
  /\ Tracks2.generate_song_id song VNaN
     = md5_hex (Tracks2.normalize_text song ++ lit "|")
  /\ (isna song || isna artist = true ->
      Charts1Key.generate_song_id song artist = Some VNaN).
Proof.
  intros Henc. repeat split.
  - apply charts2_generate_song_id_total.
  - now apply tracks2_generate_song_id_total.
  - intros Hna. unfold Charts1Key.generate_song_id. now rewrite Hna.
Qed.

Lemma missing_field_key_witness :
  (exists k, Tracks2.generate_song_id (H := latin1_db)
               VNaN (VStr (lit "Adele")) = Some k)
  /\ Charts1Key.generate_song_id (H := latin1_db) VNaN (VStr (lit "Adele"))
     = Some VNaN.
Proof.
  pose proof (missing_field_key (H := latin1_db) VNaN (VStr (lit "Adele"))
                latin1_alnum_encodable) as W.
  split.
  - exact (proj1 (proj2 (proj2 W))).
  - apply (proj2 (proj2 (proj2 (proj2 (proj2 (proj2 (proj2 W))))))).
    reflexivity.
Defined.

(* ================================================================== *)
(** ** Stripping and splitting *)

Lemma dropwhile_idem (p : Z -> bool) (s : str) :
  Py.dropwhile p (Py.dropwhile p s) = Py.dropwhile p s.
Proof.
  induction s as [|c s IH]; simpl; [easy|].
  destruct (p c) eqn:Hc; [easy|]. simpl. now rewrite Hc.
Qed.

Lemma dropwhile_prefix (p : Z -> bool) (s : str) :
  exists pre, s = pre ++ Py.dropwhile p s /\ Forall (fun c => p c = true) pre.
Proof.
  induction s as [|c s [pre [IH HF]]]; simpl.
  - now exists [].
  - destruct (p c) eqn:Hc.
    + exists (c :: pre). split; [simpl; now f_equal | now constructor].
    + now exists [].
Qed.

Lemma dropwhile_head (p : Z -> bool) (s : str) :
  match Py.dropwhile p s with [] => True | c :: _ => p c = false end.
Proof.
  induction s as [|c s IH]; simpl; [easy|].
  destruct (p c) eqn:Hc; [easy|]. simpl. easy.
Qed.

Lemma dropwhile_snoc (p : Z -> bool) (l : str) (c : Z) :
  p c = false -> Py.dropwhile p (l ++ [c]) = Py.dropwhile p l ++ [c].
Proof.
  intros Hc. induction l as [|d l IH]; simpl; [now rewrite Hc|].
  now destruct (p d).
Qed.

Lemma rstrip_by_cons (p : Z -> bool) (c : Z) (s : str) :
  p c = false -> Py.rstrip_by p (c :: s) = c :: Py.rstrip_by p s.
Proof.
  intros Hc. unfold Py.rstrip_by. simpl.
  rewrite dropwhile_snoc by easy. now rewrite rev_app_distr.
Qed.

Lemma rstrip_by_idem (p : Z -> bool) (s : str) :
  Py.rstrip_by p (Py.rstrip_by p s) = Py.rstrip_by p s.
Proof.
  unfold Py.rstrip_by. now rewrite rev_involutive, dropwhile_idem.
Qed.

(** What [rstrip] leaves and what it removes. *)
Lemma rstrip_by_spec (p : Z -> bool) (s : str) :
  (exists nl, s = Py.rstrip_by p s ++ nl /\ Forall (fun c => p c = true) nl)
  /\ (Py.rstrip_by p s = [] \/ p (last (Py.rstrip_by p s) 0) = false).
Proof.
  unfold Py.rstrip_by. split.
  - destruct (dropwhile_prefix p (rev s)) as [pre [Hs HF]].
    exists (rev pre). split; [|now apply Forall_rev].
    rewrite <- rev_app_distr, <- Hs. now rewrite rev_involutive.
  - pose proof (dropwhile_head p (rev s)) as Hh.
    destruct (Py.dropwhile p (rev s)) as [|c D]; [now left|].
    right. simpl. now rewrite last_last.
Qed.

Lemma strip_idem (s : str) : Py.strip (Py.strip s) = Py.strip s.
Proof.
  unfold Py.strip, Py.lstrip_by.
  set (t := Py.dropwhile Py.isspace s).
  assert (Py.dropwhile Py.isspace (Py.rstrip_by Py.isspace t)
          = Py.rstrip_by Py.isspace t) as ->.
  { pose proof (dropwhile_head Py.isspace s) as Hh. fold t in Hh.
    destruct t as [|c t']; [reflexivity|].
    rewrite rstrip_by_cons by easy. simpl. now rewrite Hh. }
  apply rstrip_by_idem.
Qed.

Lemma split_on_from_length (sep : Z) (s tok : str) :
  length (Py.split_on_from sep tok s) = S (count_occ Z.eq_dec s sep).
Proof.
  revert tok. induction s as [|c s IH]; intros tok; simpl; [easy|].
  destruct (Z.eqb_spec c sep) as [->|Hne].
  - destruct (Z.eq_dec sep sep); [|easy]. simpl. now rewrite IH.
  - destruct (Z.eq_dec c sep); [easy|]. apply IH.
Qed.

Lemma split_on_from_no_sep (sep : Z) (s tok piece : str) :
  In piece (Py.split_on_from sep tok s) -> In sep piece -> In sep tok.
Proof.
  revert tok. induction s as [|c s IH]; intros tok; simpl.
  - intros [<-|[]] Hs. now apply in_rev.
  - destruct (Z.eqb_spec c sep) as [->|Hne].
    + intros [<-|Hp] Hs; [now apply in_rev|].
      destruct (IH [] Hp Hs).
    + intros Hp Hs. destruct (IH (c :: tok) Hp Hs) as [->|?]; easy.
Qed.

Lemma split_on_from_join (sep : Z) (s tok : str) :
  Py.join [sep] (Py.split_on_from sep tok s) = rev tok ++ s.
Proof.
  revert tok. induction s as [|c s IH]; intros tok; simpl.
  - now rewrite app_nil_r.
  - destruct (Z.eqb_spec c sep) as [->|Hne].
    + specialize (IH []). simpl in IH.
      destruct (Py.split_on_from sep [] s) as [|w ws] eqn:E.
      * apply (f_equal (@length str)) in E.
        rewrite split_on_from_length in E. discriminate.
      * change (Py.join [sep] (rev tok :: w :: ws))
          with (rev tok ++ [sep] ++ Py.join [sep] (w :: ws)).
        now rewrite IH.
    + rewrite IH. simpl. now rewrite <- app_assoc.
Qed.

(** C8, as stated, fails: an empty piece is kept, not dropped. *)
Lemma split_artists_keeps_empty :
  Artists1.split_artists (VStr (lit "A,,B")) = [lit "A"; []; lit "B"]
  /\ In [] (Artists1.split_artists (VStr (lit "A,,B"))).
Proof. split; [reflexivity|]. right. now left. Qed.

(** C8, amended — The splitting of an artist cell cuts the text at
    every comma (the only delimiter the script uses) and trims each
    piece; empty pieces are kept, so there is one piece more than
    there are commas.  No piece holds a comma or has whitespace
    around it, and the untrimmed pieces joined by commas give the text
    back.  "Dua Lipa, Elton John" yields "Dua Lipa" and "Elton John",
    "Solo Artist" yields itself. *)
Theorem split_artists_pieces (artists_str : value) :
  length (Artists1.split_artists artists_str)
  = S (count_occ Z.eq_dec (to_str artists_str) 0x2C)
  /\ (forall piece, In piece (Artists1.split_artists artists_str) ->
        ~ In 0x2C piece /\ Py.strip piece = piece)
  /\ Artists1.split_artists artists_str
     = map Py.strip (Py.split_on 0x2C (to_str artists_str))
  /\ Py.join (lit ",") (Py.split_on 0x2C (to_str artists_str))
     = to_str artists_str
  /\ Artists1.split_artists (VStr (lit "Dua Lipa, Elton John"))
     = [lit "Dua Lipa"; lit "Elton John"]
  /\ Artists1.split_artists (VStr (lit "Solo Artist")) = [lit "Solo Artist"].
Proof.
  unfold Artists1.split_artists, Py.split_on.
  split; [rewrite length_map; apply split_on_from_length|]. split.
  { intros piece Hp. apply in_map_iff in Hp. destruct Hp as [q [<- Hq]].
    split; [|apply strip_idem].
    intros Hc. apply strip_incl in Hc.
    now apply (split_on_from_no_sep _ _ _ _ Hq) in Hc. }
  split; [reflexivity|].
  split; [apply (split_on_from_join 0x2C (to_str artists_str) [])|].
  split; reflexivity.
Qed.

Lemma split_artists_pieces_witness :
  ~ In 0x2C (lit "Elton John")
  /\ Py.strip (lit "Elton John") = lit "Elton John".
Proof.
  apply (proj1 (proj2 (split_artists_pieces
                         (VStr (lit "Dua Lipa, Elton John"))))).
  right. now left.
Defined.

(* ================================================================== *)
(** ** The line filter of charts_cleaning_3 *)

Lemma str_eqb_eq (a b : str) : Py.str_eqb a b = true <-> a = b.
Proof.
  revert b. induction a as [|x a IH]; intros [|y b]; simpl; try easy.
  rewrite andb_true_iff, Z.eqb_eq, IH. split.
  - now intros [-> ->].
  - intros E. now inversion E.
Qed.

Lemma endswith_spec (s suffix : str) :
  Py.endswith s suffix = true <-> exists p, s = p ++ suffix.
Proof.
  unfold Py.endswith. rewrite andb_true_iff, str_eqb_eq, Nat.leb_le. split.
  - intros [E _]. exists (firstn (length s - length suffix) s).
    pose proof (firstn_skipn (length s - length suffix) s) as F.
    rewrite E in F. now symmetry.
  - intros [p ->]. rewrite length_app. split; [|lia].
    replace (length p + length suffix - length suffix)%nat
      with (length p + 0)%nat by lia.
    now rewrite skipn_app, Nat.add_0_r, skipn_all, Nat.sub_diag.
Qed.

Lemma drop_last_app (p suffix : str) :
  Py.drop_last (length suffix) (p ++ suffix) = p.
Proof.
  unfold Py.drop_last. rewrite length_app.
  replace (length p + length suffix - length suffix)%nat
    with (length p + 0)%nat by lia.
  now rewrite firstn_app_2, app_nil_r.
Qed.

Lemma nth_error_enumerate_from {A} (l : list A) (k i : nat) :
  nth_error (Charts3.enumerate_from k l) i
  = option_map (pair (k + i)%nat) (nth_error l i).
Proof.
  revert k i. induction l as [|x l IH]; intros k [|i]; simpl; try easy.
  - now rewrite Nat.add_0_r.
  - rewrite IH. now rewrite Nat.add_succ_r.
Qed.

Lemma nth_error_processed_lines (lines : list str) (i : nat) :
  nth_error (Charts3.processed_lines lines) i
  = option_map (Charts3.process_line i) (nth_error lines i).
Proof.
  unfold Charts3.processed_lines.
  rewrite nth_error_map, nth_error_enumerate_from.
  now destruct (nth_error lines i).
Qed.

(** C10 — The filter of charts_cleaning_3 works line by line: it
    keeps the number of lines and the first line, and for every later
    line, with [body] the line without its trailing line-feed and
    carriage-return characters, it writes [body] without its last two
    characters when [body] ends with ".0", and [body] itself
    otherwise, followed by a line feed; so a line that ended with one
    line feed and not with ".0" is written unchanged.  Only the end of
    the line is looked at. *)
Theorem strip_dot_zero_line_local (lines : list str) :
  length (Charts3.processed_lines lines) = length lines
  /\ nth_error (Charts3.processed_lines lines) 0 = nth_error lines 0
  /\ forall i line,
       i <> 0%nat -> nth_error lines i = Some line ->
       let body := Py.rstrip_by Charts3.newline_char line in
       (exists nl, line = body ++ nl
                   /\ Forall (fun c => Charts3.newline_char c = true) nl)
       /\ (body = [] \/ Charts3.newline_char (last body 0) = false)
       /\ ((exists p, body = p ++ lit ".0"
                      /\ nth_error (Charts3.processed_lines lines) i
                         = Some (p ++ [0x0A]))
           \/ ((forall p, body <> p ++ lit ".0")
               /\ nth_error (Charts3.processed_lines lines) i
                  = Some (body ++ [0x0A])))
       /\ (line = body ++ [0x0A] -> (forall p, body <> p ++ lit ".0") ->
           nth_error (Charts3.processed_lines lines) i = Some line).
Proof.
  split; [|split].
  - unfold Charts3.processed_lines. rewrite length_map.
    generalize 0%nat. induction lines as [|l ls IH]; intros k; simpl;
      [easy | now rewrite IH].
  - rewrite nth_error_processed_lines. now destruct lines.
  - intros i line Hi Hline body.
    destruct (rstrip_by_spec Charts3.newline_char line) as [Hnl Hlast].
    fold body in Hnl, Hlast.
    assert (nth_error (Charts3.processed_lines lines) i
            = Some ((if Py.endswith body (lit ".0")
                     then Py.drop_last 2 body else body) ++ [0x0A])) as Hout.
    { rewrite nth_error_processed_lines, Hline.
      destruct i; [easy|reflexivity]. }
    split; [exact Hnl|]. split; [exact Hlast|]. split.
    + destruct (Py.endswith body (lit ".0")) eqn:He.
      * apply endswith_spec in He. destruct He as [p Hp]. left. exists p.
        split; [exact Hp|]. rewrite Hout, Hp.
        pose proof (drop_last_app p (lit ".0")) as D.
        change (length (lit ".0")) with 2%nat in D. now rewrite D.
      * right. split; [|exact Hout]. intros p Hp.
        assert (Py.endswith body (lit ".0") = true) as He'
            by (apply endswith_spec; now exists p).
        congruence.
    + intros Hl Hno. rewrite Hout, Hl.
      destruct (Py.endswith body (lit ".0")) eqn:He; [|reflexivity].
      apply endswith_spec in He. destruct He as [p Hp]. now destruct (Hno p).
Qed.

Lemma strip_dot_zero_line_local_witness :
  nth_error (Charts3.processed_lines
               [lit "rank,score" ++ [0x0A]; lit "1,7.0" ++ [0x0A]]) 1
  = Some (lit "1,7" ++ [0x0A]).
Proof.
  destruct (proj2 (proj2 (strip_dot_zero_line_local
                            [lit "rank,score" ++ [0x0A];
                             lit "1,7.0" ++ [0x0A]]))
                  1%nat (lit "1,7.0" ++ [0x0A])
                  (fun E => O_S 0 (eq_sym E)) eq_refl)
    as (_ & _ & [(p & Hp & Hout)|(Hno & _)] & _).
  - assert (Py.rstrip_by Charts3.newline_char (lit "1,7.0" ++ [0x0A])
            = lit "1,7" ++ lit ".0") as E by reflexivity.
    rewrite E in Hp. apply app_inv_tail in Hp. now rewrite <- Hp in Hout.
  - destruct (Hno (lit "1,7")). reflexivity.
Defined.

(* ================================================================== *)
(** ** The left join of merge_artists *)


Section LeftJoin.
Context `{UnicodeDB}.












End LeftJoin.


(* ================================================================== *)
(** ** Rows and frames *)

Lemma mem_In (c : string) (cs : list string) :
  DF.mem c cs = true <-> In c cs.
Proof.
  unfold DF.mem. rewrite existsb_exists. split.
  - intros [k [Hk E]]. apply String.eqb_eq in E. now subst.
  - intros Hc. exists c. split; [easy | apply String.eqb_refl].
Qed.

Lemma mem_false (c : string) (cs : list string) :
  DF.mem c cs = false <-> ~ In c cs.
Proof.
  rewrite <- mem_In. destruct (DF.mem c cs); split; easy.
Qed.

Lemma get_set_same (r : row) (c : string) (v : value) :
  DF.get (DF.set r c v) c = Some v.
Proof.
  induction r as [|[k w] r IH]; simpl.
  - now rewrite String.eqb_refl.
  - destruct (String.eqb k c) eqn:E; simpl; now rewrite E.
Qed.

Lemma get_set_other (r : row) (c c' : string) (v : value) :
  c <> c' -> DF.get (DF.set r c v) c' = DF.get r c'.
Proof.
  intros Hne. induction r as [|[k w] r IH]; simpl.
  - apply String.eqb_neq in Hne. now rewrite Hne.
  - destruct (String.eqb k c) eqn:E; simpl.
    + apply String.eqb_eq in E. subst k.
      apply String.eqb_neq in Hne. now rewrite Hne.
    + now rewrite IH.
Qed.

Lemma map_fst_set (r : row) (c : string) (v : value) :
  In c (map fst r) -> map fst (DF.set r c v) = map fst r.
Proof.
  induction r as [|[k w] r IH]; simpl; [easy|].
  destruct (String.eqb k c) eqn:E; simpl; [easy|].
  intros [->|Hc]; [now rewrite String.eqb_refl in E | now rewrite IH].
Qed.

Lemma map_fst_set_new (r : row) (c : string) (v : value) :
  ~ In c (map fst r) -> map fst (DF.set r c v) = map fst r ++ [c].
Proof.
  induction r as [|[k w] r IH]; simpl; [easy|].
  intros Hn. destruct (String.eqb k c) eqn:E.
  - apply String.eqb_eq in E. destruct Hn. now left.
  - simpl. rewrite IH; [easy|]. intros Hc. apply Hn. now right.
Qed.

Lemma get_In (r : row) (c : string) :
  In c (map fst r) -> exists v, DF.get r c = Some v.
Proof.
  induction r as [|[k w] r IH]; simpl; [easy|].
  destruct (String.eqb k c) eqn:E; [now eexists|].
  intros [->|Hc]; [now rewrite String.eqb_refl in E | now apply IH].
Qed.

Lemma get_not_In (r : row) (c : string) :
  ~ In c (map fst r) -> DF.get r c = None.
Proof.
  induction r as [|[k w] r IH]; simpl; [easy|].
  intros Hn. destruct (String.eqb k c) eqn:E.
  - apply String.eqb_eq in E. destruct Hn. now left.
  - apply IH. intros Hc. apply Hn. now right.
Qed.


Lemma traverse_total {A B} (f : A -> option B) (l : list A) :
  (forall x, In x l -> exists y, f x = Some y) ->
  exists ys, DF.traverse f l = Some ys.
Proof.
  induction l as [|x l IH]; intros Hf; simpl; [now eexists|].
  destruct (Hf x (or_introl eq_refl)) as [y Hy]. rewrite Hy. simpl.
  destruct IH as [ys Hys]; [intros; apply Hf; now right|].
  rewrite Hys. simpl. now eexists.
Qed.

Lemma traverse_nth {A B} (f : A -> option B) (l : list A) (ys : list B) :
  DF.traverse f l = Some ys ->
  length ys = length l
  /\ forall i x, nth_error l i = Some x ->
       exists y, nth_error ys i = Some y /\ f x = Some y.
Proof.
  revert ys. induction l as [|x l IH]; intros ys; simpl.
  - intros [= <-]. split; [easy|]. now intros [|i].
  - destruct (f x) as [y|] eqn:Hy; [|easy]. simpl.
    destruct (DF.traverse f l) as [ys'|]; [|easy]. simpl.
    intros [= <-]. destruct (IH ys' eq_refl) as [Hl Hn].
    split; [simpl; now rewrite Hl|].
    intros [|i] x'; simpl.
    + intros [= <-]. now exists y.
    + apply Hn.
Qed.

Lemma traverse_map {A B} (f : A -> option B) (g : A -> B) (l : list A) :
  (forall x, In x l -> f x = Some (g x)) ->
  DF.traverse f l = Some (map g l).
Proof.
  induction l as [|x l IH]; intros Hf; simpl; [easy|].
  rewrite (Hf x (or_introl eq_refl)). simpl.
  rewrite IH by (intros; apply Hf; now right). reflexivity.
Qed.

(* ================================================================== *)
(** ** Appending the popularity rows *)


Lemma map_fst_cast (f : string -> value -> value) (r : row) :
  map fst (map (fun kv => (fst kv, f (fst kv) (snd kv))) r) = map fst r.
Proof. rewrite map_map. now apply map_ext. Qed.

Lemma get_cast (f : string -> value -> value) (r : row) (c : string) :
  DF.get (map (fun kv => (fst kv, f (fst kv) (snd kv))) r) c
  = option_map (f c) (DF.get r c).
Proof.
  induction r as [|[k w] r IH]; simpl; [reflexivity|].
  destruct (String.eqb k c) eqn:E; [|exact IH].
  apply String.eqb_eq in E. now subst.
Qed.

Lemma cell_cast (f : string -> value -> value) (r : row) (c : string) :
  In c (map fst r) ->
  cell (map (fun kv => (fst kv, f (fst kv) (snd kv))) r) c = f c (cell r c).
Proof.
  intros Hc. unfold cell. rewrite get_cast.
  destruct (get_In r c Hc) as [v ->]. reflexivity.
Qed.




Lemma row_values_spec (df : DataFrame) (r : row) :
  map fst (DF.row_values df r) = map fst r
  /\ forall c, In c (map fst r) ->
       cell (DF.row_values df r) c = cell r c
       \/ cell (DF.row_values df r) c = DF.as_float (cell r c).
Proof.
  unfold DF.row_values. destruct (DF.common_dtype df).
  - split; [reflexivity | now left].
  - split.
    + apply (map_fst_cast (fun _ v => DF.as_float v)).
    + intros c Hc. right.
      apply (cell_cast (fun _ v => DF.as_float v) r c Hc).
  - split; [reflexivity | now left].
Qed.

Section Merge.
Variables tracks_df popularity_df : DataFrame.
Variable pop_row : row.
Hypothesis pop_row_wf : map fst pop_row = columns popularity_df.

Let step (acc : option (row * bool)) (m : string * string)
  : option (row * bool) :=
  let '(pop_col, track_col) := m in
  new_row <- acc ;;
  if DF.has_col popularity_df pop_col && DF.has_col tracks_df track_col
  then v <- DF.get (DF.row_values popularity_df pop_row) pop_col ;;
       Some (MergePopularity.store new_row track_col v)
  else Some new_row.



End Merge.









(* ================================================================== *)
(** ** Frame operations on well-formed frames *)

Lemma get_cell (r : row) (c : string) :
  In c (map fst r) -> DF.get r c = Some (cell r c).
Proof.
  intros Hc. unfold cell. destruct (get_In r c Hc) as [v ->]. reflexivity.
Qed.

Lemma cell_set_same (r : row) (c : string) (v : value) :
  cell (DF.set r c v) c = v.
Proof. unfold cell. now rewrite get_set_same. Qed.

Lemma cell_set_other (r : row) (c c' : string) (v : value) :
  c <> c' -> cell (DF.set r c v) c' = cell r c'.
Proof. intros Hne. unfold cell. now rewrite get_set_other. Qed.

Lemma get_del_other (r : row) (c c' : string) :
  c <> c' -> DF.get (DF.del c r) c' = DF.get r c'.
Proof.
  intros Hne. unfold DF.del. induction r as [|[k w] r IH]; simpl; [easy|].
  destruct (String.eqb k c) eqn:E; simpl.
  - apply String.eqb_eq in E. subst k.
    apply String.eqb_neq in Hne. now rewrite Hne.
  - now rewrite IH.
Qed.

Lemma map_fst_del (c : string) (r : row) :
  map fst (DF.del c r) = filter (fun k => negb (String.eqb k c)) (map fst r).
Proof.
  unfold DF.del. induction r as [|[k w] r IH]; simpl; [easy|].
  destruct (String.eqb k c); simpl; now rewrite IH.
Qed.

Lemma In_set_labels (r : row) (c c' : string) (v : value) :
  In c' (map fst r) -> In c' (map fst (DF.set r c v)).
Proof.
  induction r as [|[k w] r IH]; simpl; [easy|].
  destruct (String.eqb k c); simpl; intuition.
Qed.

Lemma combine_map {A B} (g : A -> B) (l : list A) :
  combine l (map g l) = map (fun x => (x, g x)) l.
Proof. induction l as [|x l IH]; simpl; [easy | now rewrite IH]. Qed.

Lemma assign_rows_map (df : DataFrame) (c : string) (g : row -> value) :
  rows (DF.assign df c (map g (rows df)))
  = map (fun r => DF.set r c (g r)) (rows df).
Proof. simpl. now rewrite combine_map, map_map. Qed.

Lemma wf_assign (df : DataFrame) (c : string) (g : row -> value) :
  wf df -> wf (DF.assign df c (map g (rows df))).
Proof.
  intros [Hnd Hrows]. split.
  - simpl. unfold DF.has_col. destruct (DF.mem c (columns df)) eqn:E; [easy|].
    apply mem_false in E. apply NoDup_app; [easy | repeat constructor; easy |].
    intros x Hx [<-|[]]. easy.
  - rewrite assign_rows_map. apply Forall_map.
    apply (Forall_impl _ (P := fun r => map fst r = columns df)); [|easy].
    intros r Hr. simpl. unfold DF.has_col.
    destruct (DF.mem c (columns df)) eqn:E.
    + rewrite map_fst_set; [easy|]. rewrite Hr. now apply mem_In.
    + rewrite map_fst_set_new; [now rewrite Hr|].
      rewrite Hr. now apply mem_false.
Qed.

Lemma wf_drop (df : DataFrame) (c : string) : wf df -> wf (DF.drop df c).
Proof.
  intros [Hnd Hrows]. split; simpl.
  - now apply NoDup_filter.
  - apply Forall_map.
    apply (Forall_impl _ (P := fun r => map fst r = columns df)); [|easy].
    intros r Hr. now rewrite map_fst_del, Hr.
Qed.

Lemma has_col_assign_same (df : DataFrame) (c : string) (vals : list value) :
  DF.has_col (DF.assign df c vals) c = true.
Proof.
  unfold DF.has_col at 1. simpl. destruct (DF.has_col df c) eqn:E; [easy|].
  apply mem_In. apply in_or_app. right. now left.
Qed.

Lemma has_col_assign_keeps (df : DataFrame) (c c' : string)
      (vals : list value) :
  DF.has_col df c' = true -> DF.has_col (DF.assign df c vals) c' = true.
Proof.
  unfold DF.has_col at 2. simpl. intros Hc'.
  destruct (DF.has_col df c); [easy|].
  apply mem_In. apply in_or_app. left. now apply mem_In.
Qed.

Lemma has_col_assign_other (df : DataFrame) (c c' : string)
      (vals : list value) :
  c <> c' -> DF.has_col (DF.assign df c vals) c' = DF.has_col df c'.
Proof.
  intros Hne. unfold DF.has_col at 1. simpl.
  destruct (DF.has_col df c); [easy|].
  unfold DF.has_col, DF.mem. rewrite existsb_app. simpl.
  apply String.eqb_neq in Hne. rewrite String.eqb_sym in Hne.
  now rewrite Hne, !orb_false_r.
Qed.

Lemma has_col_drop_other (df : DataFrame) (c c' : string) :
  c <> c' -> DF.has_col (DF.drop df c) c' = DF.has_col df c'.
Proof.
  intros Hne. unfold DF.has_col. simpl.
  destruct (DF.mem c' (columns df)) eqn:E.
  - apply mem_In. apply filter_In. split; [now apply mem_In|].
    apply negb_true_iff. apply String.eqb_neq. congruence.
  - apply mem_false. apply mem_false in E. intros Hin.
    apply filter_In in Hin. now destruct Hin.
Qed.

Lemma column_cells (df : DataFrame) (c : string) :
  wf df -> DF.has_col df c = true ->
  DF.column df c = Some (map (fun r => cell r c) (rows df)).
Proof.
  intros [_ Hrows] Hc. unfold DF.column. rewrite Hc.
  apply traverse_map. intros r Hr. apply get_cell.
  rewrite (proj1 (Forall_forall _ _) Hrows r Hr). now apply mem_In.
Qed.

Lemma where_map {A B} (f : A -> B) (mask : list bool) (l : list A) :
  DF.where_ mask (map f l) = map f (DF.where_ mask l).
Proof.
  revert l. induction mask as [|b mask IH]; intros [|x l]; simpl; try easy.
  destruct b; simpl; now rewrite IH.
Qed.

Lemma where_incl {A} (mask : list bool) (l : list A) (x : A) :
  In x (DF.where_ mask l) -> In x l.
Proof.
  revert l. induction mask as [|b mask IH]; intros [|y l]; simpl; try easy.
  destruct b; simpl; intuition.
Qed.

Lemma forallb_has_col (df : DataFrame) (cs : list string) :
  incl cs (columns df) -> forallb (DF.has_col df) cs = true.
Proof.
  intros Hcs. apply forallb_forall. intros c Hc. apply mem_In. now apply Hcs.
Qed.

Lemma select_cells (cs : list string) (r : row) :
  incl cs (map fst r) ->
  DF.select cs r = Some (map (fun c => (c, cell r c)) cs).
Proof.
  intros Hcs. unfold DF.select. apply traverse_map. intros c Hc.
  rewrite get_cell by now apply Hcs. reflexivity.
Qed.

Lemma reindex_cells (df : DataFrame) (cs : list string) :
  wf df -> incl cs (columns df) ->
  DF.reindex df cs
  = Some {| columns := cs;
            rows := map (fun r => map (fun c => (c, cell r c)) cs)
                        (rows df) |}.
Proof.
  intros [_ Hrows] Hcs. unfold DF.reindex.
  rewrite forallb_has_col by easy.
  rewrite (traverse_map _ (fun r => map (fun c => (c, cell r c)) cs));
    [reflexivity|].
  intros r Hr. apply select_cells.
  now rewrite (proj1 (Forall_forall _ _) Hrows r Hr).
Qed.

Lemma cells_of_filter (p : string -> bool) (r : row) :
  NoDup (map fst r) ->
  map (fun c => (c, cell r c)) (filter p (map fst r))
  = filter (fun kv => p (fst kv)) r.
Proof.
  induction r as [|[k w] r IH]; simpl; [easy|].
  intros Hnd. inversion Hnd as [|? ? Hk Hnd']; subst.
  assert (map (fun c => (c, cell ((k, w) :: r) c)) (filter p (map fst r))
          = map (fun c => (c, cell r c)) (filter p (map fst r))) as E.
  { apply map_ext_in. intros c Hc. apply filter_In in Hc.
    destruct Hc as [Hc _]. unfold cell. simpl.
    destruct (String.eqb k c) eqn:Ek; [|easy].
    apply String.eqb_eq in Ek. now subst. }
  destruct (p k); simpl.
  - rewrite E, IH by easy. f_equal. unfold cell. simpl.
    now rewrite String.eqb_refl.
  - now rewrite E, IH.
Qed.

(* ================================================================== *)
(** ** Deduplication keeps first occurrences *)

Lemma float_eqb_eq (f g : Float.t) : Float.eqb f g = true <-> f = g.
Proof.
  destruct f as [n m e], g as [n' m' e']. unfold Float.eqb. simpl.
  rewrite !andb_true_iff, Bool.eqb_true_iff, !Z.eqb_eq. split.
  - now intros [[-> ->] ->].
  - now intros [= -> -> ->].
Qed.

Lemma value_eqb_eq (a b : value) : value_eqb a b = true <-> a = b.
Proof.
  destruct a, b; simpl; try easy.
  - rewrite str_eqb_eq. split; [now intros -> | now intros [= ->]].
  - rewrite Z.eqb_eq. split; [now intros -> | now intros [= ->]].
  - rewrite float_eqb_eq. split; [now intros -> | now intros [= ->]].
Qed.

Lemma key_eqb_eq (a b : list value) : DF.key_eqb a b = true <-> a = b.
Proof.
  revert b. induction a as [|x a IH]; intros [|y b]; simpl; try easy.
  rewrite andb_true_iff, value_eqb_eq, IH. split.
  - now intros [-> ->].
  - intros E. now inversion E.
Qed.

Lemma seen_In (k : list value) (seen : list (list value)) :
  existsb (DF.key_eqb k) seen = true <-> In k seen.
Proof.
  rewrite existsb_exists. split.
  - intros [x [Hx E]]. apply key_eqb_eq in E. now subst.
  - intros Hk. exists k. split; [easy | now apply key_eqb_eq].
Qed.

(** The mask of [duplicated] retains first occurrences: a pass that
    has seen the keys of [pre] continues over [rest]. *)
Lemma duplicated_retained {K} (key : row -> K) (kimpl : row -> list value) :
  (forall r r', kimpl r = kimpl r' <-> key r = key r') ->
  forall rest pre kept seen,
    retained key pre kept ->
    (forall k, In k seen <-> exists e, In e pre /\ kimpl e = k) ->
    retained key (pre ++ rest)
             (kept ++ DF.where_
                        (map negb (DF.duplicated_from seen (map kimpl rest)))
                        rest).
Proof.
  intros Hkey. induction rest as [|r rest IH]; intros pre kept seen Hret Hseen.
  - simpl. now rewrite !app_nil_r.
  - simpl. replace (pre ++ r :: rest) with ((pre ++ [r]) ++ rest)
      by now rewrite <- app_assoc.
    destruct (existsb (DF.key_eqb (kimpl r)) seen) eqn:E; simpl.
    + apply seen_In in E. apply Hseen in E. destruct E as [e [He Hk]].
      apply IH.
      * apply retained_later; [easy|]. exists e. split; [easy|].
        now apply Hkey.
      * intros k. rewrite Hseen. split.
        -- intros [x [Hx Hxk]]. exists x. split; [|easy].
           apply in_or_app. now left.
        -- intros [x [Hx Hxk]]. apply in_app_or in Hx.
           destruct Hx as [Hx|[<-|[]]]; [now exists x|].
           exists e. split; [easy | congruence].
    + replace (kept ++ r :: DF.where_
                 (map negb (DF.duplicated_from (kimpl r :: seen)
                                               (map kimpl rest))) rest)
        with ((kept ++ [r]) ++ DF.where_
                 (map negb (DF.duplicated_from (kimpl r :: seen)
                                               (map kimpl rest))) rest)
        by now rewrite <- app_assoc.
      apply IH.
      * apply retained_first; [easy|]. intros e He Hk.
        assert (In (kimpl r) seen) as Hin.
        { apply Hseen. exists e. split; [easy | now apply Hkey]. }
        apply seen_In in Hin. congruence.
      * intros k. simpl. rewrite Hseen. split.
        -- intros [<-|[x [Hx Hxk]]].
           ++ exists r. split; [|easy]. apply in_or_app. right. now left.
           ++ exists x. split; [|easy]. apply in_or_app. now left.
        -- intros [x [Hx Hxk]]. apply in_app_or in Hx.
           destruct Hx as [Hx|[<-|[]]]; [right; now exists x | now left].
Qed.

Lemma not_reserved (c : string) :
  reserved c = false ->
  c <> "song_id"%string /\ c <> "normalized_song"%string
  /\ c <> "normalized_artist"%string.
Proof.
  unfold reserved, DF.mem. simpl. intros Hc.
  repeat split; intros ->; discriminate.
Qed.

Lemma filter_reserved (l : list string) :
  filter (fun col => negb (String.eqb col "song_id"))
         (filter (fun k => negb (String.eqb k "normalized_artist"))
                 (filter (fun k => negb (String.eqb k "normalized_song")) l))
  = filter (fun c => negb (reserved c)) l.
Proof.
  induction l as [|k l IH]; simpl; [easy|].
  unfold reserved at 1, DF.mem. simpl.
  destruct (String.eqb k "normalized_song") eqn:E1; simpl.
  - rewrite IH. now rewrite orb_true_r.
  - destruct (String.eqb k "normalized_artist") eqn:E2; simpl.
    + rewrite IH. now rewrite !orb_true_r.
    + destruct (String.eqb k "song_id") eqn:E3; simpl; now rewrite IH.
Qed.

Lemma filter_reserved_assign (df : DataFrame) (c : string)
      (vals : list value) :
  reserved c = true ->
  filter (fun k => negb (reserved k)) (columns (DF.assign df c vals))
  = filter (fun k => negb (reserved k)) (columns df).
Proof.
  intros Hc. simpl. destruct (DF.has_col df c); [easy|].
  rewrite filter_app. simpl. rewrite Hc. simpl. apply app_nil_r.
Qed.

Lemma wf_filter_rows (df : DataFrame) (mask : list bool) :
  wf df -> wf (DF.filter_rows df mask).
Proof.
  intros [Hnd Hrows]. split; [easy|]. simpl. apply Forall_forall.
  intros r Hr. apply where_incl in Hr.
  now apply (proj1 (Forall_forall _ _) Hrows).
Qed.

Lemma retained_incl {K} (key : row -> K) (l kept : list row) :
  retained key l kept -> incl kept l.
Proof.
  induction 1 as [|pre kept r _ IH _|pre kept r _ IH _]; intros x Hx.
  - easy.
  - apply in_app_or in Hx. apply in_or_app.
    destruct Hx as [Hx|Hx]; [left; now apply IH | now right].
  - apply in_or_app. left. now apply IH.
Qed.

(** One retained row for each key of the table. *)
Lemma retained_keys {K} (key : row -> K) (l kept : list row) :
  retained key l kept ->
  NoDup (map key kept)
  /\ forall r, In r l -> exists k, In k kept /\ key k = key r.
Proof.
  induction 1 as [|pre kept r Hret [IHn IHc] Hf|pre kept r Hret [IHn IHc] Hl].
  - split; [constructor | easy].
  - split.
    + rewrite map_app. apply NoDup_app; [easy | repeat constructor; easy |].
      intros a Ha [<-|[]]. apply in_map_iff in Ha.
      destruct Ha as [e [He Hin]].
      apply (retained_incl key pre kept Hret) in Hin. now apply (Hf e).
    + intros x Hx. apply in_app_or in Hx. destruct Hx as [Hx|[<-|[]]].
      * destruct (IHc x Hx) as [k [Hk E]]. exists k.
        split; [apply in_or_app; now left | easy].
      * exists r. split; [apply in_or_app; right; now left | easy].
  - split; [easy|].
    intros x Hx. apply in_app_or in Hx. destruct Hx as [Hx|[<-|[]]].
    + now apply IHc.
    + destruct Hl as [e [He E]]. destruct (IHc e He) as [k [Hk E']].
      exists k. split; [easy | congruence].
Qed.

Lemma retained_nil_inv {K} (key : row -> K) (kept : list row) :
  retained key [] kept -> kept = [].
Proof.
  intros Hr. inversion Hr as [|pre k r _ _ E|pre k r _ _ E]; [easy| |];
    now destruct pre.
Qed.

Lemma retained_snoc_inv {K} (key : row -> K) (pre kept : list row) (r : row) :
  retained key (pre ++ [r]) kept ->
  exists kept',
    retained key pre kept'
    /\ (((forall e, In e pre -> key e <> key r) /\ kept = kept' ++ [r])
        \/ ((exists e, In e pre /\ key e = key r) /\ kept = kept')).
Proof.
  intros Hr.
  inversion Hr as [E|pre' k r' Hk Hf E|pre' k r' Hk Hl E].
  - now destruct pre.
  - apply app_inj_tail in E. destruct E as [-> ->].
    exists k. split; [easy|]. now left.
  - apply app_inj_tail in E. destruct E as [-> ->].
    exists kept. split; [easy|]. now right.
Qed.

(** Of rows A, B, A' where A and A' share a key that B does not have,
    A and B are retained. *)
Lemma retained_A_B_A' {K} (key : row -> K) (A B A' : row)
      (kept : list row) :
  key A = key A' -> key A <> key B ->
  retained key [A; B; A'] kept -> kept = [A; B].
Proof.
  intros HA HB Hr.
  apply (retained_snoc_inv key [A; B] kept A') in Hr.
  destruct Hr as (k2 & Hr & [[Hf _]|[_ ->]]).
  { destruct (Hf A (or_introl eq_refl) HA). }
  apply (retained_snoc_inv key [A] k2 B) in Hr.
  destruct Hr as (k1 & Hr & [[_ ->]|[[e [[<-|[]] He]] _]]); [|easy].
  apply (retained_snoc_inv key [] k1 A) in Hr.
  destruct Hr as (k0 & Hr & [[_ ->]|[[e [[] _]] _]]).
  now rewrite (retained_nil_inv key k0 Hr).
Qed.

Section Dedup.
Context `{UnicodeDB}.
Variable df : DataFrame.
Variables song_column artist_column : string.
Hypothesis Hwf : wf df.
Hypothesis Henc : alnum_encodable.
Hypothesis Hsong : In song_column (columns df).
Hypothesis Hartist : In artist_column (columns df).
Hypothesis Hsong_res : reserved song_column = false.
Hypothesis Hartist_res : reserved artist_column = false.

Let id_of (r : row) : value :=
  match Tracks2.generate_song_id
          (cell (DF.row_values df r) song_column)
          (cell (DF.row_values df r) artist_column) with
  | Some id => VStr id
  | None => VNaN
  end.

Let nsong (r : row) : value :=
  VStr (Tracks2.normalize_text (cell r song_column)).

Let nartist (r : row) : value :=
  VStr (Tracks2.normalize_text (cell r artist_column)).

(** A row with the three columns the script adds. *)
Let staged (r : row) : row :=
  DF.set (DF.set (DF.set r "song_id" (id_of r)) "normalized_song" (nsong r))
         "normalized_artist" (nartist r).

Lemma row_labels (r : row) : In r (rows df) -> map fst r = columns df.
Proof.
  intros Hr. exact (proj1 (Forall_forall _ _) (proj2 Hwf) r Hr).
Qed.

Lemma song_ids_generated :
  DF.traverse
    (fun r => song <- DF.get (DF.row_values df r) song_column ;;
              artist <- DF.get (DF.row_values df r) artist_column ;;
              id <- Tracks2.generate_song_id song artist ;;
              Some (VStr id)) (rows df)
  = Some (map id_of (rows df)).
Proof.
  apply traverse_map. intros r Hr.
  rewrite !get_cell
    by (rewrite (proj1 (row_values_spec df r)), (row_labels r Hr); easy).
  simpl. unfold id_of.
  destruct (tracks2_generate_song_id_total
              (cell (DF.row_values df r) song_column)
              (cell (DF.row_values df r) artist_column) Henc) as [k ->].
  reflexivity.
Qed.

Lemma staged_cells (r : row) :
  In r (rows df) ->
  cell (staged r) "song_id" = id_of r
  /\ cell (staged r) "normalized_song" = nsong r
  /\ cell (staged r) "normalized_artist" = nartist r
  /\ forall c, reserved c = false -> cell (staged r) c = cell r c.
Proof.
  intros Hr. unfold staged. repeat split.
  - rewrite !cell_set_other by discriminate. apply cell_set_same.
  - rewrite cell_set_other by discriminate. apply cell_set_same.
  - apply cell_set_same.
  - intros c Hc. destruct (not_reserved c Hc) as (N1 & N2 & N3).
    rewrite !cell_set_other by congruence. reflexivity.
Qed.

(** The frame after the three assignments. *)
Lemma staged_frame :
  let df1 := DF.assign df "song_id" (map id_of (rows df)) in
  let df2 :=
    DF.assign df1 "normalized_song"
              (map (fun v => VStr (Tracks2.normalize_text v))
                   (map (fun r => cell r song_column) (rows df1))) in
  let df3 :=
    DF.assign df2 "normalized_artist"
              (map (fun v => VStr (Tracks2.normalize_text v))
                   (map (fun r => cell r artist_column) (rows df2))) in
  wf df1 /\ wf df2 /\ wf df3
  /\ rows df3 = map staged (rows df)
  /\ filter (fun k => negb (reserved k)) (columns df3)
     = filter (fun k => negb (reserved k)) (columns df)
  /\ DF.has_col df1 song_column = true
  /\ DF.has_col df2 artist_column = true
  /\ DF.has_col df3 "song_id" = true
  /\ DF.has_col df3 "normalized_song" = true
  /\ DF.has_col df3 "normalized_artist" = true.
Proof.
  intros df1 df2 df3.
  destruct (not_reserved _ Hsong_res) as (S1 & S2 & S3).
  destruct (not_reserved _ Hartist_res) as (A1 & A2 & A3).
  assert (wf df1) as W1 by (apply wf_assign; exact Hwf).
  assert (wf df2) as W2.
  { unfold df2. rewrite map_map. apply wf_assign. exact W1. }
  assert (wf df3) as W3.
  { unfold df3. rewrite map_map. apply wf_assign. exact W2. }
  split; [exact W1|]. split; [exact W2|]. split; [exact W3|]. split.
  { unfold df3. rewrite map_map, assign_rows_map.
    unfold df2. rewrite map_map, assign_rows_map.
    unfold df1. rewrite assign_rows_map. rewrite !map_map.
    apply map_ext. intros r. unfold staged, nsong, nartist.
    rewrite !cell_set_other by congruence. reflexivity. }
  split.
  { unfold df3, df2, df1. now rewrite !filter_reserved_assign. }
  split.
  { apply has_col_assign_keeps. now apply mem_In. }
  split.
  { apply has_col_assign_keeps, has_col_assign_keeps. now apply mem_In. }
  split.
  { apply has_col_assign_keeps, has_col_assign_keeps.
    apply has_col_assign_same. }
  split.
  { apply has_col_assign_keeps. apply has_col_assign_same. }
  apply has_col_assign_same.
Qed.

Lemma cell_del_other (r : row) (c c' : string) :
  c <> c' -> cell (DF.del c r) c' = cell r c'.
Proof. intros Hne. unfold cell. now rewrite get_del_other. Qed.

(** The written row of a retained row. *)
Lemma finished_row (r : row) :
  In r (rows df) ->
  map (fun c => (c, cell (DF.del "normalized_artist"
                            (DF.del "normalized_song" (staged r))) c))
      ("song_id"%string :: filter (fun k => negb (reserved k)) (columns df))
  = with_song_id df song_column artist_column r.
Proof.
  intros Hr. destruct (staged_cells r Hr) as (Hid & _ & _ & Hother).
  unfold with_song_id. cbn [map]. f_equal.
  - rewrite !cell_del_other by discriminate. now rewrite Hid.
  - rewrite <- (row_labels r Hr).
    rewrite <- (cells_of_filter (fun k => negb (reserved k)) r)
      by (rewrite (row_labels r Hr); apply Hwf).
    apply map_ext_in. intros c Hc. apply filter_In in Hc.
    destruct Hc as [_ Hc]. apply negb_true_iff in Hc.
    destruct (not_reserved c Hc) as (N1 & N2 & N3).
    rewrite !cell_del_other by congruence. now rewrite Hother.
Qed.

(** Without rows the summary divides by zero: nothing is written. *)
Lemma dedup_run_empty :
  rows df = [] ->
  Tracks2Dedup.remove_duplicates_and_generate_ids
    df song_column artist_column = failed.
Proof.
  intros E. unfold Tracks2Dedup.remove_duplicates_and_generate_ids.
  rewrite (proj2 (mem_In _ _) Hsong : DF.has_col df song_column = true).
  rewrite (proj2 (mem_In _ _) Hartist : DF.has_col df artist_column = true).
  cbv zeta. cbn [negb]. rewrite E. cbn [length Nat.eqb].
  repeat match goal with
         | |- context [bind ?x _] =>
             destruct x; cbn [bind]; [|reflexivity]
         end.
  reflexivity.
Qed.

Hypothesis Hrows : rows df <> [].

(** The run on a table with at least one row. *)
Lemma dedup_run :
  exists out kept,
    Tracks2Dedup.remove_duplicates_and_generate_ids
      df song_column artist_column
    = {| written := Some out; returned := Some out |}
    /\ retained (song_key song_column artist_column) (rows df) kept
    /\ rows out = map (with_song_id df song_column artist_column) kept
    /\ columns out
       = "song_id"%string
         :: filter (fun k => negb (reserved k)) (columns df)
    /\ NoDup (map (song_key song_column artist_column) kept)
    /\ (forall r, In r (rows df) ->
          exists k, In k kept
                    /\ song_key song_column artist_column k
                       = song_key song_column artist_column r)
    /\ (forall A B A',
          rows df = [A; B; A'] ->
          song_key song_column artist_column A
          = song_key song_column artist_column A' ->
          song_key song_column artist_column A
          <> song_key song_column artist_column B ->
          kept = [A; B]).
Proof.
  pose proof staged_frame as F. cbv zeta in F.
  unfold Tracks2Dedup.remove_duplicates_and_generate_ids.
  rewrite (proj2 (mem_In _ _) Hsong : DF.has_col df song_column = true).
  rewrite (proj2 (mem_In _ _) Hartist : DF.has_col df artist_column = true).
  cbn [negb]. rewrite song_ids_generated. cbn [bind].
  set (df1 := DF.assign df "song_id" (map id_of (rows df))) in *.
  destruct F as (W1 & F).
  rewrite (column_cells df1 song_column W1 (proj1 (proj2 (proj2 (proj2
             (proj2 F)))))). cbn [bind].
  set (df2 := DF.assign df1 "normalized_song" _) in *.
  destruct F as (W2 & F).
  rewrite (column_cells df2 artist_column W2 (proj1 (proj2 (proj2 (proj2
             (proj2 F)))))). cbn [bind].
  set (df3 := DF.assign df2 "normalized_artist" _) in *.
  destruct F as (W3 & Hrows3 & Hcols3 & _ & _ & C3 & C4 & C5).
  set (kimpl := fun r : row => [nsong r; nartist r]).
  set (kept := DF.where_
                 (map negb (DF.duplicated_from [] (map kimpl (rows df))))
                 (rows df)).
  assert (DF.duplicated df3 ["normalized_song"; "normalized_artist"]%string
          = Some (DF.duplicated_from [] (map kimpl (rows df)))) as Hdup.
  { unfold DF.duplicated. cbn [forallb]. rewrite C4, C5. cbn [andb].
    rewrite (traverse_map _ (fun r3 => [cell r3 "normalized_song";
                                        cell r3 "normalized_artist"])).
    - cbn [bind]. rewrite Hrows3, map_map. do 2 f_equal.
      apply map_ext_in. intros r Hr.
      destruct (staged_cells r Hr) as (_ & -> & -> & _). reflexivity.
    - intros r3 Hr3. cbn [DF.traverse].
      assert (map fst r3 = columns df3) as E
          by exact (proj1 (Forall_forall _ _) (proj2 W3) r3 Hr3).
      rewrite !get_cell by (rewrite E; now apply mem_In). reflexivity. }
  rewrite Hdup. cbn [bind].
  set (df4 := DF.filter_rows df3 _).
  assert (wf df4) as W4 by now apply wf_filter_rows.
  assert (rows df4 = map staged kept) as Hrows4.
  { unfold df4. cbn [DF.filter_rows rows]. rewrite Hrows3. apply where_map. }
  set (df5 := DF.drop (DF.drop df4 "normalized_song") "normalized_artist").
  assert (wf df5) as W5 by now apply wf_drop, wf_drop.
  assert (filter (fun col => negb (String.eqb col "song_id")) (columns df5)
          = filter (fun k => negb (reserved k)) (columns df)) as Hcols5.
  { unfold df5, df4. cbn [DF.drop DF.filter_rows columns].
    now rewrite filter_reserved, Hcols3. }
  rewrite Hcols5.
  assert (In "song_id"%string (columns df5)) as Hsid.
  { apply mem_In. change (DF.has_col df5 "song_id" = true).
    unfold df5. rewrite !has_col_drop_other by discriminate. exact C3. }
  rewrite (reindex_cells df5
             ("song_id"%string
              :: filter (fun k => negb (reserved k)) (columns df)) W5).
  2:{ intros c [<-|Hc]; [exact Hsid|]. rewrite <- Hcols5 in Hc.
      apply filter_In in Hc. now destruct Hc. }
  cbn [bind].
  assert ((length (rows df) =? 0)%nat = false) as ->
      by (destruct (rows df); [now destruct Hrows | reflexivity]).
  unfold DF.has_col at 1. cbn [columns DF.mem existsb].
  assert (existsb (String.eqb artist_column)
                  (filter (fun k => negb (reserved k)) (columns df)) = true)
    as ->.
  { apply (proj2 (mem_In _ _)). apply filter_In. split; [exact Hartist|].
    now rewrite Hartist_res. }
  rewrite orb_true_r.
  assert (retained (song_key song_column artist_column) (rows df) kept)
    as Hret.
  { apply (duplicated_retained (song_key song_column artist_column) kimpl)
      with (pre := []) (kept := []) (seen := []).
    - intros r r'. unfold kimpl, nsong, nartist, song_key. split.
      + now intros [= -> ->].
      + now intros [= -> ->].
    - constructor.
    - intros k. split; [easy | now intros [e [[] _]]]. }
  eexists. exists kept. split; [reflexivity|].
  split; [exact Hret|]. split; [|split].
  - cbn [rows]. unfold df5. cbn [DF.drop rows]. rewrite Hrows4, !map_map.
    apply map_ext_in. intros r Hr. apply finished_row.
    now apply where_incl in Hr.
  - reflexivity.
  - split; [exact (proj1 (retained_keys _ _ _ Hret))|].
    split; [exact (proj2 (retained_keys _ _ _ Hret))|].
    intros A B A' E HA HB. rewrite E in Hret.
    exact (retained_A_B_A' _ A B A' kept HA HB Hret).
Qed.

End Dedup.

(** C2 — Deduplication keys each row by the canonical pair
    (normalised song, normalised artist) and writes exactly the rows
    that a single pass in row order retains when it keeps a row if
    and only if no earlier row has its key: the first row of every
    key, in the original order, each with its song identifier in
    front.  The written rows have pairwise distinct keys and every
    key of the table is among them; rows A, B, A' where A and A'
    share a key that B does not have yield A and B.  (A table without
    any row has nothing to retain, and for it the script stops in its
    summary before writing.) *)
Theorem dedup_keeps_first_occurrences `{UnicodeDB} (df : DataFrame)
        (song_column artist_column : string) :
  wf df -> alnum_encodable ->
  In song_column (columns df) -> In artist_column (columns df) ->
  reserved song_column = false -> reserved artist_column = false ->
  (rows df <> [] ->
   exists out kept,
     Tracks2Dedup.remove_duplicates_and_generate_ids
       df song_column artist_column
     = {| written := Some out; returned := Some out |}
     /\ retained (song_key song_column artist_column) (rows df) kept
     /\ rows out = map (with_song_id df song_column artist_column) kept
     /\ columns out
        = "song_id"%string
          :: filter (fun k => negb (reserved k)) (columns df)
     /\ NoDup (map (song_key song_column artist_column) kept)
     /\ (forall r, In r (rows df) ->
           exists k, In k kept
                     /\ song_key song_column artist_column k
                        = song_key song_column artist_column r)
     /\ (forall A B A',
           rows df = [A; B; A'] ->
           song_key song_column artist_column A
           = song_key song_column artist_column A' ->
           song_key song_column artist_column A
           <> song_key song_column artist_column B ->
           kept = [A; B]))
  /\ (rows df = [] ->
      Tracks2Dedup.remove_duplicates_and_generate_ids
        df song_column artist_column = failed).
Proof.
  intros Hwf Henc Hsong Hartist Hsr Har. split.
  - intros Hrows. now apply dedup_run.
  - now apply dedup_run_empty.
Qed.

Lemma dedup_keeps_first_occurrences_witness :
  exists out kept,
    Tracks2Dedup.remove_duplicates_and_generate_ids
      (H := latin1_db) songs_example "name" "artists"
    = {| written := Some out; returned := Some out |}
    /\ retained (song_key (H := latin1_db) "name" "artists")
                (rows songs_example) kept
    /\ rows out
       = map (with_song_id (H := latin1_db) songs_example "name" "artists")
             kept
    /\ kept = firstn 2 (rows songs_example).
Proof.
  assert (wf songs_example) as Hwf.
  { split; simpl.
    - repeat (constructor; [simpl; intuition discriminate|]). constructor.
    - repeat constructor. }
  destruct (proj1 (dedup_keeps_first_occurrences
                     (H := latin1_db) songs_example "name" "artists"
                     Hwf latin1_alnum_encodable
                     (or_introl eq_refl) (or_intror (or_introl eq_refl))
                     eq_refl eq_refl)
                  (fun E : rows songs_example = [] =>
                     eq_ind (rows songs_example)
                            (fun l => match l with
                                      | [] => False
                                      | _ => True
                                      end)
                            I [] E))
    as (out & kept & Hrun & Hret & Hrows & _ & _ & _ & Haba).
  exists out, kept. split; [exact Hrun|]. split; [exact Hret|].
  split; [exact Hrows|].
  apply (Haba _ _ _ eq_refl); [reflexivity | discriminate].
Defined.

(** The run of the deduplication on the example table. *)
Example dedup_example_run :
  option_map (fun out => map (fun r => cell r "name") (rows out))
             (written (Tracks2Dedup.remove_duplicates_and_generate_ids
                         (H := latin1_db) songs_example "name" "artists"))
  = Some [VStr (lit "Song A"); VStr (lit "Song B")]
  /\ Tracks2Dedup.remove_duplicates_and_generate_ids
       (H := latin1_db)
       {| columns := columns songs_example; rows := [] |} "name" "artists"
     = failed.
Proof. split; vm_compute; reflexivity. Qed.

(* ================================================================== *)
(** ** Tables without a required column *)

(** C6, as stated, fails for the first charts script: without the
    artist column it writes the table back and returns it, whatever
    the cleaning of artist names does. *)
Lemma charts1_proceeds_without_artist :
  DF.has_col charts_without_artist "artist" = false
  /\ forall (U : UnicodeDB) (clean_artist_name : value -> value),
       Charts1Process.process_charts_csv clean_artist_name
                                         charts_without_artist
       = {| written := Some charts_without_artist;
            returned := Some charts_without_artist |}.
Proof. split; [reflexivity|]. intros U clean. reflexivity. Qed.

Lemma remove_first_incl (d : string) (l : list string) :
  incl (DF.remove_first d l) l.
Proof.
  induction l as [|k l IH]; simpl; [easy|].
  destruct (String.eqb k d).
  - intros x Hx. now right.
  - intros x [<-|Hx]; [now left | right; now apply IH].
Qed.

Lemma In_remove_first (c d : string) (l : list string) :
  c <> d -> In c l -> In c (DF.remove_first d l).
Proof.
  intros Hne. induction l as [|k l IH]; simpl; [easy|].
  destruct (String.eqb k d) eqn:E.
  - apply String.eqb_eq in E. subst k. intros [->|Hc]; easy.
  - intros [->|Hc]; [now left | right; now apply IH].
Qed.

Section MissingColumns.
Context `{UnicodeDB}.
Variable clean_artist_name : value -> value.
Variable df : DataFrame.

Lemma charts2_aborts :
  DF.has_col df "song" = false \/ DF.has_col df "artist" = false ->
  Charts2Process.process_charts_csv df = failed.
Proof.
  intros Hmiss. unfold Charts2Process.process_charts_csv.
  set (df0 := if DF.has_col df "song_id" then DF.drop df "song_id" else df).
  assert (forall c, c <> "song_id"%string ->
                    DF.has_col df0 c = DF.has_col df c) as Hcol.
  { intros c Hc. unfold df0. destruct (DF.has_col df "song_id"); [|easy].
    apply has_col_drop_other. congruence. }
  unfold Charts2Process.required_columns. cbn [filter].
  rewrite !Hcol by discriminate.
  destruct Hmiss as [-> | ->]; cbn [negb]; [reflexivity|].
  now destruct (negb (DF.has_col df "song")).
Qed.

Lemma tracks2_aborts (song_column artist_column : string) :
  DF.has_col df song_column = false \/ DF.has_col df artist_column = false ->
  Tracks2Dedup.remove_duplicates_and_generate_ids
    df song_column artist_column = failed.
Proof.
  intros Hmiss. unfold Tracks2Dedup.remove_duplicates_and_generate_ids.
  destruct Hmiss as [-> | ->]; cbn [negb]; [reflexivity|].
  now destruct (negb (DF.has_col df song_column)).
Qed.

End MissingColumns.

(* ================================================================== *)
(** ** Runs of the scripts on small inputs *)

(** The line filter on a file with a header ending in ".0", Windows
    and Unix line ends and an unterminated last line. *)
Example charts3_run :
  Charts3.run (lit "rank.0" ++ [0x0D; 0x0A] ++ lit "1,7.0" ++ [0x0A]
               ++ lit "2,x" ++ [0x0A] ++ lit "3,9.0")
  = lit "rank.0" ++ [0x0A] ++ lit "1,7" ++ [0x0A]
    ++ lit "2,x" ++ [0x0A] ++ lit "3,9" ++ [0x0A].
Proof. reflexivity. Qed.

(** Identifiers of the three scripts, as the Python runtime gives them. *)
Example song_id_examples :
  Charts2.generate_song_id (H := latin1_db) ed_sheeran VNaN
  = Some (lit "13ced826b89221afb69966f7e0d7ba70")
  /\ Charts2.generate_song_id (H := latin1_db) ed_sheeran_accented VNaN
     = Some (lit "a63499cfc69cb7b59cda055cfbf5bb29")
  /\ Tracks2.generate_song_id (H := latin1_db) ed_sheeran_accented VNaN
     = Some (lit "13ced826b89221afb69966f7e0d7ba70")
  /\ Charts1Key.generate_song_id (H := latin1_db) ed_sheeran ed_sheeran
     = Some (VStr (lit "093aef3e9c")).
Proof. repeat split; vm_compute; reflexivity. Qed.

(** The identifiers of a cell of collaborating artists; an artist that
    the dictionary does not know is left out. *)
Example get_artist_ids_example :
  Artists1.get_artist_ids
    [(lit "Dua Lipa", lit "id1"); (lit "Elton John", lit "id2")]
    (VStr (lit "Dua Lipa , Elton John,Unknown"))
  = VStr (lit "id1,id2")
  /\ Artists1.get_artist_ids [] (VStr (lit "Dua Lipa")) = VNaN
  /\ Artists1.generate_artist_id (H := latin1_db) (lit " Dua Lipa ")
     = Some (lit "f40312bfefb250340360eada74cb64c4").
Proof. repeat split; vm_compute; reflexivity. Qed.

(* ================================================================== *)
(** ** The format of the identifiers *)

Lemma le_bytes_bytes (n : nat) (x : Z) :
  length (MD5.le_bytes n x) = n
  /\ Forall (fun b => 0 <= b < 256) (MD5.le_bytes n x).
Proof.
  revert x. induction n as [|n IH]; intros x; simpl; [now split|].
  destruct (IH (Z.shiftr x 8)) as [Hl Hb]. split; [now rewrite Hl|].
  constructor; [|exact Hb].
  change 0xFF with (Z.ones 8). rewrite Z.land_ones by lia.
  apply Z.mod_pos_bound. reflexivity.
Qed.

Lemma digest_bytes (msg : list Z) :
  length (MD5.digest msg) = 16%nat
  /\ Forall (fun b => 0 <= b < 256) (MD5.digest msg).
Proof.
  unfold MD5.digest.
  destruct (MD5.blocks _ MD5.init (MD5.pad msg)) as [[[A B] C] D].
  split.
  - rewrite !length_app. now rewrite !(proj1 (le_bytes_bytes 4 _)).
  - repeat (apply Forall_app; split); apply le_bytes_bytes.
Qed.

Lemma hex_digit_char (d : Z) :
  0 <= d < 16 -> hex_char (MD5.hex_digit d) = true.
Proof.
  intros Hd. unfold MD5.hex_digit, hex_char, Py.in_range.
  destruct (Z.ltb_spec d 10); lia.
Qed.

Lemma hex_of_bytes (l : list Z) :
  Forall (fun b => 0 <= b < 256) l ->
  let hex := flat_map (fun b => [MD5.hex_digit (Z.shiftr b 4);
                                 MD5.hex_digit (Z.land b 0xF)]) l in
  length hex = (2 * length l)%nat /\ forallb hex_char hex = true.
Proof.
  induction 1 as [|b l Hb _ [IHl IHh]]; [now split|].
  cbn [flat_map app length forallb]. split; [lia|].
  rewrite IHh, !hex_digit_char; [reflexivity| |].
  - change 0xF with (Z.ones 4). rewrite Z.land_ones by lia.
    apply Z.mod_pos_bound. reflexivity.
  - rewrite Z.shiftr_div_pow2 by lia. change (2 ^ 4) with 16.
    split; [apply Z.div_pos; lia | apply Z.div_lt_upper_bound; lia].
Qed.

Lemma hexdigest_format (msg : list Z) :
  length (MD5.hexdigest msg) = 32%nat
  /\ forallb hex_char (MD5.hexdigest msg) = true.
Proof.
  destruct (digest_bytes msg) as [Hl Hb].
  destruct (hex_of_bytes _ Hb) as [Hlen Hhex]. fold (MD5.hexdigest msg) in *.
  split; [now rewrite Hlen, Hl | exact Hhex].
Qed.

Lemma md5_hex_format (s k : str) :
  md5_hex s = Some k -> length k = 32%nat /\ forallb hex_char k = true.
Proof.
  unfold md5_hex. destruct (Py.encode_utf8 s) as [bs|]; [|easy].
  intros [= <-]. apply hexdigest_format.
Qed.

Lemma forallb_firstn {A} (p : A -> bool) (n : nat) (l : list A) :
  forallb p l = true -> forallb p (firstn n l) = true.
Proof.
  revert n. induction l as [|x l IH]; intros [|n]; simpl; try easy.
  rewrite !andb_true_iff. intros [Hx Hl]. split; [easy | now apply IH].
Qed.

(** X1 — A song identifier is a fixed-length lowercase hexadecimal
    string: 32 digits in the second charts script and the tracks
    script, the first 10 of them in the first charts script, which
    otherwise returns the null value; an artist identifier has 32
    digits.  So an identifier holds no comma, no separator and no
    whitespace. *)
Theorem identifier_format `{UnicodeDB} (song artist : value) :
  (forall id, Charts2.generate_song_id song artist = Some id ->
              length id = 32%nat /\ forallb hex_char id = true)
  /\ (forall id, Tracks2.generate_song_id song artist = Some id ->
                 length id = 32%nat /\ forallb hex_char id = true)
  /\ (forall v, Charts1Key.generate_song_id song artist = Some v ->
                (v = VNaN /\ isna song || isna artist = true)
                \/ (exists id, v = VStr id /\ length id = 10%nat
                               /\ forallb hex_char id = true
                               /\ isna song || isna artist = false))
  /\ (forall name id, Artists1.generate_artist_id name = Some id ->
                      length id = 32%nat /\ forallb hex_char id = true).
Proof.
  split; [intros id; apply md5_hex_format|].
  split; [intros id; apply md5_hex_format|].
  split; [|intros name id; apply md5_hex_format].
  intros v. unfold Charts1Key.generate_song_id.
  destruct (isna song || isna artist); [intros [= <-]; now left|].
  destruct (md5_hex _) as [h|] eqn:E; [|easy]. intros [= <-].
  destruct (md5_hex_format _ _ E) as [Hl Hh].
  right. exists (Py.take 10 h). split; [reflexivity|].
  split; [|split; [now apply forallb_firstn | reflexivity]].
  unfold Py.take. rewrite length_firstn, Hl. reflexivity.
Qed.

Lemma identifier_format_witness :
  length (lit "13ced826b89221afb69966f7e0d7ba70") = 32%nat
  /\ forallb hex_char (lit "13ced826b89221afb69966f7e0d7ba70") = true.
Proof.
  apply (proj1 (identifier_format (H := latin1_db) ed_sheeran VNaN)).
  vm_compute. reflexivity.
Defined.

(* ================================================================== *)
(** ** Whitespace collapsing *)

Lemma split_from_tokens (s tok : str) :
  Forall (fun c => Py.isspace c = false) tok ->
  Forall token (Py.split_from tok s).
Proof.
  revert tok. induction s as [|c s IH]; intros tok Htok; simpl.
  - destruct tok as [|t tok]; [constructor|].
    constructor; [|constructor]. split.
    + simpl. now destruct (rev tok).
    + now apply Forall_rev.
  - destruct (Py.isspace c) eqn:Hc.
    + destruct tok as [|t tok]; [now apply IH|].
      constructor; [|now apply IH]. split.
      * simpl. now destruct (rev tok).
      * now apply Forall_rev.
    + apply IH. now constructor.
Qed.

Lemma split_tokens (s : str) : Forall token (Py.split s).
Proof. apply split_from_tokens. constructor. Qed.

Lemma split_from_app_token (w s tok : str) :
  Forall (fun c => Py.isspace c = false) w ->
  Py.split_from tok (w ++ s) = Py.split_from (rev w ++ tok) s.
Proof.
  revert tok. induction w as [|c w IH]; intros tok Hw; [reflexivity|].
  inversion Hw as [|? ? Hc Hw']; subst. simpl. rewrite Hc.
  rewrite IH by easy. now rewrite <- app_assoc.
Qed.

(** Splitting what was joined by single spaces gives the tokens back. *)
Lemma split_join (ws : list str) :
  Forall token ws -> Py.split (Py.join (lit " ") ws) = ws.
Proof.
  unfold Py.split. induction 1 as [|w ws [Hne Hw] Hws IH]; [reflexivity|].
  assert (rev w <> []) as Hrev.
  { intros E. apply Hne. now rewrite <- (rev_involutive w), E. }
  destruct ws as [|w' ws'].
  - simpl. rewrite <- (app_nil_r w) at 1.
    rewrite split_from_app_token by easy. simpl. rewrite app_nil_r.
    destruct (rev w) eqn:E; [easy|]. now rewrite <- E, rev_involutive.
  - change (Py.join (lit " ") (w :: w' :: ws'))
      with (w ++ 0x20 :: Py.join (lit " ") (w' :: ws')).
    set (J := Py.join (lit " ") (w' :: ws')) in *.
    rewrite split_from_app_token by easy. rewrite app_nil_r.
    destruct (rev w) as [|x r] eqn:E; [easy|].
    cbn [Py.split_from]. change (Py.isspace 32) with true. cbv iota.
    rewrite <- E, rev_involutive. now rewrite IH.
Qed.

Lemma single_spaced_token_app (w s : str) :
  Forall (fun c => Py.isspace c = false) w ->
  single_spaced (w ++ s) = single_spaced s.
Proof.
  induction 1 as [|c w Hc Hw IH]; [reflexivity|].
  cbn [app]. destruct (w ++ s) as [|b t] eqn:E.
  - destruct w; [|easy]. simpl in E. now subst.
  - cbn [single_spaced]. rewrite Hc. simpl. exact IH.
Qed.

Lemma join_tokens_shape (ws : list str) :
  Forall token ws ->
  let out := Py.join (lit " ") ws in
  single_spaced out = true
  /\ (out = [] \/ exists c t, out = c :: t /\ Py.isspace c = false)
  /\ (out = [] \/ exists t c, out = t ++ [c] /\ Py.isspace c = false).
Proof.
  induction 1 as [|w ws [Hne Hw] Hws (IHs & IHh & IHl)]; cbv zeta.
  - now repeat split; try left.
  - assert (exists c t, w = c :: t /\ Py.isspace c = false) as (c & t & -> & Hc).
    { destruct w as [|c t]; [easy|]. exists c, t. split; [easy|].
      now inversion Hw. }
    destruct ws as [|w' ws'].
    + cbn [Py.join]. split; [|split].
      * rewrite <- (app_nil_r (c :: t)). now rewrite single_spaced_token_app.
      * right. now exists c, t.
      * right. destruct (exists_last (l := c :: t)) as (t' & d & E); [easy|].
        exists t', d. split; [easy|].
        rewrite E in Hw. apply Forall_app in Hw. destruct Hw as [_ Hd].
        now inversion Hd.
    + change (Py.join (lit " ") ((c :: t) :: w' :: ws'))
        with ((c :: t) ++ 0x20 :: Py.join (lit " ") (w' :: ws')).
      set (J := Py.join (lit " ") (w' :: ws')) in *. cbv zeta in *.
      split; [|split].
      * rewrite single_spaced_token_app by easy.
        destruct IHh as [E|(d & u & E & Hd)].
        -- now rewrite E.
        -- rewrite <- IHs, E.
           change (single_spaced (32 :: d :: u))
             with (negb (Py.isspace 32 && Py.isspace d)
                   && single_spaced (d :: u)).
           now rewrite Hd, andb_false_r.
      * right. now exists c, (t ++ 0x20 :: J).
      * right. destruct IHl as [E|(u & d & E & Hd)].
        -- exfalso. destruct w' as [|x w'']; [now inversion Hws; firstorder|].
           unfold J in E. destruct ws'; simpl in E; discriminate.
        -- exists ((c :: t) ++ 0x20 :: u), d. split; [|easy].
           rewrite E. now rewrite <- app_assoc.
Qed.

Lemma strip_fixed (s : str) :
  (s = [] \/ exists c t, s = c :: t /\ Py.isspace c = false) ->
  (s = [] \/ exists t c, s = t ++ [c] /\ Py.isspace c = false) ->
  Py.strip s = s.
Proof.
  intros [->|(c & t & -> & Hc)] Hl; [reflexivity|].
  unfold Py.strip, Py.lstrip_by, Py.rstrip_by. cbn [Py.dropwhile].
  rewrite Hc. destruct Hl as [E|(u & d & E & Hd)]; [easy|].
  rewrite E, rev_app_distr. cbn [rev app Py.dropwhile]. rewrite Hd.
  change (d :: rev u) with ([d] ++ rev u).
  now rewrite rev_app_distr, rev_involutive.
Qed.

(** The shape of [' '.join(text.split())]. *)
Lemma collapse_shape (s : str) :
  let out := Py.join (lit " ") (Py.split s) in
  Py.join (lit " ") (Py.split out) = out
  /\ Py.strip out = out
  /\ single_spaced out = true.
Proof.
  cbv zeta. pose proof (split_tokens s) as Ht.
  destruct (join_tokens_shape _ Ht) as (Hs & Hh & Hl).
  split; [now rewrite split_join|]. split; [now apply strip_fixed | exact Hs].
Qed.

(** X2 — A normalised text, of either normalisation, has its
    whitespace collapsed: no whitespace at its ends, never two
    whitespace characters in a row, no whitespace character other
    than the space, and splitting it at whitespace and joining the
    words by single spaces gives it back. *)
Theorem normalize_text_collapsed `{UnicodeDB} (text : value) :
  (let out := Charts2.normalize_text text in
   Py.strip out = out /\ single_spaced out = true
   /\ Py.join (lit " ") (Py.split out) = out
   /\ forall c, In c out -> Py.isspace c = true -> c = 0x20)
  /\ (let out := Tracks2.normalize_text text in
      Py.strip out = out /\ single_spaced out = true
      /\ Py.join (lit " ") (Py.split out) = out
      /\ forall c, In c out -> Py.isspace c = true -> c = 0x20).
Proof.
  split; cbv zeta.
  - assert (forall c, In c (Charts2.normalize_text text) ->
                      Py.isspace c = true -> c = 0x20) as Hsp.
    { intros c Hc Hs. apply charts2_normalize_canonical in Hc.
      unfold canonical_char, Py.in_range in Hc.
      unfold Py.isspace in Hs. lia. }
    unfold Charts2.normalize_text in *. destruct (isna text); [easy|].
    destruct (collapse_shape
                (filter Charts2.kept_char (lower (to_str text))))
      as (H1 & H2 & H3).
    easy.
  - assert (forall c, In c (Tracks2.normalize_text text) ->
                      Py.isspace c = true -> c = 0x20) as Hsp.
    { intros c Hc Hs. apply tracks2_normalize_chars in Hc.
      destruct Hc as [->|(_ & _ & Hn)]; [easy | congruence]. }
    unfold Tracks2.normalize_text in *. destruct (isna text); [easy|].
    match goal with
    | |- context [Py.join (lit " ") (Py.split ?t)] =>
        destruct (collapse_shape t) as (H1 & H2 & H3)
    end.
    cbv zeta in *. rewrite H2 in *. repeat split; assumption.
Qed.

Lemma normalize_text_collapsed_witness :
  Py.strip (Tracks2.normalize_text (H := latin1_db) ed_sheeran_spaced)
  = lit "ed sheeran"
  /\ single_spaced (Tracks2.normalize_text (H := latin1_db)
                                           ed_sheeran_spaced) = true.
Proof.
  destruct (proj2 (normalize_text_collapsed
                     (H := latin1_db) ed_sheeran_spaced))
    as (Hs & Hd & _).
  split; [exact Hs | exact Hd].
Defined.

Lemma filter_all {A} (p : A -> bool) (l : list A) :
  forallb p l = true -> filter p l = l.
Proof.
  induction l as [|x l IH]; simpl; [easy|].
  rewrite andb_true_iff. intros [Hx Hl]. now rewrite Hx, IH.
Qed.

Lemma latin1_lower_fixes_canonical : @lower_fixes_canonical latin1_db.
Proof.
  intros s. simpl. induction s as [|c s IH]; simpl; [easy|].
  rewrite andb_true_iff. intros [Hc Hs]. rewrite IH by easy. f_equal.
  unfold canonical_char, Py.in_range in Hc.
  unfold Latin1.lower_char, Latin1.in_range, Py.in_range.
  destruct (Z.leb_spec 0x41 c), (Z.leb_spec c 0x5A),
    (Z.leb_spec 0xC0 c), (Z.leb_spec c 0xDE); simpl; try reflexivity; lia.
Qed.

(** X3 — The charts normalisation is idempotent: normalising a
    normalised text changes nothing, given that lowercasing leaves
    lowercase ASCII letters, digits and spaces alone. *)
Theorem charts2_normalize_idempotent `{UnicodeDB} (text : value) :
  lower_fixes_canonical ->
  Charts2.normalize_text (VStr (Charts2.normalize_text text))
  = Charts2.normalize_text text.
Proof.
  intros Hlow.
  assert (forallb canonical_char (Charts2.normalize_text text) = true) as Hc.
  { apply forallb_forall. apply charts2_normalize_canonical. }
  destruct (normalize_text_collapsed text) as [(_ & _ & Hfix & _) _].
  cbv zeta in Hfix.
  unfold Charts2.normalize_text at 1. cbn [isna to_str].
  rewrite (Hlow _ Hc). rewrite filter_all; [exact Hfix|].
  apply forallb_forall. intros c Hin.
  apply charts2_normalize_canonical in Hin.
  unfold canonical_char in Hin. unfold Charts2.kept_char.
  apply orb_true_iff in Hin. destruct Hin as [Hin|Hin]; [now rewrite Hin|].
  apply Z.eqb_eq in Hin. subst c. now rewrite orb_true_r.
Qed.

Lemma charts2_normalize_idempotent_witness :
  Charts2.normalize_text
    (H := latin1_db)
    (VStr (Charts2.normalize_text (H := latin1_db) ed_sheeran_spaced))
  = lit "ed sheeran".
Proof.
  exact (charts2_normalize_idempotent
           (H := latin1_db) ed_sheeran_spaced latin1_lower_fixes_canonical).
Defined.

(* ================================================================== *)
(** ** The text that is hashed *)

Lemma separator_unique (x : Z) (a a' b b' : str) :
  ~ In x a -> ~ In x a' ->
  a ++ x :: b = a' ++ x :: b' -> a = a' /\ b = b'.
Proof.
  revert a'. induction a as [|c a IH]; intros [|c' a'] Ha Ha' E.
  - now inversion E.
  - inversion E; subst. destruct Ha'. now left.
  - inversion E; subst. destruct Ha. now left.
  - inversion E; subst.
    destruct (IH a') as [-> ->]; try easy.
    + intros Hin. apply Ha. now right.
    + intros Hin. apply Ha'. now right.
Qed.

Lemma charts2_no_separator `{UnicodeDB} (text : value) :
  ~ In 0x7C (Charts2.normalize_text text).
Proof. intros Hin. now apply charts2_normalize_canonical in Hin. Qed.

Lemma tracks2_no_separator `{UnicodeDB} (text : value) :
  isalnum 0x7C = false -> ~ In 0x7C (Tracks2.normalize_text text).
Proof.
  intros Hbar Hin. apply tracks2_normalize_chars in Hin.
  destruct Hin as [E|(Hw & _)]; [discriminate|].
  unfold is_word in Hw. now rewrite Hbar in Hw.
Qed.

(** X4 — The separator '|' never occurs in a normalised field, so the
    text that is hashed determines both fields: two (song, artist)
    pairs give the same joined text only if their normalised songs
    agree and their normalised artists agree.  Identifiers of
    different canonical pairs can therefore coincide only by a
    collision of MD5 itself.  (For the tracks script this uses that
    '|' is not alphanumeric.) *)
Theorem hashed_text_injective `{UnicodeDB}
        (song artist song' artist' : value) :
  (~ In 0x7C (Charts2.normalize_text song)
   /\ (Charts2.normalize_text song ++ lit "|"
       ++ Charts2.normalize_text artist
       = Charts2.normalize_text song' ++ lit "|"
         ++ Charts2.normalize_text artist' ->
       Charts2.normalize_text song = Charts2.normalize_text song'
       /\ Charts2.normalize_text artist = Charts2.normalize_text artist'))
  /\ (isalnum 0x7C = false ->
      ~ In 0x7C (Tracks2.normalize_text song)
      /\ (Tracks2.normalize_text song ++ lit "|"
          ++ Tracks2.normalize_text artist
          = Tracks2.normalize_text song' ++ lit "|"
            ++ Tracks2.normalize_text artist' ->
          Tracks2.normalize_text song = Tracks2.normalize_text song'
          /\ Tracks2.normalize_text artist
             = Tracks2.normalize_text artist')).
Proof.
  split.
  - split; [apply charts2_no_separator|].
    apply separator_unique; apply charts2_no_separator.
  - intros Hbar. split; [now apply tracks2_no_separator|].
    apply separator_unique; now apply tracks2_no_separator.
Qed.

Lemma hashed_text_injective_witness :
  ~ In 0x7C (Tracks2.normalize_text (H := latin1_db) (VStr (lit "a|b")))
  /\ Tracks2.normalize_text (H := latin1_db) (VStr (lit "a|b")) = lit "ab".
Proof.
  split; [|reflexivity].
  exact (proj1 (proj2 (hashed_text_injective
                         (H := latin1_db) (VStr (lit "a|b")) VNaN VNaN VNaN)
                      eq_refl)).
Defined.

(* ================================================================== *)
(** ** The main artist of a chart entry *)

Lemma split_on_from_head (sep : Z) (main rest tok : str) :
  ~ In sep main ->
  Py.split_on_from sep tok (main ++ sep :: rest)
  = (rev tok ++ main) :: Py.split_on_from sep [] rest.
Proof.
  revert tok. induction main as [|c main IH]; intros tok Hno; simpl.
  - rewrite Z.eqb_refl. now rewrite app_nil_r.
  - destruct (Z.eqb_spec c sep) as [->|Hne]; [destruct Hno; now left|].
    rewrite IH by (intros Hin; apply Hno; now right).
    simpl. now rewrite <- app_assoc.
Qed.

Lemma split_on_from_whole (sep : Z) (s tok : str) :
  ~ In sep s -> Py.split_on_from sep tok s = [rev tok ++ s].
Proof.
  revert tok. induction s as [|c s IH]; intros tok Hno; simpl.
  - now rewrite app_nil_r.
  - destruct (Z.eqb_spec c sep) as [->|Hne]; [destruct Hno; now left|].
    rewrite IH by (intros Hin; apply Hno; now right).
    simpl. now rewrite <- app_assoc.
Qed.

Lemma split_on_first_no_sep (sep : Z) (s : str) :
  ~ In sep (hd [] (Py.split_on sep s)).
Proof.
  intros Hin. unfold Py.split_on in Hin.
  destruct (Py.split_on_from sep [] s) as [|w ws] eqn:E; [easy|].
  apply (split_on_from_no_sep sep s [] w) in Hin; [easy|].
  rewrite E. now left.
Qed.

(** X5 — The main artist of a chart entry is the text before the
    first hyphen with the whitespace around it removed: it never
    holds a hyphen and has no whitespace at its ends; a text without
    hyphen is only trimmed, and a missing artist gives the empty
    text, not a missing value. *)
Theorem extract_main_artist_spec (artist : value) :
  ~ In 0x2D (Charts2.extract_main_artist artist)
  /\ Py.strip (Charts2.extract_main_artist artist)
     = Charts2.extract_main_artist artist
  /\ (forall main rest,
        ~ In 0x2D main ->
        Charts2.extract_main_artist (VStr (main ++ lit "-" ++ rest))
        = Py.strip main)
  /\ (forall s, ~ In 0x2D s ->
                Charts2.extract_main_artist (VStr s) = Py.strip s)
  /\ Charts2.extract_main_artist VNaN = [].
Proof.
  unfold Charts2.extract_main_artist. split; [|split; [|split; [|split]]].
  - destruct (isna artist); [easy|]. intros Hin. apply strip_incl in Hin.
    now apply split_on_first_no_sep in Hin.
  - destruct (isna artist); [easy|]. apply strip_idem.
  - intros main rest Hno. cbn [isna to_str]. unfold Py.split_on.
    change (main ++ lit "-" ++ rest) with (main ++ 0x2D :: rest).
    now rewrite split_on_from_head.
  - intros s Hno. cbn [isna to_str]. unfold Py.split_on.
    now rewrite split_on_from_whole.
  - reflexivity.
Qed.

Lemma extract_main_artist_spec_witness :
  Charts2.extract_main_artist
    (VStr (lit "Dua Lipa " ++ lit "-" ++ lit " Elton John"))
  = lit "Dua Lipa".
Proof.
  refine (proj1 (proj2 (proj2 (extract_main_artist_spec VNaN)))
                (lit "Dua Lipa ") (lit " Elton John") _).
  vm_compute. intuition discriminate.
Defined.

(* ================================================================== *)
(** ** The second charts script on a table with its columns *)

Lemma del_absent (c : string) (r : row) :
  ~ In c (map fst r) -> DF.del c r = r.
Proof.
  unfold DF.del. induction r as [|[k v] r IH]; simpl; [easy|].
  intros Hno. destruct (String.eqb k c) eqn:E.
  - apply String.eqb_eq in E. destruct Hno. now left.
  - simpl. rewrite IH; [easy|]. intros Hin. apply Hno. now right.
Qed.

Lemma filter_absent (c : string) (cs : list string) :
  ~ In c cs -> filter (fun k => negb (String.eqb k c)) cs = cs.
Proof.
  induction cs as [|k cs IH]; simpl; [easy|].
  intros Hno. destruct (String.eqb k c) eqn:E.
  - apply String.eqb_eq in E. destruct Hno. now left.
  - simpl. rewrite IH; [easy|]. intros Hin. apply Hno. now right.
Qed.

Lemma drop_absent (df : DataFrame) (c : string) :
  wf df -> DF.has_col df c = false -> DF.drop df c = df.
Proof.
  intros [_ Hrows] Hc. apply mem_false in Hc. destruct df as [cols rs].
  unfold DF.drop. simpl in *. rewrite filter_absent by easy. f_equal.
  induction Hrows as [|r rs Hr _ IH]; simpl; [easy|].
  rewrite IH, del_absent; [easy|]. now rewrite Hr.
Qed.

Lemma rows_labels (df : DataFrame) (r : row) :
  wf df -> In r (rows df) -> map fst r = columns df.
Proof. intros [_ Hrows] Hr. exact (proj1 (Forall_forall _ _) Hrows r Hr). Qed.

Lemma wf_reindexed (cs : list string) (rs : list row)
      (f : row -> string -> value) :
  NoDup cs ->
  wf {| columns := cs;
        rows := map (fun r => map (fun c => (c, f r c)) cs) rs |}.
Proof.
  intros Hnd. split; [exact Hnd|]. simpl. apply Forall_map.
  apply Forall_forall. intros r _. rewrite map_map. apply map_id.
Qed.

Lemma select_cells_get (f : string -> value) (cs : list string) (c : string) :
  In c cs -> DF.get (map (fun c0 => (c0, f c0)) cs) c = Some (f c).
Proof.
  induction cs as [|k cs IH]; simpl; [easy|].
  destruct (String.eqb k c) eqn:E.
  - apply String.eqb_eq in E. now subst.
  - intros [->|Hc]; [now rewrite String.eqb_refl in E | now apply IH].
Qed.

Section Charts2Run.
Context `{UnicodeDB}.
Variable df : DataFrame.
Hypothesis Hwf : wf df.
Hypothesis Hsong : In "song"%string (columns df).
Hypothesis Hartist : In "artist"%string (columns df).

Let cols0 : list string :=
  filter (fun k => negb (String.eqb k "song_id")) (columns df).

Let main_artist (r : row) : value :=
  VStr (Charts2.extract_main_artist (cell r "artist")).

Let id_of (r : row) : value :=
  match Charts2.generate_song_id (cell r "song") (main_artist r) with
  | Some id => VStr id
  | None => VNaN
  end.

(** A row on its way through the script. *)
Let staged (r : row) : row :=
  DF.set (DF.set (DF.del "song_id" r) "artist" (main_artist r))
         "song_id" (id_of r).

Lemma charts2_staged_cells (r : row) :
  In r (rows df) ->
  map fst (staged r) = cols0 ++ ["song_id"%string]
  /\ cell (staged r) "song_id" = id_of r
  /\ cell (staged r) "artist" = main_artist r
  /\ forall c, c <> "song_id"%string -> c <> "artist"%string ->
               cell (staged r) c = cell r c.
Proof.
  intros Hr. pose proof (rows_labels df r Hwf Hr) as Hl.
  assert (map fst (DF.del "song_id" r) = cols0) as Hl0
      by (now rewrite map_fst_del, Hl).
  assert (~ In "song_id"%string cols0) as Hno.
  { unfold cols0. intros Hin. apply filter_In in Hin.
    destruct Hin as [_ Hin]. now rewrite String.eqb_refl in Hin. }
  assert (In "artist"%string cols0) as Ha.
  { unfold cols0. apply filter_In. now split. }
  unfold staged. repeat split.
  - rewrite map_fst_set_new; rewrite map_fst_set; rewrite ?Hl0; easy.
  - apply cell_set_same.
  - rewrite cell_set_other by discriminate. apply cell_set_same.
  - intros c N1 N2. rewrite !cell_set_other by congruence.
    apply cell_del_other. congruence.
Qed.

Lemma charts2_run :
  Charts2Process.process_charts_csv df
  = (let out :=
       {| columns := "song_id"%string :: cols0;
          rows := map (fun r =>
                         map (fun c => (c, cell (staged r) c))
                             ("song_id"%string :: cols0))
                      (rows df) |} in
     {| written := Some out; returned := Some out |}).
Proof.
  unfold Charts2Process.process_charts_csv.
  assert ((if DF.has_col df "song_id" then DF.drop df "song_id" else df)
          = DF.drop df "song_id") as ->.
  { destruct (DF.has_col df "song_id") eqn:E; [easy|].
    now rewrite drop_absent. }
  set (df0 := DF.drop df "song_id").
  assert (wf df0) as W0 by now apply wf_drop.
  assert (DF.has_col df0 "song" = true) as Hs0.
  { unfold df0. rewrite has_col_drop_other by discriminate.
    now apply mem_In. }
  assert (DF.has_col df0 "artist" = true) as Ha0.
  { unfold df0. rewrite has_col_drop_other by discriminate.
    now apply mem_In. }
  unfold Charts2Process.required_columns. cbn [filter].
  rewrite Hs0, Ha0. cbn [negb].
  rewrite (column_cells df0 "artist" W0 Ha0). cbn [bind]. rewrite map_map.
  set (df1 := DF.assign df0 "artist" _).
  assert (wf df1) as W1 by now apply wf_assign.
  assert (rows df1
          = map (fun r => DF.set (DF.del "song_id" r) "artist" (main_artist r))
                (rows df)) as Hrows1.
  { unfold df1. rewrite assign_rows_map. unfold df0. cbn [DF.drop rows].
    rewrite map_map. apply map_ext. intros r. unfold main_artist.
    now rewrite cell_del_other by discriminate. }
  assert (columns df1 = cols0) as Hcols1.
  { unfold df1. cbn [DF.assign columns]. now rewrite Ha0. }
  rewrite (traverse_map _ (fun r1 =>
             match Charts2.generate_song_id (cell r1 "song")
                                            (cell r1 "artist") with
             | Some id => VStr id
             | None => VNaN
             end)).
  2:{ intros r1 Hr1. pose proof (rows_labels df1 r1 W1 Hr1) as Hl.
      rewrite !get_cell
        by (rewrite Hl, Hcols1; apply filter_In; now split). cbn [bind].
      destruct (charts2_generate_song_id_total
                  (cell r1 "song") (cell r1 "artist")) as [k ->].
      reflexivity. }
  cbn [bind].
  set (df2 := DF.assign df1 "song_id" _).
  assert (wf df2) as W2 by now apply wf_assign.
  assert (~ In "song_id"%string cols0) as Hno.
  { unfold cols0. intros Hin. apply filter_In in Hin.
    destruct Hin as [_ Hin]. now rewrite String.eqb_refl in Hin. }
  assert (columns df2 = cols0 ++ ["song_id"%string]) as Hcols2.
  { unfold df2. cbn [DF.assign columns]. unfold DF.has_col.
    rewrite Hcols1. now rewrite (proj2 (mem_false _ _) Hno). }
  assert (rows df2 = map staged (rows df)) as Hrows2.
  { unfold df2. rewrite assign_rows_map, Hrows1, map_map.
    apply map_ext. intros r. unfold staged, id_of, main_artist.
    rewrite cell_set_same.
    now rewrite cell_set_other, cell_del_other by discriminate. }
  assert (filter (fun col => negb (String.eqb col "song_id")) (columns df2)
          = cols0) as ->.
  { rewrite Hcols2, filter_app. cbn [filter]. rewrite String.eqb_refl.
    cbn [negb]. rewrite app_nil_r. now apply filter_absent. }
  rewrite (reindex_cells df2 _ W2).
  2:{ rewrite Hcols2. intros c [<-|Hc]; apply in_or_app;
        [right; now left | now left]. }
  now rewrite Hrows2, map_map.
Qed.

End Charts2Run.

(** X6 — On a table that has its song and artist columns the second
    charts script always succeeds: it writes and returns a table with
    the song_id column first, followed by the other columns in their
    order (an old song_id column is replaced), and with the same
    number of rows.  In each row the artist is replaced by the main
    artist, the identifier is the one generated from the song and the
    main artist, and every other cell is unchanged. *)
Theorem charts2_process_succeeds `{UnicodeDB} (df : DataFrame) :
  wf df ->
  In "song"%string (columns df) -> In "artist"%string (columns df) ->
  exists out,
    Charts2Process.process_charts_csv df
    = {| written := Some out; returned := Some out |}
    /\ wf out
    /\ columns out
       = "song_id"%string
         :: filter (fun k => negb (String.eqb k "song_id")) (columns df)
    /\ length (rows out) = length (rows df)
    /\ forall i r,
         nth_error (rows df) i = Some r ->
         exists r' id,
           nth_error (rows out) i = Some r'
           /\ Charts2.generate_song_id
                (cell r "song")
                (VStr (Charts2.extract_main_artist (cell r "artist")))
              = Some id
           /\ cell r' "song_id" = VStr id
           /\ cell r' "artist"
              = VStr (Charts2.extract_main_artist (cell r "artist"))
           /\ forall c, In c (columns df) -> c <> "song_id"%string ->
                        c <> "artist"%string -> cell r' c = cell r c.
Proof.
  intros Hwf Hsong Hartist. rewrite (charts2_run df Hwf Hsong Hartist).
  cbv zeta. eexists. split; [reflexivity|].
  assert (NoDup ("song_id"%string
                 :: filter (fun k => negb (String.eqb k "song_id"))
                           (columns df))) as Hnd.
  { constructor; [|apply NoDup_filter, Hwf].
    intros Hin. apply filter_In in Hin. destruct Hin as [_ Hin].
    now rewrite String.eqb_refl in Hin. }
  split; [now apply wf_reindexed|]. split; [reflexivity|].
  split; [cbn [rows]; apply length_map|].
  intros i r Hi. cbn [rows]. rewrite nth_error_map, Hi. cbn [option_map].
  destruct (charts2_generate_song_id_total
              (cell r "song")
              (VStr (Charts2.extract_main_artist (cell r "artist"))))
    as [id Hid].
  eexists. exists id. split; [reflexivity|]. split; [exact Hid|].
  destruct (charts2_staged_cells df Hwf Hartist r (nth_error_In _ _ Hi))
    as (Hl & Hsid & Hart & Hother).
  split; [|split].
  - unfold cell at 1. rewrite select_cells_get by now left.
    rewrite Hsid. now rewrite Hid.
  - unfold cell at 1.
    rewrite select_cells_get by (right; apply filter_In; now split).
    exact Hart.
  - intros c Hc N1 N2. unfold cell at 1. rewrite select_cells_get.
    + now apply Hother.
    + right. apply filter_In. split; [easy|].
      apply negb_true_iff. now apply String.eqb_neq.
Qed.

Lemma charts_example_wf : wf charts_example.
Proof.
  split; simpl.
  - repeat (constructor; [simpl; intuition discriminate|]). constructor.
  - repeat constructor.
Qed.

Lemma charts2_process_succeeds_witness :
  exists out,
    Charts2Process.process_charts_csv (H := latin1_db) charts_example
    = {| written := Some out; returned := Some out |}
    /\ columns out = ["song_id"; "rank"; "song"; "artist"]%string
    /\ length (rows out) = 2%nat.
Proof.
  destruct (charts2_process_succeeds
              (H := latin1_db) charts_example charts_example_wf
              (or_intror (or_intror (or_introl eq_refl)))
              (or_intror (or_intror (or_intror (or_introl eq_refl)))))
    as (out & Hrun & _ & Hcols & Hlen & _).
  exists out. split; [exact Hrun|]. split; [exact Hcols | exact Hlen].
Defined.

(** The run of the second charts script on the example table. *)
Example charts2_example_run :
  option_map (fun out => map (fun r => (cell r "song_id", cell r "artist"))
                             (rows out))
             (written (Charts2Process.process_charts_csv
                         (H := latin1_db) charts_example))
  = Some [(VStr (lit "ef5c30a646e852f7ad1069d4d0751fec"), VStr (lit "Adele"));
          (VStr (lit "23f68216c749daa6b2a5e948105626dc"),
           VStr (lit "Elton John"))].
Proof. vm_compute. reflexivity. Qed.

(* ================================================================== *)
(** ** Reading back what the line filter wrote *)

Lemma translate_no_cr (s : str) : ~ In 0x0D (Charts3.translate_newlines s).
Proof.
  assert (forall n s, (length s <= n)%nat ->
                      ~ In 0x0D (Charts3.translate_newlines s)) as Haux.
  { clear s. induction n as [|n IH]; intros s Hlen.
    - destruct s; [easy | simpl in Hlen; lia].
    - destruct s as [|c s]; [easy|]. simpl in Hlen. simpl.
      destruct (Z.eqb_spec c 0x0D) as [->|Hc].
      + destruct s as [|d s]; [intros [E|[]]; discriminate|].
        destruct (d =? 0x0A).
        * intros [E|Hin]; [discriminate|]. revert Hin. apply IH.
          simpl in *. lia.
        * intros [E|Hin]; [discriminate|]. revert Hin. apply IH.
          simpl in *. lia.
      + intros [E|Hin]; [congruence|]. revert Hin. apply IH. lia. }
  now apply (Haux (length s)).
Qed.

Lemma translate_cr_free (s : str) :
  ~ In 0x0D s -> Charts3.translate_newlines s = s.
Proof.
  induction s as [|c s IH]; intros Hno; simpl; [easy|].
  destruct (Z.eqb_spec c 0x0D) as [->|Hc]; [destruct Hno; now left|].
  rewrite IH; [easy|]. intros Hin. apply Hno. now right.
Qed.

Lemma readlines_from_line (b s cur : str) :
  ~ In 0x0A b ->
  Charts3.readlines_from cur (b ++ 0x0A :: s)
  = (rev cur ++ b ++ [0x0A]) :: Charts3.readlines_from [] s.
Proof.
  revert cur. induction b as [|c b IH]; intros cur Hno; simpl.
  - reflexivity.
  - destruct (Z.eqb_spec c 0x0A) as [->|Hc]; [destruct Hno; now left|].
    rewrite IH by (intros Hin; apply Hno; now right).
    simpl. now rewrite <- app_assoc.
Qed.

Lemma readlines_from_last (b cur : str) :
  ~ In 0x0A b -> rev cur ++ b <> [] ->
  Charts3.readlines_from cur b = [rev cur ++ b].
Proof.
  revert cur. induction b as [|c b IH]; intros cur Hno Hne; simpl.
  - rewrite app_nil_r in *. destruct cur as [|x cur]; [easy|].
    reflexivity.
  - destruct (Z.eqb_spec c 0x0A) as [->|Hc]; [destruct Hno; now left|].
    rewrite IH.
    + simpl. now rewrite <- app_assoc.
    + intros Hin. apply Hno. now right.
    + simpl. rewrite <- app_assoc. now destruct (rev cur).
Qed.

(** Reading the concatenation of well-formed lines gives them back. *)
Lemma readlines_concat (lines : list str) :
  file_lines lines -> Charts3.readlines_from [] (concat lines) = lines.
Proof.
  induction 1 as [|l Hne Hno|b ls Hno _ IH]; simpl.
  - reflexivity.
  - rewrite app_nil_r. now rewrite readlines_from_last.
  - rewrite <- app_assoc. simpl.
    now rewrite readlines_from_line, IH.
Qed.

Lemma readlines_from_file_lines (s cur : str) :
  ~ In 0x0A cur -> file_lines (Charts3.readlines_from cur s).
Proof.
  revert cur. induction s as [|c s IH]; intros cur Hno; simpl.
  - destruct cur as [|x cur]; [constructor|].
    apply file_lines_last.
    + simpl. now destruct (rev cur).
    + intros Hin. apply in_rev in Hin. now apply Hno.
  - destruct (Z.eqb_spec c 0x0A) as [->|Hc].
    + simpl. apply file_lines_cons; [|apply IH; easy].
      intros Hin. apply in_rev in Hin. now apply Hno.
    + apply IH. intros [E|Hin]; [congruence | now apply Hno].
Qed.

Lemma readlines_from_chars (s cur line : str) (c : Z) :
  In line (Charts3.readlines_from cur s) -> In c line ->
  In c cur \/ In c s.
Proof.
  revert cur. induction s as [|d s IH]; intros cur Hl Hc; simpl in Hl.
  - destruct cur as [|x cur]; [easy|]. destruct Hl as [<-|[]].
    left. now apply in_rev.
  - destruct (d =? 0x0A).
    + destruct Hl as [<-|Hl].
      * apply in_app_or in Hc. destruct Hc as [Hc|[<-|[]]].
        -- left. now apply in_rev.
        -- right. now left.
      * destruct (IH [] Hl Hc) as [[]|Hin]. right. now right.
    + destruct (IH (d :: cur) Hl Hc) as [[<-|Hin]|Hin].
      * right. now left.
      * now left.
      * right. now right.
Qed.

Lemma rstrip_by_snoc (p : Z -> bool) (s : str) (c : Z) :
  p c = true -> Py.rstrip_by p (s ++ [c]) = Py.rstrip_by p s.
Proof.
  intros Hc. unfold Py.rstrip_by. rewrite rev_app_distr. simpl.
  now rewrite Hc.
Qed.

Lemma In_firstn {A} (n : nat) (l : list A) (x : A) :
  In x (firstn n l) -> In x l.
Proof.
  revert n. induction l as [|y l IH]; intros [|n]; simpl; try easy.
  intros [->|Hin]; [now left | right; now apply (IH n)].
Qed.

(** What the loop writes for a later line, and where its characters
    come from. *)
Lemma process_line_later (i : nat) (line : str) :
  exists body,
    Charts3.process_line (S i) line = body ++ [0x0A]
    /\ forall c, In c body ->
                 In c (Py.rstrip_by Charts3.newline_char line).
Proof.
  unfold Charts3.process_line.
  destruct (Py.endswith _ _); eexists; (split; [reflexivity|]).
  - intros c Hc. now apply In_firstn in Hc.
  - easy.
Qed.

Lemma processed_later_file_lines (lines : list str) (k : nat) :
  file_lines lines ->
  file_lines (map (fun '(i, line) => Charts3.process_line i line)
                  (Charts3.enumerate_from (S k) lines)).
Proof.
  intros Hl. revert k.
  induction Hl as [|l Hne Hno|b ls Hno _ IH]; intros k; simpl.
  - constructor.
  - destruct (process_line_later k l) as (body & E & Hin).
    unfold Charts3.process_line in E. rewrite E.
    apply file_lines_cons; [|constructor].
    intros Hc. apply Hin, rstrip_by_incl in Hc. easy.
  - destruct (process_line_later k (b ++ [0x0A])) as (body & E & Hin).
    unfold Charts3.process_line in E. rewrite E.
    apply file_lines_cons; [|apply IH].
    intros Hc. apply Hin in Hc. rewrite rstrip_by_snoc in Hc by easy.
    apply rstrip_by_incl in Hc. easy.
Qed.

Lemma processed_file_lines (lines : list str) :
  file_lines lines -> file_lines (Charts3.processed_lines lines).
Proof.
  unfold Charts3.processed_lines.
  destruct 1 as [|l Hne Hno|b ls Hno Hl]; simpl.
  - constructor.
  - now constructor.
  - apply file_lines_cons; [easy|].
    now apply processed_later_file_lines.
Qed.

Lemma process_line_chars (i : nat) (line : str) (c : Z) :
  In c (Charts3.process_line i line) -> In c line \/ c = 0x0A.
Proof.
  destruct i as [|i]; [now left|].
  destruct (process_line_later i line) as (body & -> & Hin).
  intros Hc. apply in_app_or in Hc. destruct Hc as [Hc|[<-|[]]].
  - left. apply Hin in Hc. now apply rstrip_by_incl in Hc.
  - now right.
Qed.

Lemma processed_lines_length (lines : list str) :
  length (Charts3.processed_lines lines) = length lines.
Proof.
  unfold Charts3.processed_lines. rewrite length_map.
  generalize 0%nat. induction lines as [|l ls IH]; intros k; simpl;
    [easy | now rewrite IH].
Qed.

(** X7 — Reading back the file that the line filter wrote gives
    exactly the lines it produced, one for each line of the input
    file: the filter neither joins nor breaks lines, and the output
    file has as many lines as the input file. *)
Theorem charts3_read_back (content : str) :
  Charts3.readlines (Charts3.run content)
  = Charts3.processed_lines (Charts3.readlines content)
  /\ length (Charts3.readlines (Charts3.run content))
     = length (Charts3.readlines content).
Proof.
  assert (Charts3.readlines (Charts3.run content)
          = Charts3.processed_lines (Charts3.readlines content)) as E.
  { unfold Charts3.run. unfold Charts3.readlines at 1.
    rewrite translate_cr_free.
    - apply readlines_concat, processed_file_lines.
      now apply readlines_from_file_lines.
    - intros Hin. apply in_concat in Hin. destruct Hin as (l & Hl & Hc).
      unfold Charts3.processed_lines in Hl. apply in_map_iff in Hl.
      destruct Hl as ([i line] & <- & Hil).
      apply process_line_chars in Hc. destruct Hc as [Hc|Hc]; [|easy].
      assert (In line (Charts3.readlines content)) as Hline.
      { clear -Hil. revert Hil. generalize 0%nat.
        induction (Charts3.readlines content) as [|x ls IH]; intros k;
          simpl; [easy|].
        intros [[= _ <-]|Hin]; [now left | right; now apply (IH (S k))]. }
      unfold Charts3.readlines in Hline.
      destruct (readlines_from_chars _ _ _ _ Hline Hc) as [[]|Hin].
      now apply translate_no_cr in Hin. }
  split; [exact E|]. rewrite E. apply processed_lines_length.
Qed.

(* ================================================================== *)
(** ** Dropping a column *)

Lemma has_col_drop_same (df : DataFrame) (c : string) :
  DF.has_col (DF.drop df c) c = false.
Proof.
  unfold DF.has_col. simpl. apply mem_false. intros Hin.
  apply filter_In in Hin. destruct Hin as [_ Hin].
  now rewrite String.eqb_refl in Hin.
Qed.

(** Dropping a column keeps the rows and every other cell. *)
Lemma drop_cells (df : DataFrame) (c : string) :
  length (rows (DF.drop df c)) = length (rows df)
  /\ forall i r,
       nth_error (rows df) i = Some r ->
       exists r', nth_error (rows (DF.drop df c)) i = Some r'
                  /\ forall c', c' <> c -> cell r' c' = cell r c'.
Proof.
  simpl. split; [apply length_map|].
  intros i r Hi. rewrite nth_error_map, Hi. eexists. split; [reflexivity|].
  intros c' Hne. apply cell_del_other. congruence.
Qed.

(** X8 — Dropping the image column of the artists table never fails:
    the written table has no artist_img column, has the other columns
    in their order, the same number of rows and the same value in
    every other cell, whether the column was there or not; running
    the script on its own output changes nothing. *)
Theorem artists3_drops_image_column (df : DataFrame) :
  DF.has_col (Artists3.main df) "artist_img" = false
  /\ columns (Artists3.main df)
     = filter (fun k => negb (String.eqb k "artist_img")) (columns df)
  /\ length (rows (Artists3.main df)) = length (rows df)
  /\ (forall i r,
        nth_error (rows df) i = Some r ->
        exists r', nth_error (rows (Artists3.main df)) i = Some r'
                   /\ forall c, c <> "artist_img"%string ->
                                cell r' c = cell r c)
  /\ (wf df -> wf (Artists3.main df))
  /\ Artists3.main (Artists3.main df) = Artists3.main df.
Proof.
  unfold Artists3.main at 1 2 3 4 5.
  destruct (DF.has_col df "artist_img") eqn:E.
  - split; [apply has_col_drop_same|]. split; [reflexivity|].
    split; [apply drop_cells|]. split; [apply drop_cells|].
    split; [apply wf_drop|].
    unfold Artists3.main. rewrite E. now rewrite has_col_drop_same.
  - split; [exact E|]. split.
    { symmetry. apply filter_absent. now apply mem_false. }
    split; [reflexivity|]. split; [intros i r Hi; now exists r|].
    split; [easy|]. unfold Artists3.main. now rewrite !E.
Qed.

Lemma artists3_drops_image_column_witness :
  DF.has_col artists_final_example "artist_img" = true
  /\ wf (Artists3.main artists_final_example)
  /\ columns (Artists3.main artists_final_example)
     = ["artist_id"; "artist_name"; "artist_genre"; "country"]%string
  /\ map (fun r => map (cell r) (columns (Artists3.main
                                            artists_final_example)))
         (rows (Artists3.main artists_final_example))
     = [ [VStr (lit "a1"); VStr (lit "Adele"); VStr (lit "soul");
          VStr (lit "UK")];
         [VStr (lit "a2"); VStr (lit "Dua Lipa"); VStr (lit "pop");
          VStr (lit "UK")] ].
Proof.
  assert (wf artists_final_example) as Hwf.
  { split; simpl.
    - repeat (constructor; [simpl; intuition discriminate|]). constructor.
    - repeat constructor. }
  destruct (artists3_drops_image_column artists_final_example)
    as (_ & Hcols & _ & _ & Hout & _).
  split; [reflexivity|]. split; [exact (Hout Hwf)|].
  split; [exact Hcols | reflexivity].
Defined.

(** X9 — Removing the release date is refused on a table without
    that column: nothing is written and the script reports failure.
    On a table with the column it writes the table without it — the
    other columns in their order, the same number of rows and the
    same value in every other cell — and reports success. *)
Theorem tracks4_removes_release_date (df : DataFrame) :
  (DF.has_col df "release_date" = false ->
   Tracks4.remove_release_date_column df = (None, false))
  /\ (DF.has_col df "release_date" = true ->
      exists out,
        Tracks4.remove_release_date_column df = (Some out, true)
        /\ DF.has_col out "release_date" = false
        /\ columns out
           = filter (fun k => negb (String.eqb k "release_date"))
                    (columns df)
        /\ length (rows out) = length (rows df)
        /\ (forall i r,
              nth_error (rows df) i = Some r ->
              exists r', nth_error (rows out) i = Some r'
                         /\ forall c, c <> "release_date"%string ->
                                      cell r' c = cell r c)
        /\ (wf df -> wf out)).
Proof.
  unfold Tracks4.remove_release_date_column. split; intros ->; cbn [negb].
  - reflexivity.
  - eexists. split; [reflexivity|]. split; [apply has_col_drop_same|].
    split; [reflexivity|]. split; [apply drop_cells|].
    split; [apply drop_cells | apply wf_drop].
Qed.

Lemma tracks4_removes_release_date_witness :
  Tracks4.remove_release_date_column charts_example = (None, false)
  /\ exists out,
       Tracks4.remove_release_date_column
         {| columns := ["name"; "release_date"]%string;
            rows := [ [("name", VStr (lit "Hello"));
                       ("release_date", VStr (lit "2015-10-23"))]%string ] |}
       = (Some out, true)
       /\ columns out = ["name"%string].
Proof.
  split.
  - exact (proj1 (tracks4_removes_release_date charts_example) eq_refl).
  - destruct (proj2 (tracks4_removes_release_date
                       {| columns := ["name"; "release_date"]%string;
                          rows := [ [("name", VStr (lit "Hello"));
                                     ("release_date",
                                      VStr (lit "2015-10-23"))]%string ] |})
                    eq_refl) as (out & E & _ & Hc & _).
    exists out. split; [exact E | exact Hc].
Defined.

(* ================================================================== *)
(** ** The main artist of a track *)

Lemma startswith_bracket (s : str) :
  Py.startswith s (lit "[") = true <-> exists t, s = 0x5B :: t.
Proof.
  unfold Py.startswith. destruct s as [|c s]; simpl.
  - split; [easy | now intros [t Ht]].
  - rewrite andb_true_r, Z.eqb_eq. split.
    + intros ->. now exists s.
    + now intros [t [= -> _]].
Qed.

Lemma split_on_from_chars (sep : Z) (s tok piece : str) (c : Z) :
  In piece (Py.split_on_from sep tok s) -> In c piece ->
  In c tok \/ In c s.
Proof.
  revert tok. induction s as [|d s IH]; intros tok Hp Hc; simpl in Hp.
  - destruct Hp as [<-|[]]. left. now apply in_rev.
  - destruct (d =? sep).
    + destruct Hp as [<-|Hp]; [left; now apply in_rev|].
      destruct (IH [] Hp Hc) as [[]|Hin]. right. now right.
    + destruct (IH (d :: tok) Hp Hc) as [[<-|Hin]|Hin].
      * right. now left.
      * now left.
      * right. now right.
Qed.

Lemma split_on_first_chars (sep : Z) (s : str) (c : Z) :
  In c (hd [] (Py.split_on sep s)) -> In c s.
Proof.
  unfold Py.split_on.
  destruct (Py.split_on_from sep [] s) as [|w ws] eqn:E; [easy|].
  intros Hc.
  destruct (split_on_from_chars sep s [] w c) as [[]|Hin]; try easy.
  rewrite E. now left.
Qed.

Section Tracks1Facts.
Variable literal_eval : str -> Tracks1.eval_outcome.

(** X10 — The main artist of a track cell: a missing cell stays
    missing, a number becomes its text, and a text that does not
    start with a bracket is only trimmed (so a blank text gives the
    empty text, not a missing value).  Whatever text is produced from
    a text has no whitespace at its ends.  When the list literal
    cannot be parsed, the manual fallback gives a text that is not
    empty and holds no comma and no quote, or a missing value.  The
    function raises exactly when the parser raises an error it does
    not catch or the first item of the list is no text. *)
Theorem tracks1_extract_main_artist (s : str) :
  Tracks1.extract_main_artist literal_eval VNaN = Some VNaN
  /\ (forall z, Tracks1.extract_main_artist literal_eval (VInt z)
                = Some (VStr (Py.str_of_int z)))
  /\ (Py.startswith s (lit "[") = false ->
      Tracks1.extract_main_artist literal_eval (VStr s)
      = Some (VStr (Py.strip s)))
  /\ (forall t, Tracks1.extract_main_artist literal_eval (VStr s)
                = Some (VStr t) -> Py.strip t = t)
  /\ (forall t, Py.startswith s (lit "[") = true ->
                literal_eval s = Tracks1.EvalCaught ->
                Tracks1.extract_main_artist literal_eval (VStr s)
                = Some (VStr t) ->
                t <> [] /\ ~ In 0x2C t /\ ~ In 0x27 t /\ ~ In 0x22 t)
  /\ (Tracks1.extract_main_artist literal_eval (VStr s) = None <->
      Py.startswith s (lit "[") = true
      /\ (literal_eval s = Tracks1.EvalUncaught
          \/ exists rest,
               literal_eval s = Tracks1.EvalList (Tracks1.LOther :: rest))).
Proof.
  split; [reflexivity|]. split; [reflexivity|].
  unfold Tracks1.extract_main_artist. cbn [isna].
  destruct (Py.startswith s (lit "[")) eqn:Hb; cbn [negb].
  - apply startswith_bracket in Hb. destruct Hb as [u ->].
    set (s := 0x5B :: u).
    assert (existsb (Z.eqb 0x5B) s = true) as -> by reflexivity.
    remember (Py.strip (hd [] (Py.split_on 0x2C
                (Py.remove_char 0x22
                   (Py.remove_char 0x27 (Py.strip_by Tracks1.bracket s))))))
      as first eqn:Efirst.
    assert (forall c, In c first -> c <> 0x2C /\ c <> 0x27 /\ c <> 0x22)
      as Hfirst.
    { intros c Hc. rewrite Efirst in Hc. apply strip_incl in Hc.
      split.
      - intros ->. now apply split_on_first_no_sep in Hc.
      - apply split_on_first_chars in Hc. unfold Py.remove_char in Hc.
        apply filter_In in Hc. destruct Hc as [Hc N1].
        apply filter_In in Hc. destruct Hc as [_ N2].
        apply negb_true_iff, Z.eqb_neq in N1, N2. easy. }
    assert (Py.strip first = first) as Hstrip
        by (rewrite Efirst; apply strip_idem).
    clear Efirst. split; [easy|].
    destruct (literal_eval s) as [[|[a|] rest]| |].
    + split; [intros t E; discriminate|].
      split; [intros t _ E; discriminate|].
      split; [intros E; discriminate|].
      intros [_ [E|[r E]]]; discriminate.
    + split; [intros t [= <-]; apply strip_idem|].
      split; [intros t _ E; discriminate|].
      split; [intros E; discriminate|].
      intros [_ [E|[r E]]]; discriminate.
    + split; [intros t E; discriminate|].
      split; [intros t _ E; discriminate|].
      split; [|reflexivity].
      intros _. split; [reflexivity|]. right. now exists rest.
    + split; [|split].
      * intros t E. destruct first as [|x f]; [discriminate|].
        injection E as <-. exact Hstrip.
      * intros t _ _ E. destruct first as [|x f]; [discriminate|].
        injection E as <-. split; [discriminate|].
        repeat split; intros Hin; destruct (Hfirst _ Hin) as (?&?&?);
          congruence.
      * split; [destruct first; intros E; discriminate|].
        intros [_ [E|[r E]]]; discriminate.
    + split; [intros t E; discriminate|].
      split; [intros t _ E; discriminate|].
      split; [|reflexivity].
      intros _. split; [reflexivity | now left].
  - split; [easy|]. split; [intros t [= <-]; apply strip_idem|].
    split; [easy|]. split; [easy | now intros [? _]].
Qed.

End Tracks1Facts.

Lemma tracks1_extract_main_artist_witness :
  Tracks1.extract_main_artist (fun _ => Tracks1.EvalCaught)
                              (VStr (lit "  Adele "))
  = Some (VStr (lit "Adele"))
  /\ ~ In 0x2C (lit "A").
Proof.
  pose proof (tracks1_extract_main_artist (fun _ => Tracks1.EvalCaught))
    as W.
  split.
  - exact (proj1 (proj2 (proj2 (W (lit "  Adele ")))) eq_refl).
  - exact (proj1 (proj2 (proj1 (proj2 (proj2 (proj2 (proj2
             (W (lit "['A', 'B")))))) (lit "A") eq_refl eq_refl eq_refl))).
Defined.

(* ================================================================== *)
(** ** The first tracks script *)

Lemma get_filter_labels (p : string -> bool) (r : row) (c : string) :
  p c = true -> DF.get (filter (fun kv => p (fst kv)) r) c = DF.get r c.
Proof.
  intros Hc. induction r as [|[k v] r IH]; simpl; [easy|].
  destruct (p k) eqn:Hk; simpl.
  - now rewrite IH.
  - destruct (String.eqb k c) eqn:E; [|easy].
    apply String.eqb_eq in E. congruence.
Qed.

Lemma map_fst_filter_labels (p : string -> bool) (r : row) :
  map fst (filter (fun kv => p (fst kv)) r) = filter p (map fst r).
Proof.
  induction r as [|[k v] r IH]; simpl; [easy|].
  destruct (p k); simpl; now rewrite IH.
Qed.

Lemma wf_drop_columns (df : DataFrame) (cs : list string) :
  wf df -> wf (DF.drop_columns df cs).
Proof.
  intros [Hnd Hrows]. split; simpl.
  - now apply NoDup_filter.
  - apply Forall_map.
    apply (Forall_impl _ (P := fun r => map fst r = columns df)); [|easy].
    intros r Hr.
    now rewrite (map_fst_filter_labels (fun k => negb (DF.mem k cs))), Hr.
Qed.

(** Dropping the columns that exist among [cs] drops [cs]. *)
Lemma drop_existing_columns (df : DataFrame) (cs : list string) :
  wf df ->
  match filter (DF.has_col df) cs with
  | [] => df
  | _ => DF.drop_columns df (filter (DF.has_col df) cs)
  end = DF.drop_columns df cs.
Proof.
  intros Hwf.
  assert (forall k, In k (columns df) ->
                    DF.mem k (filter (DF.has_col df) cs) = DF.mem k cs) as Hk.
  { intros k Hin. destruct (DF.mem k cs) eqn:E.
    - apply mem_In. apply filter_In. split; [now apply mem_In|].
      now apply mem_In.
    - apply mem_false. intros Hf. apply filter_In in Hf.
      apply mem_false in E. now destruct Hf. }
  assert (DF.drop_columns df (filter (DF.has_col df) cs)
          = DF.drop_columns df cs) as E.
  { unfold DF.drop_columns. f_equal.
    - apply filter_ext_in. intros k Hin. now rewrite Hk.
    - apply map_ext_in. intros r Hr. apply filter_ext_in.
      intros [k v] Hin. simpl. rewrite Hk; [easy|].
      rewrite <- (rows_labels df r Hwf Hr). apply in_map_iff.
      now exists (k, v). }
  destruct (filter (DF.has_col df) cs) as [|c l] eqn:Ef; [|exact E].
  rewrite <- E. unfold DF.drop_columns. simpl. destruct df as [cols rs].
  simpl. f_equal.
  - clear. induction cols; simpl; [easy | now f_equal].
  - clear. induction rs as [|r rs IH]; simpl; [easy|]. f_equal; [|exact IH].
    induction r; simpl; [easy | now f_equal].
Qed.

Lemma traverse_fails {A B} (f : A -> option B) (l : list A) (x : A) :
  In x l -> f x = None -> DF.traverse f l = None.
Proof.
  induction l as [|y l IH]; simpl; [easy|].
  intros [->|Hin] Hx; [now rewrite Hx|].
  destruct (f y); [|easy]. simpl. now rewrite IH.
Qed.

Lemma traverse_of_map {A B C} (f : B -> option C) (g : A -> B)
      (l : list A) :
  DF.traverse f (map g l) = DF.traverse (fun x => f (g x)) l.
Proof.
  induction l as [|x l IH]; simpl; [easy | now rewrite IH].
Qed.

Section Tracks1Run.
Variable literal_eval : str -> Tracks1.eval_outcome.
Variable df : DataFrame.
Hypothesis Hwf : wf df.

Let kept (k : string) : bool := negb (DF.mem k Tracks1.columns_to_remove).

Let df0 : DataFrame := DF.drop_columns df Tracks1.columns_to_remove.

Lemma tracks1_kept_cell (r : row) (c : string) :
  kept c = true ->
  cell (filter (fun kv => kept (fst kv)) r) c = cell r c.
Proof.
  intros Hc. unfold cell.
  now rewrite (get_filter_labels kept r c Hc).
Qed.

Lemma tracks1_fails :
  DF.has_col df "artists" = true ->
  (exists r, In r (rows df)
             /\ Tracks1.extract_main_artist literal_eval (cell r "artists")
                = None) ->
  Tracks1.process_music_csv literal_eval df = failed.
Proof.
  intros Hart [r [Hr Hnone]]. unfold Tracks1.process_music_csv.
  rewrite (drop_existing_columns df _ Hwf). fold df0.
  assert (DF.has_col df0 "artists" = true) as Ha0.
  { apply mem_In. apply filter_In. split; [now apply mem_In | easy]. }
  rewrite Ha0.
  rewrite (column_cells df0 "artists" (wf_drop_columns _ _ Hwf) Ha0).
  cbn [bind]. rewrite traverse_of_map.
  rewrite (traverse_fails _ _ (filter (fun kv => kept (fst kv)) r)).
  - reflexivity.
  - unfold df0. simpl. apply in_map_iff. now exists r.
  - now rewrite tracks1_kept_cell.
Qed.

Lemma tracks1_run :
  (DF.has_col df "artists" = true ->
   forall r, In r (rows df) ->
             Tracks1.extract_main_artist literal_eval (cell r "artists")
             <> None) ->
  exists out,
    Tracks1.process_music_csv literal_eval df
    = {| written := Some out; returned := Some out |}
    /\ wf out
    /\ columns out = filter kept (columns df)
    /\ length (rows out) = length (rows df)
    /\ forall i r,
         nth_error (rows df) i = Some r ->
         exists r',
           nth_error (rows out) i = Some r'
           /\ (DF.has_col df "artists" = true ->
               Tracks1.extract_main_artist literal_eval (cell r "artists")
               = Some (cell r' "artists"))
           /\ forall c, kept c = true -> c <> "artists"%string ->
                        cell r' c = cell r c.
Proof.
  intros Hok. unfold Tracks1.process_music_csv.
  rewrite (drop_existing_columns df _ Hwf). fold df0.
  assert (wf df0) as W0 by now apply wf_drop_columns.
  assert (DF.has_col df0 "artists" = DF.has_col df "artists") as Ha0.
  { unfold DF.has_col. destruct (DF.mem "artists" (columns df)) eqn:E.
    - apply mem_In. apply filter_In. split; [now apply mem_In | easy].
    - apply mem_false. apply mem_false in E. intros Hin.
      apply filter_In in Hin. now destruct Hin. }
  rewrite Ha0. destruct (DF.has_col df "artists") eqn:Hart.
  - set (g := fun r0 : row =>
                match Tracks1.extract_main_artist literal_eval
                                                  (cell r0 "artists") with
                | Some v => v
                | None => VNaN
                end).
    rewrite (column_cells df0 "artists" W0 Ha0). cbn [bind].
    rewrite traverse_of_map.
    rewrite (traverse_map _ g).
    2:{ intros r0 Hr0. unfold g. unfold df0 in Hr0. simpl in Hr0.
        apply in_map_iff in Hr0. destruct Hr0 as [r [<- Hr]].
        fold kept. rewrite tracks1_kept_cell by easy.
        specialize (Hok eq_refl r Hr).
        now destruct (Tracks1.extract_main_artist literal_eval _). }
    cbn [bind]. eexists. split; [reflexivity|].
    split; [now apply wf_assign|]. split.
    { cbn [DF.assign columns]. now rewrite Ha0. }
    rewrite assign_rows_map. split.
    { rewrite length_map. unfold df0. simpl. apply length_map. }
    intros i r Hi. unfold df0. cbn [DF.drop_columns rows].
    rewrite map_map, (map_nth_error _ _ _ Hi).
    eexists. split; [reflexivity|]. fold kept. split.
    + intros _. rewrite cell_set_same. unfold g.
      rewrite tracks1_kept_cell by easy.
      specialize (Hok eq_refl r (nth_error_In _ _ Hi)).
      now destruct (Tracks1.extract_main_artist literal_eval _).
    + intros c Hc Hne. rewrite cell_set_other by congruence.
      now apply tracks1_kept_cell.
  - exists df0. split; [reflexivity|]. split; [exact W0|].
    split; [reflexivity|]. split; [unfold df0; simpl; apply length_map|].
    intros i r Hi. unfold df0. cbn [DF.drop_columns rows].
    rewrite (map_nth_error _ _ _ Hi).
    eexists. split; [reflexivity|]. split; [easy|].
    intros c Hc _. fold kept. now apply tracks1_kept_cell.
Qed.

End Tracks1Run.

(** X11 — The first tracks script writes the table without the
    columns id, album_id, artist_ids, track_number and disc_number
    (whichever of them exist), with the other columns in their order
    and the same number of rows; the artists cell of every row is
    replaced by its main artist and every other cell is unchanged.
    A table without artists column is written all the same.  When
    the extraction raises for one row, nothing is written at all. *)
Theorem tracks1_process_music_csv
        (literal_eval : str -> Tracks1.eval_outcome) (df : DataFrame) :
  wf df ->
  ((DF.has_col df "artists" = true ->
    forall r, In r (rows df) ->
              Tracks1.extract_main_artist literal_eval (cell r "artists")
              <> None) ->
   exists out,
     Tracks1.process_music_csv literal_eval df
     = {| written := Some out; returned := Some out |}
     /\ wf out
     /\ columns out
        = filter (fun k => negb (DF.mem k Tracks1.columns_to_remove))
                 (columns df)
     /\ length (rows out) = length (rows df)
     /\ forall i r,
          nth_error (rows df) i = Some r ->
          exists r',
            nth_error (rows out) i = Some r'
            /\ (DF.has_col df "artists" = true ->
                Tracks1.extract_main_artist literal_eval (cell r "artists")
                = Some (cell r' "artists"))
            /\ forall c, DF.mem c Tracks1.columns_to_remove = false ->
                         c <> "artists"%string -> cell r' c = cell r c)
  /\ (DF.has_col df "artists" = true ->
      (exists r, In r (rows df)
                 /\ Tracks1.extract_main_artist literal_eval
                                                (cell r "artists") = None) ->
      Tracks1.process_music_csv literal_eval df = failed).
Proof.
  intros Hwf. split.
  - intros Hok.
    destruct (tracks1_run literal_eval df Hwf Hok)
      as (out & Hrun & Hw & Hc & Hl & Hrows).
    exists out. split; [exact Hrun|]. split; [exact Hw|].
    split; [exact Hc|]. split; [exact Hl|].
    intros i r Hi. destruct (Hrows i r Hi) as (r' & Hn & Ha & Ho).
    exists r'. split; [exact Hn|]. split; [exact Ha|].
    intros c Hc' Hne. apply Ho; [now rewrite Hc' | exact Hne].
  - now apply tracks1_fails.
Qed.

Lemma music_example_wf : wf music_example.
Proof.
  split; simpl.
  - repeat (constructor; [simpl; intuition discriminate|]). constructor.
  - repeat constructor.
Qed.

Lemma tracks1_process_music_csv_witness :
  exists out,
    Tracks1.process_music_csv (fun _ => Tracks1.EvalCaught) music_example
    = {| written := Some out; returned := Some out |}
    /\ columns out = ["name"; "artists"]%string.
Proof.
  destruct (proj1 (tracks1_process_music_csv
                     (fun _ => Tracks1.EvalCaught) music_example
                     music_example_wf))
    as (out & Hrun & _ & Hc & _).
  - intros _ r [<-|[<-|[]]]; discriminate.
  - exists out. split; [exact Hrun | exact Hc].
Defined.

(* ================================================================== *)
(** ** The tables of the artist identifiers *)

Lemma set_add_In (x : str) (s : list str) (y : str) :
  In y (Artists1Process.set_add x s) <-> y = x \/ In y s.
Proof.
  unfold Artists1Process.set_add.
  destruct (existsb (Py.str_eqb x) s) eqn:E.
  - split; [now right|]. intros [->|Hy]; [|exact Hy].
    apply existsb_exists in E as (z & Hz & Ez).
    apply str_eqb_eq in Ez. now subst.
  - rewrite in_app_iff. simpl. intuition.
Qed.

Lemma set_add_NoDup (x : str) (s : list str) :
  NoDup s -> NoDup (Artists1Process.set_add x s).
Proof.
  unfold Artists1Process.set_add.
  destruct (existsb (Py.str_eqb x) s) eqn:E; [easy|].
  intros Hs. apply NoDup_rev in Hs. rewrite <- (rev_involutive (s ++ [x])).
  apply NoDup_rev. rewrite rev_app_distr. simpl. constructor; [|exact Hs].
  intros Hin. apply in_rev in Hin.
  assert (existsb (Py.str_eqb x) s = true); [|congruence].
  apply existsb_exists. exists x. split; [exact Hin|]. now apply str_eqb_eq.
Qed.

Lemma set_update_spec (xs s : list str) :
  (forall y, In y (Artists1Process.set_update s xs) <-> In y s \/ In y xs)
  /\ (NoDup s -> NoDup (Artists1Process.set_update s xs)).
Proof.
  unfold Artists1Process.set_update. revert s.
  induction xs as [|x xs IH]; intros s; simpl.
  - split; [intuition|easy].
  - destruct (IH (Artists1Process.set_add x s)) as [IHin IHnd]. split.
    + intros y. rewrite IHin, set_add_In. intuition.
    + intros Hs. now apply IHnd, set_add_NoDup.
Qed.

Lemma collect_from_spec (cells : list value) (acc : list str) :
  let step := fun acc artists_str =>
                if isna artists_str then acc
                else Artists1Process.set_update
                       acc (Artists1.split_artists artists_str) in
  (forall y, In y (fold_left step cells acc)
             <-> In y acc \/ In y (named_artists cells))
  /\ (NoDup acc -> NoDup (fold_left step cells acc)).
Proof.
  intros step. revert acc.
  induction cells as [|v cells IH]; intros acc; simpl.
  - split; [intuition|easy].
  - destruct (IH (step acc v)) as [IHin IHnd]. split.
    + intros y. rewrite IHin, in_app_iff. unfold step at 1.
      destruct (isna v); simpl; [intuition|].
      rewrite (proj1 (set_update_spec _ _)). intuition.
    + intros Hacc. apply IHnd. unfold step.
      destruct (isna v); [exact Hacc|].
      now apply (proj2 (set_update_spec _ _)).
Qed.

Lemma collect_artists_spec (cells : list value) :
  (forall y, In y (Artists1Process.collect_artists cells)
             <-> In y (named_artists cells))
  /\ NoDup (Artists1Process.collect_artists cells).
Proof.
  destruct (collect_from_spec cells []) as [Hin Hnd]. split.
  - intros y. unfold Artists1Process.collect_artists. rewrite Hin.
    simpl. intuition.
  - apply Hnd. constructor.
Qed.

Lemma str_ltb_asym (a b : str) :
  Artists1Process.str_ltb a b = true -> Artists1Process.str_ltb b a = false.
Proof.
  revert b. induction a as [|x a IH]; intros [|y b]; simpl; try easy.
  intros Hlt. apply orb_true_iff in Hlt as [Hlt|Hlt].
  - apply Z.ltb_lt in Hlt.
    replace (y <? x) with false by (symmetry; apply Z.ltb_ge; lia).
    replace (y =? x) with false by (symmetry; apply Z.eqb_neq; lia).
    reflexivity.
  - apply andb_true_iff in Hlt as [Heq Hlt]. apply Z.eqb_eq in Heq.
    subst y. rewrite Z.ltb_irrefl, Z.eqb_refl. simpl. now apply IH.
Qed.

Lemma insert_In (x : str) (l : list str) (y : str) :
  In y (Artists1Process.insert x l) <-> y = x \/ In y l.
Proof.
  induction l as [|z l IH]; simpl; [intuition|].
  destruct (Artists1Process.str_ltb z x); simpl; [rewrite IH|]; intuition.
Qed.

Lemma insert_NoDup (x : str) (l : list str) :
  ~ In x l -> NoDup l -> NoDup (Artists1Process.insert x l).
Proof.
  induction l as [|z l IH]; simpl; intros Hx Hl.
  - constructor; [easy|constructor].
  - destruct (Artists1Process.str_ltb z x).
    + inversion Hl; subst. constructor.
      * rewrite insert_In. intros [->|Hz]; [apply Hx; now left|easy].
      * apply IH; [|assumption]. intros Hin. apply Hx. now right.
    + constructor; [exact Hx | exact Hl].
Qed.

Lemma insert_ascending (x : str) (l : list str) :
  ascending l = true -> ascending (Artists1Process.insert x l) = true.
Proof.
  induction l as [|y l IH]; [reflexivity|].
  intros Hl. cbn [Artists1Process.insert].
  destruct (Artists1Process.str_ltb y x) eqn:Eyx.
  - destruct l as [|z l].
    + cbn. now rewrite (str_ltb_asym _ _ Eyx).
    + cbn [ascending] in Hl. apply andb_true_iff in Hl as [Hzy Hl].
      specialize (IH Hl). cbn [Artists1Process.insert] in *.
      destruct (Artists1Process.str_ltb z x) eqn:Ezx.
      * change (negb (Artists1Process.str_ltb z y)
                && ascending (z :: Artists1Process.insert x l) = true).
        now rewrite Hzy, IH.
      * change (negb (Artists1Process.str_ltb x y)
                && ascending (x :: z :: l) = true).
        now rewrite (str_ltb_asym _ _ Eyx), IH.
  - change (negb (Artists1Process.str_ltb y x) && ascending (y :: l) = true).
    now rewrite Eyx, Hl.
Qed.

Lemma sorted_spec (xs : list str) :
  (forall y, In y (Artists1Process.sorted xs) <-> In y xs)
  /\ (NoDup xs -> NoDup (Artists1Process.sorted xs))
  /\ ascending (Artists1Process.sorted xs) = true.
Proof.
  induction xs as [|x xs (IHin & IHnd & IHasc)]; simpl.
  - split; [intuition|]. split; [easy|reflexivity].
  - split; [|split].
    + intros y. rewrite insert_In, IHin. intuition.
    + intros Hnd. inversion Hnd; subst.
      apply insert_NoDup; [now rewrite IHin | now apply IHnd].
    + now apply insert_ascending.
Qed.

Lemma dict_get_combine (names ids : list str) (i : nat) (k v : str) :
  NoDup names -> nth_error names i = Some k -> nth_error ids i = Some v ->
  Artists1.dict_get (combine names ids) k = Some v.
Proof.
  revert ids i. induction names as [|a names IH]; intros [|b ids] [|i] Hnd;
    simpl; try discriminate.
  - intros [= ->] [= ->]. now rewrite (proj2 (str_eqb_eq k k) eq_refl).
  - intros Hk Hv. inversion Hnd; subst.
    destruct (Py.str_eqb a k) eqn:E.
    + apply str_eqb_eq in E. subst a. exfalso.
      apply H1. eapply nth_error_In, Hk.
    + now apply (IH ids i).
Qed.

Lemma split_on_join_commas (ids : list str) :
  ids <> [] -> Forall (fun id => ~ In 0x2C id) ids ->
  Py.split_on 0x2C (Py.join (lit ",") ids) = ids.
Proof.
  unfold Py.split_on. induction ids as [|w ids IH]; [easy|].
  intros _ Hall. inversion Hall; subst. destruct ids as [|w' ids].
  - simpl. now rewrite split_on_from_whole.
  - change (Py.join (lit ",") (w :: w' :: ids))
      with (w ++ 0x2C :: Py.join (lit ",") (w' :: ids)).
    rewrite split_on_from_head by assumption. simpl rev. simpl app at 1.
    f_equal. now apply IH.
Qed.

Lemma hex_no_comma (id : str) : forallb hex_char id = true -> ~ In 0x2C id.
Proof.
  intros Hall Hin. rewrite forallb_forall in Hall.
  now specialize (Hall _ Hin).
Qed.

Section Artists1Run.
Context `{UnicodeDB}.

Lemma artists1_dict (names ids : list str) :
  NoDup names ->
  DF.traverse Artists1.generate_artist_id names = Some ids ->
  forall p, In p names ->
    exists id, Artists1.dict_get (combine names ids) p = Some id
               /\ Artists1.generate_artist_id p = Some id.
Proof.
  intros Hnd Htr p Hp. apply In_nth_error in Hp as [i Hi].
  destruct (proj2 (traverse_nth _ _ _ Htr) i p Hi) as (id & Hid & Hgen).
  exists id. split; [|exact Hgen]. now apply (dict_get_combine _ _ i).
Qed.

Lemma artists1_rows (names ids : list str) :
  DF.traverse Artists1.generate_artist_id names = Some ids ->
  Forall2 (fun n r =>
             exists id, Artists1.generate_artist_id n = Some id
                        /\ r = [("artist_id"%string, VStr id);
                                ("artist_name"%string, VStr n)])
          names
          (map (fun kv => [("artist_id"%string, VStr (snd kv));
                           ("artist_name"%string, VStr (fst kv))])
               (combine names ids)).
Proof.
  revert ids. induction names as [|n names IH]; intros ids; simpl.
  - intros _. constructor.
  - destruct (Artists1.generate_artist_id n) as [id|] eqn:Egen;
      [|discriminate]. simpl.
    destruct (DF.traverse Artists1.generate_artist_id names) as [ids'|];
      [|discriminate]. simpl. intros [= <-]. simpl. constructor.
    + now exists id.
    + now apply IH.
Qed.

Lemma found_ids (d : Artists1.dict) (pieces : list str) :
  (forall p, In p pieces ->
     exists id, Artists1.dict_get d p = Some id
                /\ Artists1.generate_artist_id p = Some id) ->
  map Artists1.generate_artist_id pieces
  = map Some
        (flat_map (fun artist =>
                     match Artists1.dict_get d artist with
                     | Some id => [id]
                     | None => []
                     end) pieces).
Proof.
  induction pieces as [|p pieces IH]; intros Hall; [reflexivity|].
  destruct (Hall p (or_introl eq_refl)) as (id & Hd & Hgen).
  simpl. rewrite Hd, Hgen. simpl. f_equal.
  apply IH. intros q Hq. apply Hall. now right.
Qed.

Lemma generated_no_comma (pieces ids : list str) :
  map Artists1.generate_artist_id pieces = map Some ids ->
  Forall (fun id => ~ In 0x2C id) ids.
Proof.
  revert ids. induction pieces as [|p pieces IH]; intros [|id ids];
    simpl; try discriminate; [constructor|].
  intros [= Hgen Hrest]. constructor; [|now apply IH].
  apply hex_no_comma. now apply (md5_hex_format _ _ Hgen).
Qed.

Lemma get_artist_ids_found (d : Artists1.dict) (v : value) :
  isna v = false ->
  (forall p, In p (Artists1.split_artists v) ->
     exists id, Artists1.dict_get d p = Some id
                /\ Artists1.generate_artist_id p = Some id) ->
  exists ids,
    Artists1.get_artist_ids d v = VStr (Py.join (lit ",") ids)
    /\ map Artists1.generate_artist_id (Artists1.split_artists v)
       = map Some ids
    /\ Py.split_on 0x2C (Py.join (lit ",") ids) = ids.
Proof.
  intros Hna Hall. pose proof (found_ids d _ Hall) as Hmap.
  unfold Artists1.get_artist_ids. rewrite Hna.
  set (ids := flat_map _ _) in *. exists ids.
  assert (ids <> []) as Hne.
  { intros E. rewrite E in Hmap. apply (f_equal (@length _)) in Hmap.
    rewrite !length_map in Hmap. unfold Artists1.split_artists in Hmap.
    rewrite length_map in Hmap. unfold Py.split_on in Hmap.
    rewrite split_on_from_length in Hmap. discriminate. }
  split; [|split].
  - destruct ids; [easy|reflexivity].
  - exact Hmap.
  - apply split_on_join_commas; [exact Hne|].
    now apply (generated_no_comma _ _ Hmap).
Qed.

Lemma aligned_table (d : Artists1.dict) (col : string) (df : DataFrame)
      (cells : list value) :
  wf df -> DF.column df col = Some cells ->
  (forall p, In p (named_artists cells) ->
     exists id, Artists1.dict_get d p = Some id
                /\ Artists1.generate_artist_id p = Some id) ->
  ids_aligned col df
    (DF.assign df "artist_id" (map (Artists1.get_artist_ids d) cells)).
Proof.
  intros Hwf Hcol Hall.
  assert (DF.has_col df col = true) as Hhas.
  { unfold DF.column in Hcol. destruct (DF.has_col df col); easy. }
  rewrite (column_cells df col Hwf Hhas) in Hcol. injection Hcol as <-.
  rewrite map_map. unfold ids_aligned.
  rewrite (assign_rows_map df "artist_id"
             (fun r => Artists1.get_artist_ids d (cell r col))).
  split; [now rewrite length_map|].
  intros i r Hi. eexists. split; [exact (map_nth_error _ _ _ Hi)|].
  split.
  - intros c Hc. apply cell_set_other. congruence.
  - rewrite cell_set_same. destruct (isna (cell r col)) eqn:Hna.
    + unfold Artists1.get_artist_ids. now rewrite Hna.
    + apply get_artist_ids_found; [exact Hna|].
      intros p Hp. apply Hall. unfold named_artists.
      apply in_flat_map. exists (cell r col). split.
      * apply in_map_iff. exists r. split; [reflexivity|].
        eapply nth_error_In, Hi.
      * now rewrite Hna.
Qed.

Lemma all_artists_spec (tcells ccells : list value) :
  let names :=
    Artists1Process.sorted
      (Artists1Process.set_update
         (Artists1Process.collect_artists tcells)
         (Artists1Process.collect_artists ccells)) in
  NoDup names /\ ascending names = true
  /\ forall x, In x names
               <-> In x (named_artists tcells ++ named_artists ccells).
Proof.
  intros names. unfold names.
  destruct (sorted_spec
              (Artists1Process.set_update
                 (Artists1Process.collect_artists tcells)
                 (Artists1Process.collect_artists ccells)))
    as (Hin & Hnd & Hasc).
  destruct (set_update_spec (Artists1Process.collect_artists ccells)
                            (Artists1Process.collect_artists tcells))
    as (Uin & Und).
  destruct (collect_artists_spec tcells) as (Tin & Tnd).
  destruct (collect_artists_spec ccells) as (Cin & Cnd).
  split; [now apply Hnd, Und|]. split; [exact Hasc|].
  intros x. rewrite Hin, Uin, Tin, Cin, in_app_iff. reflexivity.
Qed.

End Artists1Run.

(** X12 — The artists table of [process_csv_files].  When the tracks
    table has the column artists, the charts table has the column
    artist and every artist named in them can be encoded, the three
    tables are produced.  The artists table has the columns artist_id
    and artist_name and one row for each name: the names are exactly
    the artists named in a cell of either table that is not missing
    (pieces between commas, stripped), each listed once, in ascending
    order of their code points, each with the identifier generated
    from it. *)
Theorem artists1_table `{UnicodeDB} (tracks_df charts_df : DataFrame)
        (tcells ccells : list value) :
  DF.column tracks_df "artists" = Some tcells ->
  DF.column charts_df "artist" = Some ccells ->
  (forall a, In a (named_artists tcells ++ named_artists ccells) ->
             Artists1.generate_artist_id a <> None) ->
  exists t' c' a' names,
    Artists1Process.process_csv_files tracks_df charts_df
    = Some (t', c', a')
    /\ columns a' = ["artist_id"; "artist_name"]%string
    /\ Forall2 (fun n r =>
                  exists id, Artists1.generate_artist_id n = Some id
                             /\ r = [("artist_id"%string, VStr id);
                                     ("artist_name"%string, VStr n)])
               names (rows a')
    /\ NoDup names
    /\ ascending names = true
    /\ forall x, In x names
                 <-> In x (named_artists tcells ++ named_artists ccells).
Proof.
  intros Ht Hc Henc.
  destruct (all_artists_spec tcells ccells) as (Hnd & Hasc & Hin).
  set (names := Artists1Process.sorted _) in *.
  destruct (traverse_total Artists1.generate_artist_id names) as [ids Hids].
  { intros x Hx. apply Hin, Henc in Hx.
    destruct (Artists1.generate_artist_id x); [now eexists|easy]. }
  unfold Artists1Process.process_csv_files. rewrite Ht, Hc. simpl.
  fold names. rewrite Hids. simpl.
  do 3 eexists. exists names. split; [reflexivity|].
  split; [reflexivity|]. split; [now apply artists1_rows|].
  split; [exact Hnd|]. split; [exact Hasc | exact Hin].
Qed.

Lemma artists_tracks_example_wf : wf artists_tracks_example.
Proof.
  split; simpl.
  - repeat (constructor; [simpl; intuition discriminate|]). constructor.
  - repeat constructor.
Qed.

Lemma artists_charts_example_wf : wf artists_charts_example.
Proof.
  split; simpl.
  - repeat (constructor; [simpl; intuition discriminate|]). constructor.
  - repeat constructor.
Qed.

Lemma artists1_table_witness :
  exists t' c' a',
    @Artists1Process.process_csv_files latin1_db
      artists_tracks_example artists_charts_example = Some (t', c', a')
    /\ map (fun r => cell r "artist_name") (rows a')
       = [VStr (lit "Adele"); VStr (lit "Dua Lipa");
          VStr (lit "Elton John")].
Proof.
  destruct (@artists1_table latin1_db
              artists_tracks_example artists_charts_example
              [VStr (lit "Elton John, Dua Lipa"); VNaN]
              [VStr (lit "Adele")] eq_refl eq_refl)
    as (t' & c' & a' & names & Hrun & _).
  - intros a Hin. vm_compute in Hin.
    destruct Hin as [<-|[<-|[<-|[]]]]; vm_compute; discriminate.
  - exists t', c', a'. split; [exact Hrun|].
    vm_compute in Hrun. injection Hrun as _ _ <-. reflexivity.
Defined.

(** X13 — The identifier column of [process_csv_files].  The tracks
    and charts tables it produces keep their rows, in order, and every
    cell but artist_id.  The artist_id cell of a row is missing when
    its artist cell is missing; otherwise it holds the identifiers of
    all the artists named in that cell (none is left out, so the cell
    is never missing), one for each piece and in the order of the
    pieces, joined by commas, and splitting it at the commas gives
    back these identifiers. *)
Theorem artists1_ids_aligned `{UnicodeDB} (tracks_df charts_df : DataFrame)
        (t' c' a' : DataFrame) :
  wf tracks_df -> wf charts_df ->
  Artists1Process.process_csv_files tracks_df charts_df = Some (t', c', a') ->
  ids_aligned "artists" tracks_df t' /\ ids_aligned "artist" charts_df c'.
Proof.
  intros Hwt Hwc. unfold Artists1Process.process_csv_files.
  destruct (DF.column tracks_df "artists") as [tcells|] eqn:Ht;
    [|discriminate].
  destruct (DF.column charts_df "artist") as [ccells|] eqn:Hc;
    [|discriminate]. simpl.
  destruct (all_artists_spec tcells ccells) as (Hnd & _ & Hin).
  set (names := Artists1Process.sorted _) in *.
  destruct (DF.traverse Artists1.generate_artist_id names) as [ids|] eqn:Hids;
    [|discriminate]. simpl. intros [= <- <- <-].
  pose proof (artists1_dict names ids Hnd Hids) as Hd.
  split.
  - apply aligned_table; [exact Hwt | exact Ht|].
    intros p Hp. apply Hd, Hin, in_app_iff. now left.
  - apply aligned_table; [exact Hwc | exact Hc|].
    intros p Hp. apply Hd, Hin, in_app_iff. now right.
Qed.

Lemma artists1_ids_aligned_witness :
  exists t' c' a',
    @Artists1Process.process_csv_files latin1_db
      artists_tracks_example artists_charts_example = Some (t', c', a')
    /\ @ids_aligned latin1_db "artists" artists_tracks_example t'
    /\ @ids_aligned latin1_db "artist" artists_charts_example c'.
Proof.
  destruct (@Artists1Process.process_csv_files latin1_db
              artists_tracks_example artists_charts_example)
    as [[[t' c'] a']|] eqn:Hrun; [|vm_compute in Hrun; discriminate].
  exists t', c', a'. split; [reflexivity|].
  exact (@artists1_ids_aligned latin1_db _ _ _ _ _
           artists_tracks_example_wf artists_charts_example_wf Hrun).
Defined.

(* ================================================================== *)
(** ** The overlap file of the artist merge *)






(* ================================================================== *)
(** ** The cleaning of artist names *)

Lemma star_suffix (cls : Z -> bool) (k : str -> option str) (n : nat) :
  (forall s rest, k s = Some rest ->
                  exists pre, s = pre ++ rest /\ (n <= length pre)%nat) ->
  forall s rest, Re.star cls k s = Some rest ->
                 exists pre, s = pre ++ rest /\ (n <= length pre)%nat.
Proof.
  intros Hk. induction s as [|c s IH]; intros rest; simpl; [apply Hk|].
  destruct (cls c); [|apply Hk].
  destruct (Re.star cls k s) as [r|] eqn:E; [|apply Hk].
  intros [= <-]. destruct (IH r eq_refl) as (pre & -> & Hn).
  exists (c :: pre). split; [reflexivity | simpl; lia].
Qed.

Lemma match_here_suffix (p : Re.pattern) (s rest : str) :
  Re.match_here p s = Some rest ->
  exists pre, s = pre ++ rest /\ (min_len p <= length pre)%nat.
Proof.
  revert s rest. induction p as [|[cls q] p IH]; intros s rest.
  - simpl. intros [= <-]. exists []. split; [reflexivity | cbv; lia].
  - unfold min_len in *. cbn [Re.match_here filter snd].
    destruct q; cbn [length].
    + destruct s as [|c s]; [discriminate|]. destruct (cls c); [|discriminate].
      intros Hm. destruct (IH _ _ Hm) as (pre & -> & Hn).
      exists (c :: pre). split; [reflexivity | simpl; lia].
    + destruct s as [|c s]; [apply IH|]. destruct (cls c); [|apply IH].
      destruct (Re.match_here p s) as [r|] eqn:E; [|apply IH].
      intros [= <-]. destruct (IH _ _ E) as (pre & -> & Hn).
      exists (c :: pre). split; [reflexivity | simpl; lia].
    + apply star_suffix. exact IH.
    + destruct s as [|c s]; [discriminate|]. destruct (cls c); [|discriminate].
      intros Hm.
      destruct (star_suffix cls _ _ IH _ _ Hm) as (pre & -> & Hn).
      exists (c :: pre). split; [reflexivity | simpl; lia].
Qed.

Lemma sub_within_chars (p : Re.pattern) (repl : str) (budget : nat)
      (s : str) (c : Z) :
  In c (Re.sub_within budget p repl s) -> In c repl \/ In c s.
Proof.
  revert s. induction budget as [|b IH]; intros s; simpl; [now right|].
  destruct s as [|d s]; [easy|].
  destruct (Re.match_here p (d :: s)) as [rest|] eqn:E.
  - rewrite in_app_iff. intros [Hc|Hc]; [now left|].
    destruct (IH _ Hc) as [Hr|Hr]; [now left|]. right.
    destruct (match_here_suffix _ _ _ E) as (pre & -> & _).
    apply in_or_app. now right.
  - intros [<-|Hc]; [right; now left|].
    destruct (IH _ Hc) as [Hr|Hr]; [now left | right; now right].
Qed.

Lemma sub_chars (p : Re.pattern) (repl s : str) (c : Z) :
  In c (Re.sub p repl s) -> In c repl \/ In c s.
Proof. apply sub_within_chars. Qed.

(** A character at which the pattern always matches is in no result. *)
Lemma sub_within_forced (p : Re.pattern) (repl : str) (c : Z) :
  (1 <= min_len p)%nat -> ~ In c repl ->
  (forall s, Re.match_here p (c :: s) <> None) ->
  forall budget s, (length s <= budget)%nat ->
                   ~ In c (Re.sub_within budget p repl s).
Proof.
  intros Hmin Hrepl Hforced.
  induction budget as [|b IH]; intros s Hlen; simpl.
  - destruct s; [easy | simpl in Hlen; lia].
  - destruct s as [|d s]; [easy|]. simpl in Hlen.
    destruct (Re.match_here p (d :: s)) as [rest|] eqn:E.
    + rewrite in_app_iff. intros [Hc|Hc]; [easy|]. revert Hc. apply IH.
      destruct (match_here_suffix _ _ _ E) as (pre & Hs & Hn).
      apply (f_equal (@length _)) in Hs. rewrite length_app in Hs.
      simpl in Hs. lia.
    + intros [->|Hc]; [now apply (Hforced s) | revert Hc; apply IH; lia].
Qed.

Lemma star_last (cls : Z -> bool) (s : str) :
  Re.match_here [(cls, Re.Star)] s = Some (Py.dropwhile cls s).
Proof.
  simpl. induction s as [|c s IH]; simpl; [reflexivity|].
  destruct (cls c); [now rewrite IH | reflexivity].
Qed.

Lemma comma_matches (s : str) :
  Re.match_here [(Py.isspace, Re.Star); (Re.char 0x2C, Re.One);
                 (Py.isspace, Re.Star)] (0x2C :: s) <> None.
Proof.
  change (Re.match_here [(Py.isspace, Re.Star)] s <> None).
  now rewrite star_last.
Qed.

Lemma spaces_match (s : str) :
  Re.match_here [Charts1Clean.spaces] s
  = match s with
    | c :: s' => if Py.isspace c then Some (Py.dropwhile Py.isspace s')
                 else None
    | [] => None
    end.
Proof.
  destruct s as [|c s]; [reflexivity|].
  cbn [Re.match_here Charts1Clean.spaces].
  destruct (Py.isspace c); [|reflexivity]. apply (star_last Py.isspace s).
Qed.

Lemma collapse_within (budget : nat) (s : str) :
  (length s <= budget)%nat ->
  let out := Re.sub_within budget [Charts1Clean.spaces] (lit " ") s in
  single_spaced out = true
  /\ (forall c, In c out -> Py.isspace c = true -> c = 0x20)
  /\ (starts_clean s -> starts_clean out).
Proof.
  revert s. induction budget as [|b IH]; intros s Hlen; cbv zeta.
  - destruct s; [now repeat split | simpl in Hlen; lia].
  - destruct s as [|c s]; [now repeat split|]. simpl in Hlen.
    cbn [Re.sub_within]. rewrite spaces_match.
    destruct (Py.isspace c) eqn:Hc.
    + pose proof (dropwhile_head Py.isspace s) as Hh.
      destruct (dropwhile_prefix Py.isspace s) as (pre & Hs & _).
      apply (f_equal (@length _)) in Hs. rewrite length_app in Hs.
      destruct (IH (Py.dropwhile Py.isspace s) ltac:(lia))
        as (IH1 & IH2 & IH3).
      specialize (IH3 Hh).
      set (out := Re.sub_within b _ _ _) in *.
      change (lit " " ++ out) with (0x20 :: out). split; [|split].
      * destruct out as [|d out]; [reflexivity|]. simpl in IH3.
        change (negb (Py.isspace 0x20 && Py.isspace d)
                && single_spaced (d :: out) = true).
        now rewrite IH3, andb_false_r, IH1.
      * intros x [<-|Hx]; [easy | now apply IH2].
      * simpl. congruence.
    + destruct (IH s ltac:(lia)) as (IH1 & IH2 & _).
      set (out := Re.sub_within b _ _ _) in *. split; [|split].
      * destruct out as [|d out]; [reflexivity|].
        change (negb (Py.isspace c && Py.isspace d)
                && single_spaced (d :: out) = true).
        now rewrite Hc, IH1.
      * intros x [<-|Hx]; [congruence | now apply IH2].
      * intros _. exact Hc.
Qed.

Lemma single_spaced_app (a b : str) :
  single_spaced (a ++ b) = true ->
  single_spaced a = true /\ single_spaced b = true.
Proof.
  induction a as [|x a IH]; [easy|].
  destruct a as [|y a].
  - simpl. destruct b; [easy|]. intros Hs.
    apply andb_true_iff in Hs. easy.
  - change (negb (Py.isspace x && Py.isspace y)
            && single_spaced ((y :: a) ++ b) = true
            -> negb (Py.isspace x && Py.isspace y)
               && single_spaced (y :: a) = true
               /\ single_spaced b = true).
    intros Hs. apply andb_true_iff in Hs as [Hxy Hs].
    destruct (IH Hs) as [Ha Hb]. now rewrite Hxy, Ha.
Qed.

Lemma strip_single_spaced (s : str) :
  single_spaced s = true -> single_spaced (Py.strip s) = true.
Proof.
  unfold Py.strip, Py.lstrip_by. intros Hs.
  destruct (dropwhile_prefix Py.isspace s) as (pre & E & _).
  rewrite E in Hs. apply single_spaced_app in Hs as [_ Hs].
  destruct (proj1 (rstrip_by_spec Py.isspace (Py.dropwhile Py.isspace s)))
    as (nl & E' & _).
  rewrite E' in Hs. now apply single_spaced_app in Hs as [Hs _].
Qed.

(** X16 — [clean_artist_name] leaves a missing name missing and turns
    every other value into a text that holds no quote, no double quote
    and no comma, has no whitespace at its ends, never two whitespace
    characters in a row and no whitespace character other than the
    space.  It invents no character: every character of the result is
    a character of the name, a space or a hyphen. *)
Theorem clean_artist_name_shape (artist : value) :
  (isna artist = true -> Charts1Clean.clean_artist_name artist = artist)
  /\ (isna artist = false ->
      exists out,
        Charts1Clean.clean_artist_name artist = VStr out
        /\ ~ In 0x22 out /\ ~ In 0x27 out /\ ~ In 0x2C out
        /\ Py.strip out = out
        /\ single_spaced out = true
        /\ (forall c, In c out -> Py.isspace c = true -> c = 0x20)
        /\ (forall c, In c out ->
                      In c (to_str artist) \/ c = 0x20 \/ c = 0x2D)).
Proof.
  unfold Charts1Clean.clean_artist_name. split; intros Hna; rewrite Hna;
    [reflexivity|].
  eexists. split; [reflexivity|].
  set (a0 := Py.remove_char 0x27 (Py.remove_char 0x22 (to_str artist))).
  cbn [fold_left Charts1Clean.patterns].
  match goal with
  | |- context [Re.sub ?p5 (lit " - ") (Re.sub ?p4 _ (Re.sub ?p3 _
                  (Re.sub ?p2 _ (Re.sub ?p1 _ a0))))] =>
      set (a4 := Re.sub p4 (lit " - ") (Re.sub p3 (lit " - ")
                   (Re.sub p2 (lit " - ") (Re.sub p1 (lit " - ") a0))));
      set (a5 := Re.sub p5 (lit " - ") a4)
  end.
  set (a6 := Re.sub [Charts1Clean.spaces] (lit " ") a5).
  assert (forall c, In c a0 ->
                    In c (to_str artist) /\ c <> 0x22 /\ c <> 0x27) as H0.
  { intros c Hc. unfold a0, Py.remove_char in Hc.
    apply filter_In in Hc as [Hc N1]. apply filter_In in Hc as [Hc N2].
    apply negb_true_iff, Z.eqb_neq in N1.
    apply negb_true_iff, Z.eqb_neq in N2. easy. }
  assert (forall c, In c a5 -> In c a0 \/ c = 0x20 \/ c = 0x2D) as H5.
  { assert (forall c, In c (lit " - ") -> c = 0x20 \/ c = 0x2D) as Hsep.
    { intros c [<-|[<-|[<-|[]]]]; auto. }
    intros c Hc. unfold a5, a4 in Hc.
    repeat (apply sub_chars in Hc; destruct Hc as [Hc|Hc];
            [right; now apply Hsep|]).
    now left. }
  assert (~ In 0x2C a5) as Hcomma.
  { unfold a5, Re.sub. apply sub_within_forced.
    - unfold min_len. simpl. lia.
    - intros [E|[E|[E|[]]]]; discriminate.
    - apply comma_matches.
    - lia. }
  assert (forall c, In c (Py.strip a6) -> In c a5 \/ c = 0x20) as H6.
  { intros c Hc. apply strip_incl in Hc. unfold a6 in Hc.
    apply sub_chars in Hc. destruct Hc as [[<-|[]]|Hc]; auto. }
  destruct (collapse_within (length a5) a5 (le_n _)) as (C1 & C2 & _).
  fold (Re.sub [Charts1Clean.spaces] (lit " ") a5) in C1, C2. fold a6 in C1, C2.
  assert (forall c, In c (Py.strip a6) ->
                    In c (to_str artist) /\ c <> 0x22 /\ c <> 0x27
                    /\ c <> 0x2C
                    \/ c = 0x20 \/ c = 0x2D) as Hall.
  { intros c Hc. destruct (H6 c Hc) as [Hc5| ->]; [|auto].
    destruct (H5 c Hc5) as [Hc0|Hsep]; [|auto]. left.
    destruct (H0 c Hc0) as (? & ? & ?). repeat split; try assumption.
    intros ->. now apply Hcomma. }
  repeat split.
  - intros Hc. apply Hall in Hc as [(_ & N & _)|[E|E]]; easy.
  - intros Hc. apply Hall in Hc as [(_ & _ & N & _)|[E|E]]; easy.
  - intros Hc. apply Hall in Hc as [(_ & _ & _ & N)|[E|E]]; easy.
  - apply strip_idem.
  - now apply strip_single_spaced.
  - intros c Hc. apply C2. now apply strip_incl.
  - intros c Hc. apply Hall in Hc as [(Hc & _)|E]; auto.
Qed.

Lemma clean_artist_name_shape_witness :
  Charts1Clean.clean_artist_name (VStr (lit "Dua Lipa  &  Elton John"))
  = VStr (lit "Dua Lipa - Elton John")
  /\ exists out,
       Charts1Clean.clean_artist_name
         (VStr (lit "Post Malone feat. 21 Savage, Drake")) = VStr out
       /\ ~ In 0x2C out.
Proof.
  split; [reflexivity|].
  destruct (proj2 (clean_artist_name_shape
                     (VStr (lit "Post Malone feat. 21 Savage, Drake")))
                  eq_refl)
    as (out & Hout & _ & _ & Hcomma & _).
  exists out. split; [exact Hout | exact Hcomma].
Defined.

(* ================================================================== *)
(** ** The first charts script on a table with its columns *)

Lemma remove_first_NoDup (c : string) (cs : list string) :
  NoDup cs ->
  DF.remove_first c cs = filter (fun k => negb (String.eqb k c)) cs.
Proof.
  induction 1 as [|k cs Hk Hnd IH]; simpl; [reflexivity|].
  destruct (String.eqb k c) eqn:E; simpl; [|now rewrite IH].
  apply String.eqb_eq in E. subst k. symmetry. now apply filter_absent.
Qed.

Lemma cell_of_cells (f : string -> value) (cs : list string) (c : string) :
  In c cs -> cell (map (fun c0 => (c0, f c0)) cs) c = f c.
Proof. intros Hc. unfold cell. now rewrite select_cells_get. Qed.

Section Charts1Run.
Context `{UnicodeDB}.
Variable clean_artist_name : value -> value.
Variable df : DataFrame.
Hypothesis Hwf : wf df.
Hypothesis Hsong : In "song"%string (columns df).
Hypothesis Hartist : In "artist"%string (columns df).

Let cols0 : list string :=
  filter (fun k => negb (String.eqb k "last-week")) (columns df).

Let cols : list string :=
  "song_id"%string :: filter (fun k => negb (String.eqb k "song_id")) cols0.

Let cleaned (r : row) : row :=
  DF.set (DF.del "last-week" r) "artist"
         (clean_artist_name (cell r "artist")).

Let id_of (r : row) : option value :=
  Charts1Key.generate_song_id (cell r "song")
                              (clean_artist_name (cell r "artist")).

Let staged (r : row) : row :=
  DF.set (cleaned r) "song_id"
         (match id_of r with Some v => v | None => VNaN end).

Lemma charts1_cleaned_frame :
  let df0 := if DF.has_col df "last-week" then DF.drop df "last-week"
             else df in
  exists df1,
    (if DF.has_col df0 "artist" then
       artists <- DF.column df0 "artist" ;;
       Some (DF.assign df0 "artist" (map clean_artist_name artists))
     else Some df0) = Some df1
    /\ wf df1 /\ columns df1 = cols0 /\ rows df1 = map cleaned (rows df).
Proof.
  cbv zeta.
  assert ((if DF.has_col df "last-week" then DF.drop df "last-week" else df)
          = DF.drop df "last-week") as ->.
  { destruct (DF.has_col df "last-week") eqn:E; [easy|].
    now rewrite drop_absent. }
  set (df0 := DF.drop df "last-week").
  assert (wf df0) as W0 by now apply wf_drop.
  assert (DF.has_col df0 "artist" = true) as Ha0.
  { unfold df0. rewrite has_col_drop_other by discriminate.
    now apply mem_In. }
  rewrite Ha0, (column_cells df0 "artist" W0 Ha0). cbn [bind].
  rewrite map_map. eexists. split; [reflexivity|].
  split; [now apply wf_assign|]. split.
  - cbn [DF.assign columns]. now rewrite Ha0.
  - rewrite assign_rows_map. unfold df0. cbn [DF.drop rows].
    rewrite map_map. apply map_ext. intros r. unfold cleaned.
    now rewrite cell_del_other by discriminate.
Qed.

Lemma charts1_cleaned_cells (r : row) :
  In r (rows df) ->
  map fst (cleaned r) = cols0
  /\ cell (cleaned r) "song" = cell r "song"
  /\ cell (cleaned r) "artist" = clean_artist_name (cell r "artist")
  /\ forall c, c <> "artist"%string -> c <> "last-week"%string ->
               cell (cleaned r) c = cell r c.
Proof.
  intros Hr. pose proof (rows_labels df r Hwf Hr) as Hl.
  assert (map fst (DF.del "last-week" r) = cols0) as Hl0
      by (now rewrite map_fst_del, Hl).
  assert (In "artist"%string cols0) as Ha.
  { unfold cols0. apply filter_In. now split. }
  unfold cleaned. repeat split.
  - rewrite map_fst_set; rewrite ?Hl0; easy.
  - rewrite cell_set_other by discriminate.
    now rewrite cell_del_other by discriminate.
  - apply cell_set_same.
  - intros c N1 N2. rewrite cell_set_other by congruence.
    apply cell_del_other. congruence.
Qed.

Lemma charts1_ids (df1 : DataFrame) :
  wf df1 -> columns df1 = cols0 -> rows df1 = map cleaned (rows df) ->
  DF.traverse (fun r => song <- DF.get r "song"%string ;;
                        artist <- DF.get r "artist"%string ;;
                        Charts1Key.generate_song_id song artist)
              (rows df1)
  = DF.traverse id_of (rows df).
Proof.
  intros W1 Hcols1 Hrows1. rewrite Hrows1, traverse_of_map.
  assert (forall l, incl l (rows df) ->
            DF.traverse
              (fun x => song <- DF.get (cleaned x) "song"%string ;;
                        artist <- DF.get (cleaned x) "artist"%string ;;
                        Charts1Key.generate_song_id song artist) l
            = DF.traverse id_of l) as Hall.
  { induction l as [|r l IH]; intros Hincl; [reflexivity|].
    cbn [DF.traverse]. rewrite IH by (intros x Hx; apply Hincl; now right).
    destruct (charts1_cleaned_cells r (Hincl r (or_introl eq_refl)))
      as (Hl & Hs & Ha & _).
    rewrite !get_cell
      by (rewrite Hl; unfold cols0; apply filter_In; now split).
    cbn [bind]. now rewrite Hs, Ha. }
  apply Hall. apply incl_refl.
Qed.

Lemma charts1_fails :
  (exists r, In r (rows df) /\ id_of r = None) ->
  Charts1Process.process_charts_csv clean_artist_name df = failed.
Proof.
  intros (r & Hr & Hnone). unfold Charts1Process.process_charts_csv.
  destruct charts1_cleaned_frame as (df1 & -> & W1 & Hcols1 & Hrows1).
  cbn [bind].
  assert (DF.has_col df1 "song" && DF.has_col df1 "artist" = true) as ->.
  { unfold DF.has_col. rewrite Hcols1.
    rewrite !(proj2 (mem_In _ _)); [reflexivity| |];
      unfold cols0; apply filter_In; now split. }
  rewrite (charts1_ids df1 W1 Hcols1 Hrows1).
  now rewrite (traverse_fails id_of (rows df) r Hr Hnone).
Qed.

Lemma charts1_run :
  (forall r, In r (rows df) -> id_of r <> None) ->
  Charts1Process.process_charts_csv clean_artist_name df
  = (let out :=
       {| columns := cols;
          rows := map (fun r => map (fun c => (c, cell (staged r) c)) cols)
                      (rows df) |} in
     {| written := Some out; returned := Some out |}).
Proof.
  intros Hok. unfold Charts1Process.process_charts_csv.
  destruct charts1_cleaned_frame as (df1 & -> & W1 & Hcols1 & Hrows1).
  cbn [bind].
  assert (In "song"%string cols0 /\ In "artist"%string cols0) as [Hs0 Ha0].
  { unfold cols0. split; apply filter_In; now split. }
  assert (DF.has_col df1 "song" && DF.has_col df1 "artist" = true) as ->.
  { unfold DF.has_col. rewrite Hcols1.
    now rewrite !(proj2 (mem_In _ _)). }
  rewrite (traverse_map _ (fun r1 =>
             match Charts1Key.generate_song_id (cell r1 "song")
                                               (cell r1 "artist") with
             | Some v => v
             | None => VNaN
             end)).
  2:{ intros r1 Hr1. rewrite Hrows1 in Hr1. apply in_map_iff in Hr1.
      destruct Hr1 as (r & <- & Hr).
      destruct (charts1_cleaned_cells r Hr) as (Hl & Hs & Ha & _).
      rewrite !get_cell by now rewrite Hl. cbn [bind]. rewrite Hs, Ha.
      specialize (Hok r Hr). unfold id_of in Hok.
      now destruct (Charts1Key.generate_song_id _ _). }
  cbn [bind].
  set (df2 := DF.assign df1 "song_id" _).
  assert (wf df2) as W2 by now apply wf_assign.
  assert (rows df2 = map staged (rows df)) as Hrows2.
  { unfold df2. rewrite assign_rows_map, Hrows1, map_map.
    apply map_ext_in. intros r Hr.
    destruct (charts1_cleaned_cells r Hr) as (_ & Hs & Ha & _).
    unfold staged, id_of. now rewrite Hs, Ha. }
  assert (DF.has_col df2 "song_id" = true) as Hsid
      by apply has_col_assign_same.
  assert (DF.remove_first "song_id" (columns df2)
          = filter (fun k => negb (String.eqb k "song_id")) cols0) as Hrem.
  { rewrite (remove_first_NoDup _ _ (proj1 W2)).
    unfold df2. cbn [DF.assign columns]. rewrite Hcols1.
    destruct (DF.has_col df1 "song_id") eqn:E; [reflexivity|].
    rewrite filter_app. cbn [filter]. rewrite String.eqb_refl.
    cbn [negb]. apply app_nil_r. }
  rewrite Hsid, Hrem. fold cols.
  rewrite (reindex_cells df2 cols W2).
  2:{ intros c [<-|Hc]; [now apply mem_In|].
      rewrite <- Hrem in Hc. now apply remove_first_incl in Hc. }
  rewrite Hrows2, map_map. cbv zeta.
  assert (forall rs, DF.has_col {| columns := cols; rows := rs |} "song_id"
                     && negb (DF.has_col {| columns := cols; rows := rs |}
                                         "song"
                              && DF.has_col {| columns := cols; rows := rs |}
                                            "artist") = false) as ->;
    [|reflexivity].
  intros rs. unfold DF.has_col. cbn [columns].
  rewrite !(proj2 (mem_In _ _)); [reflexivity| | |].
  - right. apply filter_In. now split.
  - right. apply filter_In. now split.
  - now left.
Qed.

End Charts1Run.

(** X17 — On a table that has its song and artist columns the first
    charts script writes and returns a table with the song_id column
    first, followed by the other columns in their order without
    last-week (an old song_id column is replaced), and with the same
    number of rows.  In each row the artist is replaced by the cleaned
    name, the identifier is the one generated from the song and the
    cleaned name (missing when one of them is missing), and every other
    cell is unchanged.  When the identifier of one row cannot be
    generated, because its text cannot be encoded, nothing is written
    at all. *)
Theorem charts1_process_succeeds `{UnicodeDB} (df : DataFrame) :
  wf df ->
  In "song"%string (columns df) -> In "artist"%string (columns df) ->
  ((forall r, In r (rows df) ->
      Charts1Key.generate_song_id
        (cell r "song") (Charts1Clean.clean_artist_name (cell r "artist"))
      <> None) ->
   exists out,
     Charts1Process.process_charts_csv Charts1Clean.clean_artist_name df
     = {| written := Some out; returned := Some out |}
     /\ wf out
     /\ columns out
        = "song_id"%string
          :: filter (fun k => negb (String.eqb k "song_id"))
               (filter (fun k => negb (String.eqb k "last-week"))
                       (columns df))
     /\ length (rows out) = length (rows df)
     /\ forall i r,
          nth_error (rows df) i = Some r ->
          exists r',
            nth_error (rows out) i = Some r'
            /\ Charts1Key.generate_song_id
                 (cell r "song")
                 (Charts1Clean.clean_artist_name (cell r "artist"))
               = Some (cell r' "song_id")
            /\ cell r' "artist"
               = Charts1Clean.clean_artist_name (cell r "artist")
            /\ forall c, In c (columns df) -> c <> "song_id"%string ->
                         c <> "artist"%string -> c <> "last-week"%string ->
                         cell r' c = cell r c)
  /\ ((exists r, In r (rows df)
                 /\ Charts1Key.generate_song_id
                      (cell r "song")
                      (Charts1Clean.clean_artist_name (cell r "artist"))
                    = None) ->
      Charts1Process.process_charts_csv Charts1Clean.clean_artist_name df
      = failed).
Proof.
  intros Hwf Hsong Hartist. split; [|now apply charts1_fails].
  intros Hok.
  rewrite (charts1_run Charts1Clean.clean_artist_name df Hwf Hsong Hartist
                       Hok).
  cbv zeta. eexists. split; [reflexivity|].
  set (cols0 := filter (fun k => negb (String.eqb k "last-week"))
                       (columns df)).
  assert (NoDup ("song_id"%string
                 :: filter (fun k => negb (String.eqb k "song_id")) cols0))
    as Hnd.
  { constructor; [|apply NoDup_filter, NoDup_filter, Hwf].
    intros Hin. apply filter_In in Hin. destruct Hin as [_ Hin].
    now rewrite String.eqb_refl in Hin. }
  split; [now apply wf_reindexed|]. split; [reflexivity|].
  split; [cbn [rows]; apply length_map|].
  intros i r Hi. cbn [rows]. rewrite nth_error_map, Hi. cbn [option_map].
  eexists. split; [reflexivity|].
  pose proof (nth_error_In _ _ Hi) as Hr.
  destruct (charts1_cleaned_cells Charts1Clean.clean_artist_name df Hwf
                                  Hartist r Hr)
    as (Hl & Hs & Ha & Hother).
  split; [|split].
  - rewrite cell_of_cells by now left.
    rewrite cell_set_same. specialize (Hok r Hr).
    now destruct (Charts1Key.generate_song_id _ _).
  - rewrite cell_of_cells
      by (right; apply filter_In; split; [apply filter_In|]; now split).
    rewrite cell_set_other by discriminate. exact Ha.
  - intros c Hc N1 N2 N3. rewrite cell_of_cells.
    + rewrite cell_set_other by congruence. now apply Hother.
    + right. apply filter_In. split.
      * apply filter_In. split; [easy|].
        apply negb_true_iff. now apply String.eqb_neq.
      * apply negb_true_iff. now apply String.eqb_neq.
Qed.

Lemma charts1_process_succeeds_witness :
  exists out,
    Charts1Process.process_charts_csv
      (H := latin1_db) Charts1Clean.clean_artist_name charts_example
    = {| written := Some out; returned := Some out |}
    /\ columns out = ["song_id"; "rank"; "song"; "artist"]%string
    /\ length (rows out) = 2%nat.
Proof.
  destruct (proj1 (charts1_process_succeeds
                     (H := latin1_db) charts_example charts_example_wf
                     (or_intror (or_intror (or_introl eq_refl)))
                     (or_intror (or_intror (or_intror (or_introl eq_refl))))))
    as (out & Hrun & _ & Hcols & Hlen & _).
  - intros r [<-|[<-|[]]]; vm_compute; discriminate.
  - exists out. split; [exact Hrun|]. split; [exact Hcols | exact Hlen].
Defined.

(* ================================================================== *)
(** ** The first charts script on a table without a required column *)

Section Charts1Skips.
Context `{UnicodeDB}.
Variable clean_artist_name : value -> value.
Variable df : DataFrame.
Hypothesis Hwf : wf df.
Hypothesis Hmiss :
  DF.has_col df "song" = false \/ DF.has_col df "artist" = false.

Let kept : list string :=
  filter (fun k => negb (String.eqb k "last-week")) (columns df).

Let cleaned (r : row) : row :=
  if DF.has_col df "artist"
  then DF.set (DF.del "last-week" r) "artist"
              (clean_artist_name (cell r "artist"))
  else DF.del "last-week" r.

Lemma charts1_skips_frame :
  let df0 := if DF.has_col df "last-week" then DF.drop df "last-week"
             else df in
  exists df1,
    (if DF.has_col df0 "artist" then
       artists <- DF.column df0 "artist" ;;
       Some (DF.assign df0 "artist" (map clean_artist_name artists))
     else Some df0) = Some df1
    /\ wf df1 /\ columns df1 = kept /\ rows df1 = map cleaned (rows df).
Proof.
  cbv zeta.
  assert ((if DF.has_col df "last-week" then DF.drop df "last-week" else df)
          = DF.drop df "last-week") as ->.
  { destruct (DF.has_col df "last-week") eqn:E; [easy|].
    now rewrite drop_absent. }
  set (df0 := DF.drop df "last-week").
  assert (wf df0) as W0 by now apply wf_drop.
  assert (DF.has_col df0 "artist" = DF.has_col df "artist") as Ha0.
  { unfold df0. now rewrite has_col_drop_other by discriminate. }
  rewrite Ha0. unfold cleaned.
  destruct (DF.has_col df "artist") eqn:Ha.
  - rewrite (column_cells df0 "artist" W0 Ha0). cbn [bind].
    rewrite map_map. eexists. split; [reflexivity|].
    split; [now apply wf_assign|]. split.
    + cbn [DF.assign columns]. now rewrite Ha0.
    + rewrite assign_rows_map. unfold df0. cbn [DF.drop rows].
      rewrite map_map. apply map_ext. intros r.
      now rewrite cell_del_other by discriminate.
  - exists df0. repeat split; try apply W0.
Qed.

Lemma charts1_skips_cells (r : row) :
  In r (rows df) ->
  map fst (cleaned r) = kept
  /\ forall c, In c kept ->
               cell (cleaned r) c
               = if String.eqb c "artist" then clean_artist_name (cell r c)
                 else cell r c.
Proof.
  intros Hr. pose proof (rows_labels df r Hwf Hr) as Hl.
  assert (map fst (DF.del "last-week" r) = kept) as Hl0
      by (now rewrite map_fst_del, Hl).
  assert (forall c, In c kept -> c <> "last-week"%string) as Hne.
  { intros c Hc. apply filter_In in Hc as [_ Hc].
    apply negb_true_iff in Hc. now apply String.eqb_neq. }
  unfold cleaned. destruct (DF.has_col df "artist") eqn:Ha.
  - assert (In "artist"%string kept) as Hak.
    { apply filter_In. split; [now apply mem_In | reflexivity]. }
    split; [rewrite map_fst_set; rewrite ?Hl0; easy|].
    intros c Hc. destruct (String.eqb c "artist") eqn:E.
    + apply String.eqb_eq in E. subst c. apply cell_set_same.
    + apply String.eqb_neq in E. rewrite cell_set_other by congruence.
      apply cell_del_other. specialize (Hne c Hc). congruence.
  - split; [exact Hl0|]. intros c Hc.
    destruct (String.eqb c "artist") eqn:E.
    + apply String.eqb_eq in E. subst c. apply filter_In in Hc as [Hc _].
      apply mem_In in Hc. unfold DF.has_col in Ha. congruence.
    + apply cell_del_other. specialize (Hne c Hc). congruence.
Qed.

Lemma charts1_writes :
  exists out,
    Charts1Process.process_charts_csv clean_artist_name df
    = {| written := Some out;
         returned := if DF.has_col df "song_id" then None else Some out |}
    /\ wf out
    /\ columns out
       = (if DF.has_col df "song_id"
          then "song_id"%string
               :: filter (fun k => negb (String.eqb k "song_id")) kept
          else kept)
    /\ length (rows out) = length (rows df)
    /\ forall i r,
         nth_error (rows df) i = Some r ->
         exists r',
           nth_error (rows out) i = Some r'
           /\ forall c, In c (columns out) ->
                        cell r' c
                        = if String.eqb c "artist"
                          then clean_artist_name (cell r c)
                          else cell r c.
Proof.
  unfold Charts1Process.process_charts_csv.
  destruct charts1_skips_frame as (df1 & -> & W1 & Hcols1 & Hrows1).
  cbn [bind].
  assert (forall c, c <> "last-week"%string ->
                    DF.has_col df1 c = DF.has_col df c) as Hcol.
  { intros c Hc. unfold DF.has_col. rewrite Hcols1.
    destruct (DF.mem c (columns df)) eqn:E.
    - apply mem_In. apply filter_In. split; [now apply mem_In|].
      apply negb_true_iff. now apply String.eqb_neq.
    - apply mem_false. intros Hin. apply filter_In in Hin as [Hin _].
      apply mem_In in Hin. congruence. }
  (* 3. Add song_id column: skipped *)
  assert (DF.has_col df1 "song" && DF.has_col df1 "artist" = false) as Hskip.
  { rewrite !Hcol by discriminate.
    destruct Hmiss as [-> | ->]; [easy | apply andb_false_r]. }
  rewrite Hskip. cbn [bind]. rewrite Hcol by discriminate.
  destruct (DF.has_col df "song_id") eqn:Hsid.
  - assert (DF.remove_first "song_id" (columns df1)
            = filter (fun k => negb (String.eqb k "song_id")) kept) as Hrem.
    { rewrite (remove_first_NoDup _ _ (proj1 W1)). now rewrite Hcols1. }
    set (cols := "song_id"%string
                 :: filter (fun k => negb (String.eqb k "song_id")) kept).
    assert (incl cols kept) as Hincl.
    { intros c [<-|Hc].
      - apply filter_In. split; [now apply mem_In | reflexivity].
      - now apply filter_In in Hc. }
    rewrite Hrem. fold cols. rewrite (reindex_cells df1 cols W1)
      by now rewrite Hcols1.
    assert (NoDup cols) as Hnd.
    { constructor; [|apply NoDup_filter, NoDup_filter, Hwf].
      intros Hin. apply filter_In in Hin. destruct Hin as [_ Hin].
      now rewrite String.eqb_refl in Hin. }
    assert (forall rs,
              DF.has_col {| columns := cols; rows := rs |} "song_id"
              && negb (DF.has_col {| columns := cols; rows := rs |} "song"
                       && DF.has_col {| columns := cols; rows := rs |}
                                     "artist") = true) as Hret.
    { intros rs. unfold DF.has_col. cbn [columns].
      rewrite (proj2 (mem_In "song_id" cols)) by now left.
      destruct (DF.mem "song" cols) eqn:E1; [|reflexivity].
      destruct (DF.mem "artist" cols) eqn:E2; [|reflexivity].
      apply mem_In, Hincl in E1. apply mem_In, Hincl in E2.
      rewrite <- Hcols1 in E1, E2. apply mem_In in E1, E2.
      unfold DF.has_col in Hskip. rewrite E1, E2 in Hskip.
      discriminate. }
    rewrite Hret. eexists. split; [reflexivity|].
    split; [now apply wf_reindexed|]. split; [reflexivity|].
    cbn [rows columns]. split; [now rewrite length_map, Hrows1, length_map|].
    intros i r Hi. rewrite Hrows1, map_map, nth_error_map, Hi.
    cbn [option_map]. eexists. split; [reflexivity|].
    intros c Hc. rewrite cell_of_cells by exact Hc.
    apply charts1_skips_cells; [now apply nth_error_In in Hi|].
    now apply Hincl.
  - exists df1. split.
    { rewrite (Hcol "song_id"%string) by discriminate. now rewrite Hsid. }
    split; [exact W1|]. split; [exact Hcols1|]. rewrite Hrows1.
    split; [apply length_map|].
    intros i r Hi. rewrite nth_error_map, Hi. cbn [option_map].
    eexists. split; [reflexivity|]. intros c Hc. rewrite Hcols1 in Hc.
    apply charts1_skips_cells; [now apply nth_error_In in Hi | exact Hc].
Qed.

End Charts1Skips.

(** C6, amended — A table without its song or artist column makes the
    second charts script and the deduplication of tracks abort: they
    write no output and return nothing.  The first charts script does
    not abort on such a table: it only warns, skips the song
    identifier and still writes the table, with all its rows in their
    order and its columns other than last-week in their order (a
    song_id column the table came with is moved to the front).  Every
    cell of the table written is the cell of the table read, but for
    the artist, which is the cleaned name.  The script returns the
    table it wrote unless the table came with a song_id column, and
    nothing then. *)
Theorem missing_column_outcome `{UnicodeDB}
        (clean_artist_name : value -> value) (df : DataFrame)
        (song_column artist_column : string) :
  (DF.has_col df "song" = false \/ DF.has_col df "artist" = false ->
   Charts2Process.process_charts_csv df = failed)
  /\ (DF.has_col df song_column = false
      \/ DF.has_col df artist_column = false ->
      Tracks2Dedup.remove_duplicates_and_generate_ids
        df song_column artist_column = failed)
  /\ (wf df ->
      DF.has_col df "song" = false \/ DF.has_col df "artist" = false ->
      exists out,
        Charts1Process.process_charts_csv clean_artist_name df
        = {| written := Some out;
             returned := if DF.has_col df "song_id" then None
                         else Some out |}
        /\ wf out
        /\ columns out
           = (if DF.has_col df "song_id"
              then "song_id"%string
                   :: filter (fun k => negb (String.eqb k "song_id"))
                        (filter (fun k => negb (String.eqb k "last-week"))
                                (columns df))
              else filter (fun k => negb (String.eqb k "last-week"))
                          (columns df))
        /\ length (rows out) = length (rows df)
        /\ forall i r,
             nth_error (rows df) i = Some r ->
             exists r',
               nth_error (rows out) i = Some r'
               /\ forall c, In c (columns out) ->
                            cell r' c
                            = if String.eqb c "artist"
                              then clean_artist_name (cell r c)
                              else cell r c).
Proof.
  split; [apply charts2_aborts|]. split; [apply tracks2_aborts|].
  apply charts1_writes.
Qed.

Lemma missing_column_outcome_witness :
  Charts2Process.process_charts_csv (H := latin1_db) charts_with_old_ids
  = failed
  /\ Tracks2Dedup.remove_duplicates_and_generate_ids
       (H := latin1_db) charts_with_old_ids "song" "artist" = failed
  /\ exists out,
       Charts1Process.process_charts_csv
         (H := latin1_db) Charts1Clean.clean_artist_name charts_with_old_ids
       = {| written := Some out; returned := None |}
       /\ columns out = ["song_id"; "rank"; "song"]%string
       /\ map (fun r => map (cell r) (columns out)) (rows out)
          = [[VStr (lit "0a1b2c3d4e"); VInt 1; VStr (lit "Easy On Me")]].
Proof.
  pose proof (missing_column_outcome
                (H := latin1_db) Charts1Clean.clean_artist_name
                charts_with_old_ids "song" "artist") as (W1 & W2 & W3).
  split; [exact (W1 (or_intror eq_refl))|].
  split; [exact (W2 (or_intror eq_refl))|].
  assert (wf charts_with_old_ids) as Hwf.
  { split; simpl.
    - repeat (constructor; [simpl; intuition discriminate|]). constructor.
    - repeat constructor. }
  destruct (W3 Hwf (or_intror eq_refl))
    as (out & Hout & _ & Hcols & Hlen & Hrows).
  assert (columns out = ["song_id"; "rank"; "song"]%string) as Hc
      by exact Hcols.
  clear Hcols. rename Hc into Hcols.
  exists out. split; [exact Hout|]. split; [exact Hcols|].
  destruct (Hrows 0%nat (hd [] (rows charts_with_old_ids)) eq_refl)
    as (r' & Hr' & Hcells).
  destruct (rows out) as [|r0 [|r1 rs]]; try discriminate Hlen.
  injection Hr' as ->. rewrite Hcols in Hcells. rewrite Hcols. cbn [map].
  rewrite (Hcells "song_id"%string (or_introl eq_refl)),
          (Hcells "rank"%string (or_intror (or_introl eq_refl))),
          (Hcells "song"%string
                  (or_intror (or_intror (or_introl eq_refl)))).
  reflexivity.
Defined.

(* ================================================================== *)
(** ** The two song keys on plain text *)

Lemma latin1_ascii_tables : @ascii_tables latin1_db.
Proof.
  split; [|split]; simpl.
  - induction 1 as [|c s Hc _ IH]; [reflexivity|]. simpl. rewrite IH.
    unfold Latin1.decompose, Latin1.in_range, Py.in_range.
    replace (0xC0 <=? c) with false by (symmetry; apply Z.leb_gt; lia).
    reflexivity.
  - intros c Hc. unfold Latin1.in_range, Py.in_range.
    replace (0x300 <=? c) with false by (symmetry; apply Z.leb_gt; lia).
    reflexivity.
  - intros c Hc. unfold Latin1.alnum, Latin1.in_range, Py.in_range.
    replace (c =? 0xAA) with false by (symmetry; apply Z.eqb_neq; lia).
    replace (c =? 0xB2) with false by (symmetry; apply Z.eqb_neq; lia).
    replace (c =? 0xB3) with false by (symmetry; apply Z.eqb_neq; lia).
    replace (c =? 0xB5) with false by (symmetry; apply Z.eqb_neq; lia).
    replace (c =? 0xB9) with false by (symmetry; apply Z.eqb_neq; lia).
    replace (c =? 0xBA) with false by (symmetry; apply Z.eqb_neq; lia).
    replace (0xBC <=? c) with false by (symmetry; apply Z.leb_gt; lia).
    replace (0xC0 <=? c) with false by (symmetry; apply Z.leb_gt; lia).
    now rewrite !orb_false_r.
Qed.

Lemma plain_normalisations_agree `{UnicodeDB} (text : value) :
  ascii_tables ->
  forallb plain_ascii (lower (to_str text)) = true ->
  Tracks2.normalize_text text = Charts2.normalize_text text.
Proof.
  intros (Hnfd & Hmn & Haln) Hplain.
  unfold Tracks2.normalize_text, Charts2.normalize_text.
  destruct (isna text); [reflexivity|].
  set (t := lower (to_str text)) in *.
  assert (forall c, In c t ->
            0 <= c < 0x80 /\ Py.in_range 0x41 0x5A c = false /\ c <> 0x5F)
    as Ht.
  { intros c Hc. apply (proj1 (forallb_forall _ _) Hplain) in Hc.
    unfold plain_ascii in Hc.
    apply andb_true_iff in Hc as [Hc N2].
    apply andb_true_iff in Hc as [Hc N1].
    apply negb_true_iff in N1. apply negb_true_iff, Z.eqb_neq in N2.
    unfold Py.in_range in Hc. split; [lia | easy]. }
  rewrite Hnfd by (apply Forall_forall; intros c Hc; now apply Ht).
  rewrite (filter_all (fun char => negb (is_Mn char)) t).
  2:{ apply forallb_forall. intros c Hc.
      now rewrite (Hmn c (proj1 (Ht c Hc))). }
  rewrite (filter_ext_in (fun c => is_word c || Py.isspace c)
                         Charts2.kept_char t).
  2:{ intros c Hc. destruct (Ht c Hc) as (Ha & Hup & Hun).
      unfold is_word, Charts2.kept_char. rewrite (Haln c Ha), Hup.
      replace (c =? 0x5F) with false by (symmetry; now apply Z.eqb_neq).
      rewrite !orb_false_r. f_equal. apply orb_comm. }
  cbv zeta. now destruct (collapse_shape (filter Charts2.kept_char t))
    as (_ & -> & _).
Qed.

(** X18 — On plain text the two scripts agree.  When the lowercased
    song and artist hold only ASCII characters and no underscore, the
    tracks script and the second charts script normalise them to the
    same text and give the pair the same identifier, so the chart
    entries and the tracks of a song receive the same song_id.  (It
    uses that the Unicode tables act on ASCII as they do in Python.) *)
Theorem scripts_agree_on_plain_text `{UnicodeDB} (song artist : value) :
  ascii_tables ->
  forallb plain_ascii (lower (to_str song)) = true ->
  forallb plain_ascii (lower (to_str artist)) = true ->
  Tracks2.normalize_text song = Charts2.normalize_text song
  /\ Tracks2.normalize_text artist = Charts2.normalize_text artist
  /\ Tracks2.generate_song_id song artist
     = Charts2.generate_song_id song artist.
Proof.
  intros Htab Hs Ha.
  pose proof (plain_normalisations_agree song Htab Hs) as Es.
  pose proof (plain_normalisations_agree artist Htab Ha) as Ea.
  split; [exact Es|]. split; [exact Ea|].
  unfold Tracks2.generate_song_id, Charts2.generate_song_id.
  now rewrite Es, Ea.
Qed.

Lemma scripts_agree_on_plain_text_witness :
  Tracks2.generate_song_id (H := latin1_db)
    (VStr (lit "Don't Stop Me Now!")) (VStr (lit "  QUEEN "))
  = Charts2.generate_song_id (H := latin1_db)
      (VStr (lit "Don't Stop Me Now!")) (VStr (lit "  QUEEN ")).
Proof.
  apply (scripts_agree_on_plain_text
           (H := latin1_db) (VStr (lit "Don't Stop Me Now!"))
           (VStr (lit "  QUEEN ")) latin1_ascii_tables);
    reflexivity.
Defined.

(* ================================================================== *)
(** ** The statistics of the song identifiers *)

Lemma str_eqb_refl (a : str) : Py.str_eqb a a = true.
Proof. now apply str_eqb_eq. Qed.

Lemma existsb_str (k : str) (l : list str) :
  existsb (Py.str_eqb k) l = true <-> In k l.
Proof.
  rewrite existsb_exists. split.
  - intros (x & Hx & E). apply str_eqb_eq in E. now subst.
  - intros Hk. exists k. split; [exact Hk | apply str_eqb_refl].
Qed.

Lemma count_one_spec (k : str) (d : list (str * Z)) :
  map fst (CountSong.count_one k d)
  = (if existsb (Py.str_eqb k) (map fst d) then map fst d
     else map fst d ++ [k])
  /\ surplus (CountSong.count_one k d)
     = surplus d + (if existsb (Py.str_eqb k) (map fst d) then 1 else 0)
  /\ (NoDup (map fst d) ->
      forall k' v,
        In (k', v) (CountSong.count_one k d) ->
        (k' <> k /\ In (k', v) d)
        \/ (k' = k /\ ((exists n, In (k, n) d /\ v = n + 1)
                       \/ (~ In k (map fst d) /\ v = 1)))).
Proof.
  unfold surplus. induction d as [|[k0 n] d (IHk & IHs & IHi)].
  - simpl. split; [reflexivity|]. split; [reflexivity|].
    intros _ k' v [[= <- <-]|[]]. right. split; [reflexivity|]. now right.
  - cbn [CountSong.count_one map fst existsb].
    destruct (Py.str_eqb k0 k) eqn:E.
    + apply str_eqb_eq in E. subst k0. rewrite str_eqb_refl.
      cbn [orb map fst snd fold_right]. split; [reflexivity|].
      split; [lia|].
      intros Hnd k' v [[= <- <-]|Hin].
      * right. split; [reflexivity|]. left. exists n. split; [now left|easy].
      * left. split; [|now right]. intros ->. inversion Hnd; subst.
        apply H1. now apply (in_map fst) in Hin.
    + assert (Py.str_eqb k k0 = false) as E'.
      { destruct (Py.str_eqb k k0) eqn:E2; [|reflexivity].
        apply str_eqb_eq in E2. subst k0. now rewrite str_eqb_refl in E. }
      rewrite E'. cbn [orb map fst snd fold_right]. rewrite IHk, IHs.
      split; [now destruct (existsb _ _)|]. split; [lia|].
      assert (k0 <> k) as Hne.
      { intros ->. now rewrite str_eqb_refl in E. }
      intros Hnd k' v [[= <- <-]|Hin].
      * left. split; [exact Hne | now left].
      * inversion Hnd; subst.
        destruct (IHi H2 k' v Hin) as [[Hk Hd]|[-> [(m & Hm & ->)|[Hk ->]]]].
        -- left. split; [exact Hk | now right].
        -- right. split; [reflexivity|]. left. exists m.
           split; [now right | reflexivity].
        -- right. split; [reflexivity|]. right. split; [|reflexivity].
           intros [Hh|Hh]; [now apply Hne | now apply Hk].
Qed.

Lemma occurrences_snoc (xs : list str) (x k : str) :
  occurrences (xs ++ [x]) k
  = occurrences xs k + (if Py.str_eqb x k then 1 else 0).
Proof.
  unfold occurrences. rewrite count_occ_app. cbn [count_occ].
  destruct (list_eq_dec Z.eq_dec x k) as [->|Hne].
  - rewrite str_eqb_refl. now rewrite Nat2Z.inj_add.
  - destruct (Py.str_eqb x k) eqn:E.
    + apply str_eqb_eq in E. easy.
    + now rewrite Nat.add_0_r, Z.add_0_r.
Qed.

Lemma occurrences_pos (xs : list str) (k : str) :
  In k xs <-> 1 <= occurrences xs k.
Proof.
  unfold occurrences.
  rewrite (count_occ_In (list_eq_dec Z.eq_dec) xs k). lia.
Qed.

(** What the counter and the distinct values hold after a pass. *)
Lemma counter_spec (xs : list str) :
  let d := CountSong.Counter xs in
  map fst d = CountSong.unique xs
  /\ NoDup (map fst d)
  /\ (forall k, In k (map fst d) <-> In k xs)
  /\ (forall k v, In (k, v) d -> v = occurrences xs k)
  /\ surplus d
     = Z.of_nat (length xs) - Z.of_nat (length (CountSong.unique xs)).
Proof.
  cbv zeta.
  induction xs as [|x xs (IHu & IHnd & IHin & IHv & IHs)] using rev_ind.
  - simpl. split; [reflexivity|]. split; [constructor|].
    split; [easy|]. split; [easy | reflexivity].
  - assert (CountSong.Counter (xs ++ [x])
            = CountSong.count_one x (CountSong.Counter xs)) as ->
        by (unfold CountSong.Counter; now rewrite fold_left_app).
    assert (CountSong.unique (xs ++ [x])
            = if existsb (Py.str_eqb x) (CountSong.unique xs)
              then CountSong.unique xs else CountSong.unique xs ++ [x]) as ->
        by (unfold CountSong.unique; now rewrite fold_left_app).
    set (d := CountSong.Counter xs) in *.
    set (u := CountSong.unique xs) in *.
    destruct (count_one_spec x d) as (Hk & Hs & Hi).
    rewrite IHu in Hk, Hs.
    assert (existsb (Py.str_eqb x) u = true <-> In x xs) as Hex.
    { rewrite existsb_str, <- IHu. apply IHin. }
    split; [exact Hk|]. split; [|split; [|split]].
    + rewrite Hk. destruct (existsb (Py.str_eqb x) u) eqn:E;
        [now rewrite <- IHu|].
      rewrite <- IHu. apply NoDup_rev in IHnd.
      rewrite <- (rev_involutive (map fst d ++ [x])). apply NoDup_rev.
      rewrite rev_app_distr. simpl. constructor; [|exact IHnd].
      intros Hin. apply in_rev in Hin. apply IHin in Hin.
      apply Hex in Hin. congruence.
    + intros k. rewrite Hk, in_app_iff. simpl.
      destruct (existsb (Py.str_eqb x) u) eqn:E.
      * rewrite <- IHu, IHin. split; [now left|].
        intros [Hin|[<-|[]]]; [exact Hin | now apply Hex].
      * rewrite in_app_iff, <- IHu, IHin. simpl. reflexivity.
    + intros k v Hin. rewrite occurrences_snoc.
      destruct (Hi IHnd k v Hin)
        as [[Hne Hd]|[-> [(n & Hn & ->)|[Hn ->]]]].
      * rewrite (IHv k v Hd).
        destruct (Py.str_eqb x k) eqn:E; [|lia].
        apply str_eqb_eq in E. congruence.
      * rewrite str_eqb_refl, (IHv x n Hn). reflexivity.
      * rewrite str_eqb_refl.
        assert (~ 1 <= occurrences xs x) as Hocc
            by (rewrite <- occurrences_pos, <- IHin; exact Hn).
        unfold occurrences in *. lia.
    + rewrite Hs, IHs, !length_app. cbn [length].
      destruct (existsb (Py.str_eqb x) u); rewrite ?length_app;
        cbn [length]; lia.
Qed.

Lemma surplus_filter (d : list (str * Z)) :
  (forall k v, In (k, v) d -> 1 <= v) ->
  surplus (filter (fun kv => 1 <? snd kv) d) = surplus d
  /\ 0 <= surplus d
  /\ (surplus d = 0 -> filter (fun kv => 1 <? snd kv) d = []).
Proof.
  unfold surplus. induction d as [|[k v] d IH]; intros Hpos.
  - simpl. split; [reflexivity|]. split; [lia | reflexivity].
  - destruct IH as (IH1 & IH2 & IH3).
    { intros k' v' Hin. apply (Hpos k'). now right. }
    pose proof (Hpos k v (or_introl eq_refl)) as Hv.
    cbn [filter snd map fold_right].
    destruct (1 <? v) eqn:E; cbn [map fold_right snd].
    + apply Z.ltb_lt in E. rewrite IH1. split; [reflexivity|].
      split; lia.
    + apply Z.ltb_ge in E. rewrite IH1. split; [lia|]. split; [lia|].
      intros H0. apply IH3. lia.
Qed.

(** X19 — The statistics of [analyze_song_ids].  Without a song_id
    column there is no result.  Otherwise the rows are the missing and
    the non-missing identifiers together; the non-missing ones are the
    distinct ones and the duplicates together, so the duplicate count
    is the number of occurrences beyond the first, not the number of
    repeated identifiers.  The listed duplicates are exactly the
    identifiers that occur at least twice, each once with its number
    of occurrences, and the duplicate count is the sum of their
    occurrences beyond the first; it is zero exactly when no
    identifier is repeated. *)
Theorem analyze_song_ids_counts (df : DataFrame) :
  wf df ->
  (DF.has_col df "song_id" = false -> CountSong.analyze_song_ids df = None)
  /\ (DF.has_col df "song_id" = true ->
      exists res,
        CountSong.analyze_song_ids df = Some res
        /\ CountSong.total_rows res = Z.of_nat (length (rows df))
        /\ CountSong.non_null_count res
           = Z.of_nat (length (counted_ids df))
        /\ CountSong.total_rows res
           = CountSong.non_null_count res + CountSong.null_count res
        /\ CountSong.non_null_count res
           = CountSong.unique_count res + CountSong.duplicate_count res
        /\ 0 <= CountSong.null_count res
        /\ 0 <= CountSong.duplicate_count res
        /\ NoDup (map fst (CountSong.duplicated_ids res))
        /\ (forall k v,
              In (k, v) (CountSong.duplicated_ids res)
              <-> v = occurrences (counted_ids df) k /\ 2 <= v)
        /\ CountSong.duplicate_count res
           = surplus (CountSong.duplicated_ids res)
        /\ (CountSong.duplicate_count res = 0 <-> NoDup (counted_ids df))).
Proof.
  intros Hwf. unfold CountSong.analyze_song_ids. split; intros Hcol;
    rewrite Hcol; [reflexivity|]. cbn [negb].
  rewrite (column_cells df "song_id" Hwf Hcol). cbn [bind].
  fold (counted_ids df). set (xs := counted_ids df).
  set (cells := map (fun r => cell r "song_id") (rows df)).
  assert (length xs = length (filter (fun v => negb (isna v)) cells)) as Hlen
      by (unfold xs, counted_ids; now rewrite length_map).
  rewrite <- Hlen.
  destruct (counter_spec xs) as (Hu & Hnd & Hin & Hv & Hs). cbv zeta in *.
  set (d := CountSong.Counter xs) in *.
  assert (forall k v, In (k, v) d -> 1 <= v) as Hpos.
  { intros k v Hkv. rewrite (Hv k v Hkv). apply occurrences_pos, Hin.
    now apply (in_map fst) in Hkv. }
  destruct (surplus_filter d Hpos) as (F1 & F2 & F3).
  set (dup := Z.of_nat (length xs)
              - Z.of_nat (length (CountSong.unique xs))) in *.
  assert ((if 0 <? dup then filter (fun kv => 1 <? snd kv) d else [])
          = filter (fun kv => 1 <? snd kv) d) as Hdup.
  { destruct (0 <? dup) eqn:E; [reflexivity|]. apply Z.ltb_ge in E.
    symmetry. apply F3. lia. }
  eexists. split; [reflexivity|].
  cbn [CountSong.total_rows CountSong.non_null_count CountSong.null_count
       CountSong.unique_count CountSong.duplicate_count
       CountSong.duplicated_ids].
  rewrite Hdup.
  assert (length (filter (fun v => negb (isna v)) cells) <= length cells)%nat
    as Hle by apply filter_length_le.
  split; [unfold cells; now rewrite length_map|]. split; [reflexivity|].
  split; [lia|]. split; [lia|]. split; [lia|]. split; [lia|].
  split; [|split; [|split]].
  - clear - Hnd. induction d as [|[k v] d IH]; [constructor|].
    simpl in *. inversion Hnd; subst.
    destruct (1 <? v); [|now apply IH]. simpl. constructor; [|now apply IH].
    intros Hk. apply H1. apply in_map_iff in Hk as ([k' v'] & <- & Hk).
    apply filter_In in Hk as [Hk _]. now apply (in_map fst) in Hk.
  - intros k v. rewrite filter_In. cbn [snd]. rewrite Z.ltb_lt. split.
    + intros [Hkv Hlt]. split; [now apply Hv | lia].
    + intros [-> H2]. split; [|lia].
      assert (In k (map fst d)) as Hk by (apply Hin, occurrences_pos; lia).
      apply in_map_iff in Hk as ([k' v'] & E & Hk). simpl in E. subst k'.
      now rewrite <- (Hv k v' Hk).
  - now rewrite F1, Hs.
  - rewrite <- Hs. split.
    + intros H0. apply (NoDup_count_occ (list_eq_dec Z.eq_dec)).
      intros k. destruct (in_dec (list_eq_dec Z.eq_dec) k xs) as [Hk|Hk].
      * apply Hin in Hk. apply in_map_iff in Hk as ([k' v] & E & Hk).
        simpl in E. subst k'. pose proof (F3 H0) as Hnil.
        assert (~ 1 < v) as Hv1.
        { intros Hlt.
          assert (In (k, v) (filter (fun kv => 1 <? snd kv) d)) as Hf
              by (apply filter_In; split; [exact Hk | now apply Z.ltb_lt]).
          now rewrite Hnil in Hf. }
        pose proof (Hv k v Hk) as Hocc. unfold occurrences in Hocc. lia.
      * apply (count_occ_not_In (list_eq_dec Z.eq_dec)) in Hk. lia.
    + intros Hxs. rewrite <- F1.
      assert (filter (fun kv => 1 <? snd kv) d = []) as ->; [|reflexivity].
      destruct (filter (fun kv => 1 <? snd kv) d) as [|[k v] f] eqn:E;
        [reflexivity|].
      assert (In (k, v) (filter (fun kv => 1 <? snd kv) d)) as Hf
          by (rewrite E; now left).
      apply filter_In in Hf as [Hk Hlt]. apply Z.ltb_lt in Hlt. simpl in Hlt.
      pose proof (Hv k v Hk) as Hocc. unfold occurrences in Hocc.
      pose proof (proj1 (NoDup_count_occ (list_eq_dec Z.eq_dec) xs) Hxs k).
      lia.
Qed.

Lemma ids_example_wf : wf ids_example.
Proof.
  split; simpl.
  - repeat (constructor; [simpl; intuition discriminate|]). constructor.
  - repeat constructor.
Qed.

Lemma analyze_song_ids_counts_witness :
  exists res,
    CountSong.analyze_song_ids ids_example = Some res
    /\ CountSong.duplicate_count res = 2
    /\ CountSong.duplicate_count res
       = surplus (CountSong.duplicated_ids res).
Proof.
  destruct (proj2 (analyze_song_ids_counts ids_example ids_example_wf)
                  eq_refl)
    as (res & Hrun & _ & _ & _ & _ & _ & _ & _ & _ & Hsum & _).
  exists res. split; [exact Hrun|]. split; [|exact Hsum].
  vm_compute in Hrun. injection Hrun as <-. reflexivity.
Defined.

(* ================================================================== *)
(** ** Identifiers shared by artists *)

Lemma Forall2_In_left {A B} (R : A -> B -> Prop) (l : list A) (l' : list B)
      (x : A) :
  Forall2 R l l' -> In x l -> exists y, In y l' /\ R x y.
Proof.
  induction 1 as [|a b l l' Hab _ IH]; [easy|].
  intros [<-|Hx].
  - exists b. split; [now left | exact Hab].
  - destruct (IH Hx) as (y & Hy & Hr). exists y. split; [now right | exact Hr].
Qed.

(** X20 — The identifier is no key of the artists table.  The names of
    the table are distinct, but names that differ only in case (or by
    whatever else lowercasing removes) receive the same identifier:
    whenever two such names occur in the input tables, the artists
    table holds a row for each of them, with different names and the
    same artist_id. *)
Theorem artist_ids_shared `{UnicodeDB} (tracks_df charts_df : DataFrame)
        (tcells ccells : list value) (t' c' a' : DataFrame) (n1 n2 : str) :
  DF.column tracks_df "artists" = Some tcells ->
  DF.column charts_df "artist" = Some ccells ->
  Artists1Process.process_csv_files tracks_df charts_df = Some (t', c', a') ->
  In n1 (named_artists tcells ++ named_artists ccells) ->
  In n2 (named_artists tcells ++ named_artists ccells) ->
  n1 <> n2 ->
  lower (Py.strip n1) = lower (Py.strip n2) ->
  exists r1 r2 id,
    In r1 (rows a') /\ In r2 (rows a') /\ r1 <> r2
    /\ cell r1 "artist_name" = VStr n1 /\ cell r2 "artist_name" = VStr n2
    /\ cell r1 "artist_id" = VStr id /\ cell r2 "artist_id" = VStr id.
Proof.
  intros Ht Hc Hrun H1 H2 Hne Hlow.
  unfold Artists1Process.process_csv_files in Hrun.
  rewrite Ht, Hc in Hrun. cbn [bind] in Hrun.
  destruct (all_artists_spec tcells ccells) as (_ & _ & Hin).
  set (names := Artists1Process.sorted _) in *.
  destruct (DF.traverse Artists1.generate_artist_id names) as [ids|] eqn:Hids;
    [|discriminate].
  cbn [bind] in Hrun. injection Hrun as _ _ <-. cbn [rows].
  pose proof (artists1_rows names ids Hids) as Hrows.
  destruct (Forall2_In_left _ _ _ n1 Hrows (proj2 (Hin n1) H1))
    as (r1 & Hr1 & id1 & Hg1 & ->).
  destruct (Forall2_In_left _ _ _ n2 Hrows (proj2 (Hin n2) H2))
    as (r2 & Hr2 & id2 & Hg2 & ->).
  assert (id2 = id1) as ->.
  { unfold Artists1.generate_artist_id in Hg1, Hg2.
    rewrite Hlow in Hg1. congruence. }
  do 2 eexists. exists id1. split; [exact Hr1|]. split; [exact Hr2|].
  split; [|now repeat split]. intros [= E]. now apply Hne.
Qed.

Lemma artist_ids_shared_witness :
  exists t' c' a' r1 r2 id,
    @Artists1Process.process_csv_files latin1_db
      spelled_tracks_example spelled_charts_example = Some (t', c', a')
    /\ In r1 (rows a') /\ In r2 (rows a') /\ r1 <> r2
    /\ cell r1 "artist_id" = VStr id /\ cell r2 "artist_id" = VStr id.
Proof.
  destruct (@Artists1Process.process_csv_files latin1_db
              spelled_tracks_example spelled_charts_example)
    as [[[t' c'] a']|] eqn:Hrun; [|vm_compute in Hrun; discriminate].
  destruct (@artist_ids_shared latin1_db
              spelled_tracks_example spelled_charts_example
              [VStr (lit "Adele")] [VStr (lit "ADELE")] t' c' a'
              (lit "Adele") (lit "ADELE") eq_refl eq_refl Hrun)
    as (r1 & r2 & id & Hr1 & Hr2 & Hne & _ & _ & Hi1 & Hi2).
  - now left.
  - right. now left.
  - discriminate.
  - reflexivity.
  - exists t', c', a', r1, r2, id. repeat split; assumption.
Defined.

(* ================================================================== *)
(** ** Folding of case, whitespace and accents *)

Section SplitFlatMap.
Variable g : Z -> str.
Hypothesis g_space :
  forall c, Py.isspace c = true ->
            exists d, g c = [d] /\ Py.isspace d = true.
Hypothesis g_other :
  forall c, Py.isspace c = false ->
            Forall (fun d => Py.isspace d = false) (g c).

Lemma split_from_flat_map (s tok : str) :
  Py.split_from (rev (flat_map g (rev tok))) (flat_map g s)
  = filter nonempty (map (flat_map g) (Py.split_from tok s)).
Proof.
  assert (forall w : str, nonempty w = false -> rev w = []) as Hempty
      by (now intros [|c w]).
  assert (forall w : str, nonempty w = true ->
            match rev w with [] => false | _ => true end = true) as Hfull.
  { intros [|c w]; [easy|]. intros _. cbn [rev].
    now destruct (rev w). }
  revert tok. induction s as [|c s IH]; intros tok.
  - cbn [flat_map Py.split_from]. destruct tok as [|c tok]; [reflexivity|].
    cbn [map filter]. rewrite rev_involutive.
    destruct (nonempty (flat_map g (rev (c :: tok)))) eqn:E.
    + apply Hfull in E. now destruct (rev (flat_map g (rev (c :: tok)))).
    + now rewrite (Hempty _ E).
  - cbn [flat_map Py.split_from]. destruct (Py.isspace c) eqn:Hc.
    + destruct (g_space c Hc) as (d & -> & Hd).
      cbn [app Py.split_from]. rewrite Hd.
      specialize (IH []). cbn [rev flat_map] in IH.
      destruct tok as [|c0 tok]; [exact IH|].
      cbn [map filter]. rewrite <- IH, rev_involutive.
      destruct (nonempty (flat_map g (rev (c0 :: tok)))) eqn:E.
      * apply Hfull in E.
        now destruct (rev (flat_map g (rev (c0 :: tok)))).
      * now rewrite (Hempty _ E).
    + rewrite split_from_app_token by now apply g_other.
      rewrite <- (IH (c :: tok)). f_equal. cbn [rev].
      rewrite flat_map_app. cbn [flat_map].
      now rewrite app_nil_r, rev_app_distr.
Qed.

Lemma split_flat_map (s : str) :
  Py.split (flat_map g s)
  = filter nonempty (map (flat_map g) (Py.split s)).
Proof. exact (split_from_flat_map s []). Qed.

End SplitFlatMap.

Lemma filter_as_flat_map (p : Z -> bool) (s : str) :
  filter p s = flat_map (fun c => if p c then [c] else []) s.
Proof.
  induction s as [|c s IH]; [reflexivity|]. cbn [filter flat_map].
  rewrite IH. now destruct (p c).
Qed.

Lemma filter_of_flat_map (p : Z -> bool) (g : Z -> str) (s : str) :
  filter p (flat_map g s) = flat_map (fun c => filter p (g c)) s.
Proof.
  induction s as [|c s IH]; [reflexivity|]. cbn [flat_map].
  now rewrite filter_app, IH.
Qed.

Lemma map_as_flat_map (f : Z -> Z) (s : str) :
  map f s = flat_map (fun c => [f c]) s.
Proof. induction s as [|c s IH]; [reflexivity|]. simpl. now rewrite IH. Qed.

(** A filter that keeps the whitespace filters the words. *)
Lemma split_filter (p : Z -> bool) (s : str) :
  (forall c, Py.isspace c = true -> p c = true) ->
  Py.split (filter p s) = filter nonempty (map (filter p) (Py.split s)).
Proof.
  intros Hp. rewrite filter_as_flat_map, split_flat_map.
  - f_equal. apply map_ext. intros w. symmetry. apply filter_as_flat_map.
  - intros c Hc. exists c. now rewrite (Hp c Hc).
  - intros c Hc. destruct (p c); repeat constructor. exact Hc.
Qed.

Lemma tracks2_normalize_words `{UnicodeDB} (s : str) :
  Tracks2.normalize_text (VStr s)
  = Py.strip
      (Py.join (lit " ")
         (filter nonempty
            (map (filter (fun c => is_word c || Py.isspace c))
                 (Py.split (unaccent (lower s)))))).
Proof.
  unfold Tracks2.normalize_text, unaccent. cbn [isna to_str].
  rewrite split_filter; [reflexivity|].
  intros c ->. apply orb_true_r.
Qed.

Lemma charts2_normalize_words `{UnicodeDB} (s : str) :
  Charts2.normalize_text (VStr s)
  = Py.join (lit " ")
      (filter nonempty
         (map (filter Charts2.kept_char) (Py.split (lower s)))).
Proof.
  unfold Charts2.normalize_text. cbn [isna to_str].
  rewrite split_filter; [reflexivity|].
  intros c Hc. unfold Charts2.kept_char. rewrite Hc. apply orb_true_r.
Qed.

Lemma same_tracks_key_of_words `{UnicodeDB} (s t : str) :
  Py.split (unaccent (lower s)) = Py.split (unaccent (lower t)) ->
  same_tracks_key s t.
Proof.
  intros E other. unfold Tracks2.generate_song_id.
  now rewrite !tracks2_normalize_words, E.
Qed.

Lemma same_charts_key_of_words `{UnicodeDB} (s t : str) :
  Py.split (lower s) = Py.split (lower t) -> same_charts_key s t.
Proof.
  intros E other. unfold Charts2.generate_song_id.
  now rewrite !charts2_normalize_words, E.
Qed.

(** *** The laws on U+0000..U+00FF *)

Lemma byte_cases (P : Z -> bool) :
  forallb P (map Z.of_nat (seq 0 256)) = true ->
  forall c, 0 <= c <= 255 -> P c = true.
Proof.
  intros HP c Hc. rewrite forallb_forall in HP. apply HP.
  apply in_map_iff. exists (Z.to_nat c). split; [lia|].
  apply in_seq. lia.
Qed.

Lemma isspace_not_mark (c : Z) :
  Py.isspace c = true -> Latin1.in_range 0x300 0x36F c = false.
Proof.
  unfold Py.isspace, Latin1.in_range, Py.in_range. intros Hc.
  destruct (0x300 <=? c) eqn:E1; [|reflexivity].
  destruct (c <=? 0x36F) eqn:E2; [|reflexivity].
  apply Z.leb_le in E1, E2.
  repeat rewrite ?orb_true_iff, ?andb_true_iff, ?Z.leb_le, ?Z.eqb_eq in Hc.
  lia.
Qed.

Lemma latin1_char_laws_hold (c : Z) : latin1_char_laws c = true.
Proof.
  destruct (Z_le_dec 0 c) as [H0|H0]; [destruct (Z_le_dec c 255) as [H1|H1]|].
  - apply (byte_cases latin1_char_laws); [vm_compute; reflexivity | lia].
  - unfold latin1_char_laws.
    assert (Latin1.lower_char c = c) as Hl.
    { unfold Latin1.lower_char, Latin1.in_range, Py.in_range.
      replace (c <=? 0x5A) with false by (symmetry; apply Z.leb_gt; lia).
      replace (c <=? 0xDE) with false by (symmetry; apply Z.leb_gt; lia).
      now rewrite !andb_false_r. }
    assert (Latin1.decompose c = [c]) as Hd.
    { unfold Latin1.decompose, Latin1.in_range, Py.in_range.
      replace (c <=? 0xFF) with false by (symmetry; apply Z.leb_gt; lia).
      now rewrite andb_false_r. }
    rewrite !Hl, !Hd. cbn [forallb filter].
    destruct (Py.isspace c) eqn:Hc.
    + rewrite (isspace_not_mark c Hc). cbn [negb map Py.str_eqb].
      now rewrite !Hl, !Z.eqb_refl.
    + destruct (negb (Latin1.in_range 768 879 c));
        cbn [negb map forallb Py.str_eqb andb];
        now rewrite ?Hl, ?Hc, ?Z.eqb_refl.
  - unfold latin1_char_laws.
    assert (Latin1.lower_char c = c) as Hl.
    { unfold Latin1.lower_char, Latin1.in_range, Py.in_range.
      replace (0x41 <=? c) with false by (symmetry; apply Z.leb_gt; lia).
      replace (0xC0 <=? c) with false by (symmetry; apply Z.leb_gt; lia).
      reflexivity. }
    assert (Latin1.decompose c = [c]) as Hd.
    { unfold Latin1.decompose, Latin1.in_range, Py.in_range.
      replace (0xC0 <=? c) with false by (symmetry; apply Z.leb_gt; lia).
      reflexivity. }
    rewrite !Hl, !Hd. cbn [forallb filter].
    destruct (Py.isspace c) eqn:Hc.
    + rewrite (isspace_not_mark c Hc). cbn [negb map Py.str_eqb].
      now rewrite !Hl, !Z.eqb_refl.
    + destruct (negb (Latin1.in_range 768 879 c));
        cbn [negb map forallb Py.str_eqb andb];
        now rewrite ?Hl, ?Hc, ?Z.eqb_refl.
Qed.

Lemma latin1_char_facts (c : Z) :
  let plain d :=
    filter (fun char => negb (Latin1.in_range 0x300 0x36F char))
           (Latin1.decompose d) in
  (Py.isspace c = true -> Latin1.lower_char c = c /\ plain c = [c])
  /\ (Py.isspace c = false ->
      Py.isspace (Latin1.lower_char c) = false
      /\ Forall (fun d => Py.isspace d = false) (plain c))
  /\ plain (Latin1.lower_char c) = map Latin1.lower_char (plain c)
  /\ Forall (fun d => Latin1.lower_char d = d)
            (Latin1.decompose (Latin1.lower_char c)).
Proof.
  cbv zeta. pose proof (latin1_char_laws_hold c) as L.
  unfold latin1_char_laws in L. cbv zeta in L.
  apply andb_true_iff in L as [L Hlow].
  apply andb_true_iff in L as [Hsp Hcomm].
  apply str_eqb_eq in Hcomm. split; [|split; [|split]].
  - intros Hc. rewrite Hc in Hsp. apply andb_true_iff in Hsp as [A B].
    apply Z.eqb_eq in A. now apply str_eqb_eq in B.
  - intros Hc. rewrite Hc in Hsp. apply andb_true_iff in Hsp as [A B].
    apply negb_true_iff in A. split; [exact A|].
    apply Forall_forall. intros d Hd.
    rewrite forallb_forall in B. now apply negb_true_iff, B.
  - exact Hcomm.
  - apply Forall_forall. intros d Hd. rewrite forallb_forall in Hlow.
    now apply Z.eqb_eq, Hlow.
Qed.

Lemma latin1_unaccent (s : str) :
  unaccent (H := latin1_db) s
  = flat_map (fun c => filter (fun char =>
                                 negb (Latin1.in_range 0x300 0x36F char))
                              (Latin1.decompose c)) s.
Proof. unfold unaccent. simpl. apply filter_of_flat_map. Qed.

Lemma latin1_lower_word_wise : @lower_word_wise latin1_db.
Proof.
  intros s. simpl. rewrite map_as_flat_map, split_flat_map.
  - pose proof (split_tokens s) as Ht.
    induction Ht as [|w ws [Hne _] _ IH]; [reflexivity|].
    cbn [map filter]. rewrite <- map_as_flat_map.
    destruct w as [|c w]; [easy|]. cbn [map nonempty]. now rewrite IH.
  - intros c Hc. exists c.
    now rewrite (proj1 (proj1 (latin1_char_facts c) Hc)).
  - intros c Hc. repeat constructor.
    exact (proj1 (proj1 (proj2 (latin1_char_facts c)) Hc)).
Qed.

Lemma latin1_unaccent_word_wise : @unaccent_word_wise latin1_db.
Proof.
  intros s. rewrite latin1_unaccent, split_flat_map.
  - f_equal. apply map_ext. intros w. symmetry. apply latin1_unaccent.
  - intros c Hc. exists c.
    now rewrite (proj2 (proj1 (latin1_char_facts c) Hc)).
  - intros c Hc.
    exact (proj2 (proj1 (proj2 (latin1_char_facts c)) Hc)).
Qed.

Lemma latin1_unaccent_lower : @unaccent_lower latin1_db.
Proof.
  intros s. rewrite !latin1_unaccent. simpl.
  induction s as [|c s IH]; [reflexivity|].
  cbn [map flat_map]. rewrite map_app, IH. f_equal.
  exact (proj1 (proj2 (proj2 (latin1_char_facts c)))).
Qed.

Lemma latin1_lower_stable : @lower_stable latin1_db.
Proof.
  intros s c Hc. simpl in *. apply in_flat_map in Hc as (x & Hx & Hc).
  apply in_map_iff in Hx as (c0 & <- & _).
  pose proof (proj2 (proj2 (proj2 (latin1_char_facts c0)))) as Hlow.
  rewrite Forall_forall in Hlow. now rewrite (Hlow c Hc).
Qed.

Lemma tracks2_normalize_source `{UnicodeDB} (text : value) (c : Z) :
  In c (Tracks2.normalize_text text) ->
  c = 0x20 \/ In c (nfd (lower (to_str text))).
Proof.
  unfold Tracks2.normalize_text. destruct (isna text); [easy|].
  intros Hc. apply strip_incl in Hc. apply join_chars in Hc.
  destruct Hc as [Hc|[w [Hw Hc]]].
  - destruct Hc as [<-|[]]. now left.
  - right. destruct (split_chars _ _ _ Hw Hc) as [Hin _].
    apply filter_In in Hin as [Hin _]. now apply filter_In in Hin.
Qed.

(** C4, amended — The charts normalisation returns only lowercase
    ASCII letters, digits and spaces, for every cell, the missing one
    included.  The tracks normalisation returns only spaces and word
    characters (alphanumeric in the Unicode sense, or the underscore)
    that are neither combining marks nor whitespace, and none of them
    is a character that lowercasing changes (so no letter A to Z),
    since decomposing a lowercased text gives no such character. *)
Theorem normalize_text_charset `{UnicodeDB} (text : value) :
  (forall c, In c (Charts2.normalize_text text) -> canonical_char c = true)
  /\ (forall c, In c (Tracks2.normalize_text text) ->
        c = 0x20
        \/ (is_word c = true /\ is_Mn c = false /\ Py.isspace c = false))
  /\ (lower_stable ->
      forall c, In c (Tracks2.normalize_text text) ->
                c = 0x20 \/ lower [c] = [c])
  /\ Charts2.normalize_text VNaN = []
  /\ Tracks2.normalize_text VNaN = [].
Proof.
  split; [apply charts2_normalize_canonical|].
  split; [apply tracks2_normalize_chars|]. split; [|easy].
  intros Hlow c Hc. apply tracks2_normalize_source in Hc as [->|Hc];
    [now left | right; now apply (Hlow _ _ Hc)].
Qed.

Lemma normalize_text_charset_witness :
  canonical_char 0x65 = true
  /\ (0x5F = 0x20
      \/ (is_word (H := latin1_db) 0x5F = true
          /\ is_Mn (UnicodeDB := latin1_db) 0x5F = false
          /\ Py.isspace 0x5F = false))
  /\ Tracks2.normalize_text (H := latin1_db) (VStr (lit "A_B")) = lit "a_b"
  /\ (0x62 = 0x20 \/ lower (UnicodeDB := latin1_db) [0x62] = [0x62])
  /\ lower (UnicodeDB := latin1_db) (lit "B") <> lit "B".
Proof.
  split; [|split; [|split; [reflexivity|split; [|discriminate]]]].
  - apply (proj1 (normalize_text_charset (H := latin1_db) ed_sheeran)).
    now left.
  - apply (proj1 (proj2 (normalize_text_charset
                           (H := latin1_db) (VStr (lit "a_b"))))).
    right. now left.
  - apply (proj1 (proj2 (proj2 (normalize_text_charset
                                  (H := latin1_db) (VStr (lit "A_B")))))).
    + exact latin1_lower_stable.
    + right. right. now left.
Defined.

(** C5, amended — Both keys are the same for texts that differ in
    letter case only (texts that are equal once lowercased) or in
    whitespace only (texts with the same words between their
    whitespace).  The tracks key is also the same for texts that differ
    in accents only, those that Unicode decomposes into a base letter
    and combining marks: a letter with a stroke, such as U+00F8, is
    not folded.  So the tracks key of "Ed Sheeran", of
    "  ED   SHEERAN  " and of "éd shëeran" is the same, in either
    field and whatever the other field is.  The charts key is the same
    for the first two only: it deletes accented letters instead of
    folding them, and normalises "éd shëeran" to "d sheran".  In
    general each key is a function of the words of the folded text. *)
Theorem song_id_insensitivity `{UnicodeDB} (s t : str) :
  (Py.split (unaccent (lower s)) = Py.split (unaccent (lower t)) ->
   same_tracks_key s t)
  /\ (Py.split (lower s) = Py.split (lower t) -> same_charts_key s t)
  /\ (lower s = lower t -> same_tracks_key s t /\ same_charts_key s t)
  /\ (lower_word_wise -> Py.split s = Py.split t -> same_charts_key s t)
  /\ (lower_word_wise -> unaccent_word_wise ->
      Py.split s = Py.split t -> same_tracks_key s t)
  /\ (unaccent_lower -> unaccent s = unaccent t -> same_tracks_key s t)
  /\ (same_tracks_key (H := latin1_db)
        (lit "Ed Sheeran") (lit "  ED   SHEERAN  ")
      /\ same_tracks_key (H := latin1_db)
           (lit "  ED   SHEERAN  ")
           ([0xE9] ++ lit "d sh" ++ [0xEB] ++ lit "eran")
      /\ same_charts_key (H := latin1_db)
           (lit "Ed Sheeran") (lit "  ED   SHEERAN  "))
  /\ Charts2.normalize_text (H := latin1_db) ed_sheeran = lit "ed sheeran"
  /\ Charts2.normalize_text (H := latin1_db) ed_sheeran_accented
     = lit "d sheran"
  /\ unaccent (H := latin1_db) [0xF8] = [0xF8]
  /\ Tracks2.normalize_text (H := latin1_db) (VStr [0xF8]) = [0xF8]
  /\ Tracks2.normalize_text (H := latin1_db) (VStr (lit "o")) = lit "o".
Proof.
  split; [apply same_tracks_key_of_words|].
  split; [apply same_charts_key_of_words|].
  split.
  { intros E. split.
    - apply same_tracks_key_of_words. now rewrite E.
    - apply same_charts_key_of_words. now rewrite E. }
  split.
  { intros L1 E. apply same_charts_key_of_words. now rewrite !L1, E. }
  split.
  { intros L1 L2 E. apply same_tracks_key_of_words.
    now rewrite !L2, !L1, E. }
  split.
  { intros L3 E. apply same_tracks_key_of_words. now rewrite !L3, E. }
  split.
  { split; [|split].
    - now apply same_tracks_key_of_words.
    - now apply same_tracks_key_of_words.
    - now apply same_charts_key_of_words. }
  repeat split.
Qed.

Lemma song_id_insensitivity_witness :
  same_tracks_key (H := latin1_db)
    (lit "Ed Sheeran") ([0xE9] ++ lit "d sh" ++ [0xEB] ++ lit "eran")
  /\ same_charts_key (H := latin1_db) (lit "Ed Sheeran") (lit "ED SHEERAN")
  /\ same_charts_key (H := latin1_db)
       (lit "Ed Sheeran") (lit "  Ed   Sheeran ")
  /\ same_tracks_key (H := latin1_db)
       (lit "Ed Sheeran") (lit "  Ed   Sheeran ")
  /\ same_tracks_key (H := latin1_db)
       (lit "Ed Sheeran") ([0xC9] ++ lit "d Sh" ++ [0xEB] ++ lit "eran").
Proof.
  split; [|split; [|split; [|split]]].
  - now apply (proj1 (song_id_insensitivity (H := latin1_db) _ _)).
  - now apply (proj1 (proj2 (proj2 (song_id_insensitivity
                                      (H := latin1_db) _ _)))).
  - apply (proj1 (proj2 (proj2 (proj2 (song_id_insensitivity
                                         (H := latin1_db) _ _)))));
      [exact latin1_lower_word_wise | reflexivity].
  - apply (proj1 (proj2 (proj2 (proj2 (proj2 (song_id_insensitivity
                                                (H := latin1_db) _ _))))));
      [exact latin1_lower_word_wise | exact latin1_unaccent_word_wise
       | reflexivity].
  - apply (proj1 (proj2 (proj2 (proj2 (proj2 (proj2
             (song_id_insensitivity (H := latin1_db) _ _)))))));
      [exact latin1_unaccent_lower | reflexivity].
Defined.
